(** * JackNetTool: packet framing of the JACK network transport

    A shallow embedding of [common/JackNetTool.h]: the session and packet
    header records, the audio frame layout of [JackPortList] and
    [JackOptimizedPortList], their render and active-port operations, and
    the loss detection on the sub-cycle counter.

    Conventions.
    - C integers are [Z]; every conversion the C++ code performs between
      integer types is written out with [u32], [i32], [u64] or [i16].
    - Memory is a list of bytes (each a [Z] in [0, 256)); a pointer into a
      port buffer is modelled by the bytes it points to.
    - [float] and [double] are the IEEE 754 binary32 and binary64 formats
      of [SpecFloat], with rounding to nearest even; [log] is taken to be
      correctly rounded.
    - An operation whose C++ behaviour is undefined (access outside a
      buffer, division by zero, conversion of a NaN or an infinity to
      [int]) yields [Undefined]; a failed [assert] yields [AssertFailed]. *)

From Stdlib Require Import ZArith Zpower List Lia Bool Sorted.
From Stdlib Require Import QArith Qpower.
From Stdlib Require Import Floats.SpecFloat.
Import ListNotations.
Local Open Scope Z_scope.

(** ** C integer conversions *)

Module CInt.

(** Conversion to [uint32_t]. *)
Definition u32 (x : Z) : Z := x mod 2 ^ 32.

(** Conversion to [size_t] / [uint64_t] (LP64). *)
Definition u64 (x : Z) : Z := x mod 2 ^ 64.

(** Conversion to [int] / [int32_t] (two's complement). *)
Definition i32 (x : Z) : Z := (x + 2 ^ 31) mod 2 ^ 32 - 2 ^ 31.

(** Conversion to [short] (two's complement). *)
Definition i16 (x : Z) : Z := (x + 2 ^ 15) mod 2 ^ 16 - 2 ^ 15.

Definition INT_MAX : Z := 2 ^ 31 - 1.
Definition INT_MIN : Z := - 2 ^ 31.

End CInt.
Export CInt.

(** ** Outcomes of a call *)

Inductive outcome (A : Type) : Type :=
| Ok (a : A)
| AssertFailed
| Undefined.

Arguments Ok {A} a.
Arguments AssertFailed {A}.
Arguments Undefined {A}.

Definition bind {A B : Type} (c : outcome A) (k : A -> outcome B) : outcome B :=
  match c with
  | Ok a => k a
  | AssertFailed => AssertFailed
  | Undefined => Undefined
  end.

Notation "x <- c ;; k" := (bind c (fun x => k))
  (at level 61, c at next level, right associativity).
Notation "' p <- c ;; k" := (bind c (fun p => k))
  (at level 61, p pattern, c at next level, right associativity).

(** ** Floating-point arithmetic

    [float] is IEEE 754 binary32 and [double] is binary64; the conversion
    from an integer and the division round to nearest even ([SpecFloat]).
    [log] is the logarithm of the C library, taken to be correctly
    rounded: the natural logarithm is computed in fixed point, with
    [LOG_BITS] fractional bits, and rounded to the format. *)

Definition LOG_BITS : Z := 128.

(** [p / k + p z2 / (k + 2) + p z2^2 / (k + 4) + ...], [n] terms, in fixed
    point: with [p = z], [z2 = z^2] and [k = 1] the series of [atanh z]. *)
Fixpoint atanh_series (n : nat) (k p z2 : Z) : Z :=
  match n with
  | O => 0
  | S n' =>
      p / k + atanh_series n' (k + 2) (Z.shiftr (p * z2) LOG_BITS) z2
  end.

(** [ln (a / b)] for [b <= a < 2 b], as [2 atanh ((a - b) / (a + b))]. *)
Definition ln_ratio (a b : Z) : Z :=
  let z := Z.shiftl (a - b) LOG_BITS / (a + b) in
  2 * atanh_series 45 1 z (Z.shiftr (z * z) LOG_BITS).

(** [ln 2] *)
Definition LN2 : Z := ln_ratio 2 1.

(** [log x]: a positive finite [x] is [y * 2 ^ k] with [1 <= y < 2], and
    [ln x = k ln 2 + ln y]; the logarithm of a zero is minus infinity and
    that of a negative number is a NaN. *)
Definition SFlog (prec emax : Z) (x : spec_float) : spec_float :=
  match x with
  | S754_nan => S754_nan
  | S754_zero _ => S754_infinity true
  | S754_infinity false => S754_infinity false
  | S754_infinity true => S754_nan
  | S754_finite true _ _ => S754_nan
  | S754_finite false m e =>
      let d := Zdigits2 (Zpos m) in
      binary_normalize prec emax
        ((d - 1 + e) * LN2 + ln_ratio (Zpos m) (2 ^ (d - 1)))
        (- LOG_BITS) false
  end.

(** Value of the mantissa [m] at the exponent [e]. *)
Definition F2Q (m e : Z) : Q := (inject_Z m * 2 ^ e)%Q.

(** [x / 2 ^ n] rounded to the nearest integer, ties to even. *)
Definition rne (x n : Z) : Z :=
  let q := x / 2 ^ n in
  match 2 * (x mod 2 ^ n) ?= 2 ^ n with
  | Lt => q
  | Eq => if Z.even q then q else q + 1
  | Gt => q + 1
  end.

Module Float32.

Definition prec : Z := 24.
Definition emax : Z := 128.

Definition t : Type := spec_float.

(** [float(x)] for an integer [x]. *)
Definition of_Z (x : Z) : t := binary_normalize prec emax x 0 false.

Definition div (x y : t) : t := SFdiv prec emax x y.

(** [log(x)] for a [float] [x] *)
Definition log (x : t) : t := SFlog prec emax x.

End Float32.

Module Float64.

Definition prec : Z := 53.
Definition emax : Z := 1024.

Definition t : Type := spec_float.

(** The [double] of an integer literal. *)
Definition of_Z (x : Z) : t := binary_normalize prec emax x 0 false.

(** The quotient of two [double]s; a [float] operand is converted to
    [double] without change of value. *)
Definition div (x y : t) : t := SFdiv prec emax x y.

(** [log(x)] for a [double] [x] *)
Definition log (x : t) : t := SFlog prec emax x.

End Float64.

(** ** Wire records *)

(** Size and alignment of the members of a struct, in declaration order,
    and the [sizeof] they give with natural alignment. *)
Definition align_up (off a : Z) : Z := ((off + a - 1) / a) * a.

Definition struct_end (members : list (Z * Z)) : Z :=
  fold_left (fun off m => align_up off (snd m) + fst m) members 0.

Definition struct_align (members : list (Z * Z)) : Z :=
  fold_left (fun a m => Z.max a (snd m)) members 1.

Definition struct_size (members : list (Z * Z)) : Z :=
  align_up (struct_end members) (struct_align members).

Module session_params.

(** [struct _session_params] *)
Record t : Type := {
  fPacketType : list Z;          (* char[7] *)
  fProtocolVersion : Z;          (* char *)
  fPacketID : Z;                 (* uint32_t *)
  fName : list Z;                (* char[JACK_CLIENT_NAME_SIZE] *)
  fMasterNetName : list Z;       (* char[256] *)
  fSlaveNetName : list Z;        (* char[256] *)
  fMtu : Z;                      (* uint32_t *)
  fID : Z;                       (* uint32_t *)
  fTransportSync : Z;            (* uint32_t *)
  fSendAudioChannels : Z;        (* int32_t *)
  fReturnAudioChannels : Z;      (* int32_t *)
  fSendMidiChannels : Z;         (* int32_t *)
  fReturnMidiChannels : Z;       (* int32_t *)
  fSampleRate : Z;               (* uint32_t *)
  fPeriodSize : Z;               (* uint32_t *)
  fSampleEncoder : Z;            (* uint32_t *)
  fKBps : Z;                     (* uint32_t *)
  fSlaveSyncMode : Z;            (* uint32_t *)
  fNetworkLatency : Z            (* uint32_t *)
}.

End session_params.

Module packet_header.

(** [struct _packet_header] *)
Record t : Type := {
  fPacketType : list Z;          (* char[7] *)
  fDataType : Z;                 (* char *)
  fDataStream : Z;               (* char *)
  fID : Z;                       (* uint32_t *)
  fNumPacket : Z;                (* uint32_t *)
  fPacketSize : Z;               (* uint32_t *)
  fActivePorts : Z;              (* uint32_t *)
  fCycle : Z;                    (* uint32_t *)
  fSubCycle : Z;                 (* uint32_t *)
  fIsLastPckt : Z                (* uint32_t *)
}.

(** The members as (size, alignment). *)
Definition members : list (Z * Z) :=
  [(7, 1); (1, 1); (1, 1); (4, 4); (4, 4); (4, 4); (4, 4); (4, 4); (4, 4); (4, 4)].

End packet_header.

(** [HEADER_SIZE], that is [sizeof(packet_header_t)]. *)
Definition HEADER_SIZE : Z := struct_size packet_header.members.

(** [sizeof(sample_t)] and [sizeof(uint32_t)]. *)
Definition sizeof_sample_t : Z := 4.
Definition sizeof_uint32_t : Z := 4.

(** [NET_PACKET_ERROR] *)
Definition NET_PACKET_ERROR : Z := -2.

(** ** Memory

    A region of memory is the list of its bytes.  Reading or writing
    outside the region is undefined behaviour. *)

Definition len {A : Type} (l : list A) : Z := Z.of_nat (length l).

Definition mem_read (mem : list Z) (off n : Z) : outcome (list Z) :=
  if (0 <=? off) && (0 <=? n) && (off + n <=? len mem)
  then Ok (firstn (Z.to_nat n) (skipn (Z.to_nat off) mem))
  else Undefined.

Definition mem_write (mem : list Z) (off : Z) (data : list Z) : outcome (list Z) :=
  if (0 <=? off) && (off + len data <=? len mem)
  then Ok (firstn (Z.to_nat off) mem ++ data
             ++ skipn (Z.to_nat (off + len data)) mem)
  else Undefined.

(** [memset(mem, 0, n)] *)
Definition mem_zero (mem : list Z) (n : Z) : outcome (list Z) :=
  if 0 <=? n then mem_write mem 0 (repeat 0 (Z.to_nat n)) else Undefined.

(** A [uint32_t] in the byte order of a little-endian host. *)
Definition u32_bytes (x : Z) : list Z :=
  [x mod 256; (x / 256) mod 256; (x / 65536) mod 256; (x / 16777216) mod 256].

Definition bytes_u32 (bs : list Z) : Z :=
  match bs with
  | [b0; b1; b2; b3] => b0 + 256 * b1 + 65536 * b2 + 16777216 * b3
  | _ => 0
  end.

(** A [short] in the byte order of the host ([be]: big-endian). *)
Definition short_bytes (be : bool) (v : Z) : list Z :=
  let u := v mod 65536 in
  if be then [u / 256; u mod 256] else [u mod 256; u / 256].

Definition bytes_short (be : bool) (bs : list Z) : Z :=
  match bs with
  | [b0; b1] => i16 (if be then 256 * b0 + b1 else b0 + 256 * b1)
  | _ => 0
  end.

(** [SwapFloat] applied to consecutive floats: each group of four bytes
    is reversed. *)
Fixpoint swap_floats (bs : list Z) : list Z :=
  match bs with
  | b0 :: b1 :: b2 :: b3 :: rest => b3 :: b2 :: b1 :: b0 :: swap_floats rest
  | _ => []
  end.

(** The value of a [sample_t*] slot of [fPortBuffer]. *)
Inductive sample_ptr : Type :=
| NullPtr                       (* NULL *)
| MarkPtr                       (* -1 cast to a pointer: port connected on the other side *)
| BufPtr (mem : list Z).        (* a buffer, given by its bytes from the pointer on *)

(** The truth value of a pointer in a condition. *)
Definition is_set (p : sample_ptr) : bool :=
  match p with
  | NullPtr => false
  | _ => true
  end.

Definition ptr_read (p : sample_ptr) (off n : Z) : outcome (list Z) :=
  match p with
  | BufPtr mem => mem_read mem off n
  | _ => Undefined
  end.

Definition ptr_write (p : sample_ptr) (off : Z) (data : list Z) : outcome sample_ptr :=
  match p with
  | BufPtr mem => m <- mem_write mem off data ;; Ok (BufPtr m)
  | _ => Undefined
  end.

Definition ptr_zero (p : sample_ptr) (n : Z) : outcome sample_ptr :=
  match p with
  | BufPtr mem => m <- mem_zero mem n ;; Ok (BufPtr m)
  | _ => Undefined
  end.

(** Indexing an array. *)
Definition array_get {A : Type} (a : list A) (i : Z) : outcome A :=
  if i <? 0 then Undefined
  else match nth_error a (Z.to_nat i) with
       | Some x => Ok x
       | None => Undefined
       end.

Fixpoint update {A : Type} (a : list A) (i : nat) (x : A) : list A :=
  match a, i with
  | [], _ => []
  | _ :: rest, O => x :: rest
  | y :: rest, S i' => y :: update rest i' x
  end.

Definition array_set {A : Type} (a : list A) (i : Z) (x : A) : outcome (list A) :=
  if (0 <=? i) && (i <? len a)
  then Ok (update a (Z.to_nat i) x)
  else Undefined.

(** Signed [int] arithmetic: overflow is undefined. *)
Definition int_op (r : Z) : outcome Z :=
  if (INT_MIN <=? r) && (r <=? INT_MAX) then Ok r else Undefined.

(** ** Messages of [jack_error] *)

Inductive log_entry : Type :=
| PacketsMissing (last sub_cycle : Z)   (* "Packet(s) missing from... %d %d" *)
| IncorrectPort (port : Z).             (* "ActivePortsFromNetwork: incorrect port = %d" *)

(** ** Audio frame layout *)

(** [(int) x] for a [double] [x]: the value is truncated towards zero;
    the conversion of a NaN or an infinity, or of a value whose integral
    part is not an [int], is undefined. *)
Definition int_of_double (x : Float64.t) : outcome Z :=
  match x with
  | S754_zero _ => Ok 0
  | S754_finite s m e =>
      let a := if 0 <=? e then Zpos m * 2 ^ e else Zpos m / 2 ^ (- e) in
      int_op (if s then - a else a)
  | _ => Undefined
  end.

(** [(int)(log(float(num) / den) / log(2.))]: [num] is an [int] and [den]
    a [size_t], both converted to [float]; their quotient is a [float]
    and so is its logarithm; [log(2.)] is a [double], and the second
    division is done in [double] before the conversion to [int]. *)
Definition trunc_log2_quot (num den : Z) : outcome Z :=
  int_of_double
    (Float64.div
       (Float32.log (Float32.div (Float32.of_Z num) (Float32.of_Z den)))
       (Float64.log (Float64.of_Z 2))).

(** [(int) powf(2.f, e)] *)
Definition pow2_int (e : Z) : outcome Z :=
  if e <? 0 then Ok 0
  else if e <? 31 then Ok (2 ^ e)
  else Undefined.

(** The sub-period for a packet of [packet_size] bytes shared by ports
    taking [den] bytes per frame:
    [period = (int) powf(2.f, (int)(log(float(packet_size) / den) / log(2.)));
     (period > fPeriodSize) ? fPeriodSize : period]. *)
Definition sub_period (packet_size den period_size : Z) : outcome Z :=
  e <- trunc_log2_quot packet_size den ;;
  p <- pow2_int e ;;
  let period := u32 p in
  Ok (if period >? period_size then period_size else period).

Record JackPortList : Type := {
  fPeriodSize : Z;               (* jack_nframes_t *)
  fSubPeriodSize : Z;            (* jack_nframes_t *)
  fSubPeriodBytesSize : Z;       (* size_t *)
  fPortBuffer : list sample_ptr; (* sample_t*[fNPorts] *)
  fPacketSize : Z;               (* int *)
  fCycleSize : Z;                (* size_t *)
  fCycleDuration : Float32.t;    (* float *)
  fLastSubCycle : Z              (* int *)
}.

(** [fNPorts] is the length of the array [fPortBuffer], which is allocated
    with [fNPorts] slots and never resized. *)
Definition fNPorts (l : JackPortList) : Z := len (fPortBuffer l).

Definition set_fPortBuffer (l : JackPortList) (ports : list sample_ptr) : JackPortList :=
  {| fPeriodSize := fPeriodSize l;
     fSubPeriodSize := fSubPeriodSize l;
     fSubPeriodBytesSize := fSubPeriodBytesSize l;
     fPortBuffer := ports;
     fPacketSize := fPacketSize l;
     fCycleSize := fCycleSize l;
     fCycleDuration := fCycleDuration l;
     fLastSubCycle := fLastSubCycle l |}.

Definition set_fLastSubCycle (l : JackPortList) (s : Z) : JackPortList :=
  {| fPeriodSize := fPeriodSize l;
     fSubPeriodSize := fSubPeriodSize l;
     fSubPeriodBytesSize := fSubPeriodBytesSize l;
     fPortBuffer := fPortBuffer l;
     fPacketSize := fPacketSize l;
     fCycleSize := fCycleSize l;
     fCycleDuration := fCycleDuration l;
     fLastSubCycle := s |}.

Definition set_fSubPeriod (l : JackPortList) (size bytes : Z) : JackPortList :=
  {| fPeriodSize := fPeriodSize l;
     fSubPeriodSize := size;
     fSubPeriodBytesSize := bytes;
     fPortBuffer := fPortBuffer l;
     fPacketSize := fPacketSize l;
     fCycleSize := fCycleSize l;
     fCycleDuration := fCycleDuration l;
     fLastSubCycle := fLastSubCycle l |}.

(** [JackPortList::JackPortList(session_params_t* params, uint32_t nports)] *)
Definition JackPortList_new (params : session_params.t) (nports : Z)
  : outcome JackPortList :=
  let n_ports := i32 nports in
  let period_size := session_params.fPeriodSize params in
  let packet_size := i32 (u64 (session_params.fMtu params - HEADER_SIZE)) in
  let send := session_params.fSendAudioChannels params in
  let ret := session_params.fReturnAudioChannels params in
  sub <- (if (send =? 0) && (ret =? 0)
          then Ok period_size
          else sub_period packet_size (u64 (Z.max ret send * sizeof_sample_t))
                 period_size) ;;
  if n_ports <? 0 then Undefined
  else if sub =? 0 then Undefined
  else Ok {| fPeriodSize := period_size;
             fSubPeriodSize := sub;
             fSubPeriodBytesSize := u64 (sub * sizeof_sample_t);
             fPortBuffer := repeat NullPtr (Z.to_nat n_ports);
             fPacketSize := packet_size;
             fCycleSize := u32 (session_params.fMtu params * (period_size / sub));
             fCycleDuration :=
               Float32.div (Float32.of_Z sub)
                 (Float32.of_Z (session_params.fSampleRate params));
             fLastSubCycle := -1 |}.

(** [JackPortList::GetNumPackets] *)
Definition GetNumPackets (l : JackPortList) : outcome Z :=
  if fSubPeriodSize l =? 0 then Undefined
  else Ok (i32 (fPeriodSize l / fSubPeriodSize l)).

Definition SetBuffer (l : JackPortList) (index : Z) (buffer : sample_ptr)
  : outcome JackPortList :=
  ports <- array_set (fPortBuffer l) index buffer ;;
  Ok (set_fPortBuffer l ports).

Definition GetBuffer (l : JackPortList) (index : Z) : outcome sample_ptr :=
  array_get (fPortBuffer l) index.

Definition GetCycleSize (l : JackPortList) : Z := fCycleSize l.

Definition GetCycleDuration (l : JackPortList) : Float32.t := fCycleDuration l.

(** ** [JackPortList]: fixed layout

    [be] is the build configuration [__BIG_ENDIAN__]. *)

(** [JackPortList::RenderToJackPorts] *)
Definition RenderToJackPorts (be : bool) (l : JackPortList) : JackPortList :=
  if be then l
  else (* reset for next cycle *) set_fLastSubCycle l (-1).

(** The loop of [RenderFromNetwork] over the ports, from [port_index] on. *)
Fixpoint render_ports_from_network (be : bool) (sub_size bytes_size : Z)
    (net : list Z) (sub_cycle : Z) (ports : list sample_ptr) (port_index : Z)
  : outcome (list sample_ptr) :=
  match ports with
  | [] => Ok []
  | p :: rest =>
      p' <- (if be then
               if bytes_size / 4 =? 0 then Ok p
               else
                 data <- mem_read net (u64 (port_index * bytes_size))
                           (4 * (bytes_size / 4)) ;;
                 ptr_write p (4 * u32 (sub_cycle * sub_size)) (swap_floats data)
             else
               data <- mem_read net (u64 (port_index * bytes_size)) bytes_size ;;
               ptr_write p (4 * u32 (sub_cycle * sub_size)) data) ;;
      rest' <- render_ports_from_network be sub_size bytes_size net sub_cycle
                 rest (port_index + 1) ;;
      Ok (p' :: rest')
  end.

(** The comparison of the sub-cycle with the last one received:
    the status and the message of [jack_error]. *)
Definition check_sub_cycle (last sub_cycle : Z) : outcome (Z * list log_entry) :=
  next <- int_op (last + 1) ;;
  if sub_cycle =? next then Ok (0, [])
  else Ok (NET_PACKET_ERROR, [PacketsMissing last sub_cycle]).

(** [JackPortList::RenderFromNetwork] *)
Definition RenderFromNetwork (be : bool) (l : JackPortList) (net_buffer : list Z)
    (cycle sub_cycle copy_size port_num : Z)
  : outcome (JackPortList * Z * list log_entry) :=
  ports <- render_ports_from_network be (fSubPeriodSize l) (fSubPeriodBytesSize l)
             net_buffer sub_cycle (fPortBuffer l) 0 ;;
  '(res, log) <- check_sub_cycle (fLastSubCycle l) sub_cycle ;;
  Ok (set_fLastSubCycle (set_fPortBuffer l ports) sub_cycle, res, log).

(** The loop of [RenderToNetwork] over the ports, from [port_index] on. *)
Fixpoint render_ports_to_network (be : bool) (sub_size bytes_size : Z)
    (sub_cycle : Z) (ports : list sample_ptr) (port_index : Z) (net : list Z)
  : outcome (list Z) :=
  match ports with
  | [] => Ok net
  | p :: rest =>
      net' <- (if be then
                 if bytes_size / 4 =? 0 then Ok net
                 else
                   data <- ptr_read p (4 * u32 (sub_cycle * sub_size))
                             (4 * (bytes_size / 4)) ;;
                   mem_write net (u64 (port_index * bytes_size)) (swap_floats data)
               else
                 data <- ptr_read p (4 * u32 (sub_cycle * sub_size)) bytes_size ;;
                 mem_write net (u64 (port_index * bytes_size)) data) ;;
      render_ports_to_network be sub_size bytes_size sub_cycle rest
        (port_index + 1) net'
  end.

(** [JackPortList::RenderToNetwork]: the buffer written, [port_num] and
    the value returned. *)
Definition RenderToNetwork (be : bool) (l : JackPortList) (net_buffer : list Z)
    (sub_cycle : Z) : outcome (list Z * Z * Z) :=
  net <- render_ports_to_network be (fSubPeriodSize l) (fSubPeriodBytesSize l)
           sub_cycle (fPortBuffer l) 0 net_buffer ;;
  Ok (net, u32 (fNPorts l), i32 (u64 (fNPorts l * fSubPeriodBytesSize l))).

(** ** [JackOptimizedPortList]: only the active ports are sent *)

Module JackOptimizedPortList.

(** The number of ports with a buffer. *)
Fixpoint count_active (ports : list sample_ptr) : Z :=
  match ports with
  | [] => 0
  | p :: rest => (if is_set p then 1 else 0) + count_active rest
  end.

(** [JackOptimizedPortList::GetNumPackets]: the list with the sub-period
    it has set, and the number of packets. *)
Definition GetNumPackets (l : JackPortList) : outcome (JackPortList * Z) :=
  let active_ports := count_active (fPortBuffer l) in
  sub <- (if active_ports =? 0
          then Ok (fPeriodSize l)
          else sub_period (fPacketSize l)
                 (u64 (active_ports * sizeof_sample_t)) (fPeriodSize l)) ;;
  let l' := set_fSubPeriod l sub
              (u64 (sub * sizeof_sample_t + sizeof_uint32_t)) in
  if sub =? 0 then Undefined
  else Ok (l', i32 (fPeriodSize l / sub)).

(** Cleanup of all JACK ports at the beginning of the cycle. *)
Fixpoint cleanup_ports (period_bytes : Z) (ports : list sample_ptr)
  : outcome (list sample_ptr) :=
  match ports with
  | [] => Ok []
  | p :: rest =>
      p' <- (if is_set p then ptr_zero p period_bytes else Ok p) ;;
      rest' <- cleanup_ports period_bytes rest ;;
      Ok (p' :: rest')
  end.

(** The loop of [RenderFromNetwork] over the [n] remaining slots of the
    packet, from slot [port_index] on. *)
Fixpoint copy_active_ports (net : list Z)
    (sub_cycle sub_period_size sub_period_bytes_size : Z)
    (n : nat) (port_index : Z) (ports : list sample_ptr)
  : outcome (list sample_ptr) :=
  match n with
  | O => Ok ports
  | S n' =>
      let off := u32 (port_index * sub_period_bytes_size) in
      word <- mem_read net off 4 ;;
      let active_port := bytes_u32 word in
      slot <- array_get ports port_index ;;
      ports' <- (if is_set slot then
                   dst <- array_get ports active_port ;;
                   frame <- int_op (sub_cycle * sub_period_size) ;;
                   data <- mem_read net (off + 4)
                             (u64 (sub_period_bytes_size - sizeof_uint32_t)) ;;
                   dst' <- ptr_write dst (4 * frame) data ;;
                   array_set ports active_port dst'
                 else Ok ports) ;;
      copy_active_ports net sub_cycle sub_period_size sub_period_bytes_size
        n' (port_index + 1) ports'
  end.

(** [JackOptimizedPortList::RenderFromNetwork] (little-endian build) *)
Definition RenderFromNetwork (l : JackPortList) (net_buffer : list Z)
    (cycle sub_cycle copy_size port_num : Z)
  : outcome (JackPortList * Z * list log_entry) :=
  ports0 <- (if sub_cycle =? 0
             then cleanup_ports (u64 (fPeriodSize l * sizeof_sample_t))
                    (fPortBuffer l)
             else Ok (fPortBuffer l)) ;;
  if port_num >? 0 then
    sub <- (if port_num =? 0
            then Ok (fPeriodSize l)
            else sub_period (fPacketSize l) (u64 (port_num * sizeof_sample_t))
                   (fPeriodSize l)) ;;
    let sub_period_size := i32 sub in
    let sub_period_bytes_size :=
      i32 (u64 (u64 sub_period_size * sizeof_sample_t + sizeof_uint32_t)) in
    ports1 <- copy_active_ports net_buffer sub_cycle sub_period_size
                sub_period_bytes_size (Z.to_nat port_num) 0 ports0 ;;
    '(res, log) <- check_sub_cycle (fLastSubCycle l) sub_cycle ;;
    Ok (set_fLastSubCycle (set_fPortBuffer l ports1) sub_cycle, res, log)
  else Ok (set_fPortBuffer l ports0, 0, []).

(** The loop of [RenderToNetwork] over the ports, from [port_index] on. *)
Fixpoint copy_to_network (sub_size bytes_size sub_cycle : Z)
    (ports : list sample_ptr) (port_index : Z) (net : list Z) (port_num : Z)
  : outcome (list Z * Z) :=
  match ports with
  | [] => Ok (net, port_num)
  | p :: rest =>
      if is_set p then
        let off := u64 (port_num * bytes_size) in
        net1 <- mem_write net off (u32_bytes (u32 port_index)) ;;
        data <- ptr_read p (4 * u32 (sub_cycle * sub_size))
                  (u64 (bytes_size - sizeof_uint32_t)) ;;
        net2 <- mem_write net1 (off + 4) data ;;
        copy_to_network sub_size bytes_size sub_cycle rest (port_index + 1)
          net2 (u32 (port_num + 1))
      else
        copy_to_network sub_size bytes_size sub_cycle rest (port_index + 1)
          net port_num
  end.

(** [JackOptimizedPortList::RenderToNetwork] (little-endian build):
    the buffer written, [port_num] and the value returned. *)
Definition RenderToNetwork (l : JackPortList) (net_buffer : list Z)
    (sub_cycle : Z) : outcome (list Z * Z * Z) :=
  '(net, port_num) <- copy_to_network (fSubPeriodSize l) (fSubPeriodBytesSize l)
                        sub_cycle (fPortBuffer l) 0 net_buffer 0 ;;
  Ok (net, port_num, i32 (u64 (port_num * fSubPeriodBytesSize l))).

(** The loop of [ActivePortsToNetwork] over the ports, from [port_index]
    on; [addr] is the offset of [active_port_address] in the buffer. *)
Fixpoint write_active_ports (be : bool) (ports : list sample_ptr)
    (port_index : Z) (net : list Z) (addr port_num : Z)
  : outcome (list Z * Z) :=
  match ports with
  | [] => Ok (net, port_num)
  | p :: rest =>
      if is_set p then
        net' <- mem_write net addr (short_bytes be (i16 port_index)) ;;
        let port_num' := u32 (port_num + 1) in
        if port_num' <? 512
        then write_active_ports be rest (port_index + 1) net' (addr + 2) port_num'
        else AssertFailed
      else write_active_ports be rest (port_index + 1) net addr port_num
  end.

(** [JackOptimizedPortList::ActivePortsToNetwork]: the buffer written
    and [port_num]. *)
Definition ActivePortsToNetwork (be : bool) (l : JackPortList)
    (net_buffer : list Z) : outcome (list Z * Z) :=
  write_active_ports be (fPortBuffer l) 0 net_buffer 0 0.

(** The second loop of [ActivePortsFromNetwork], over the [n] remaining
    entries of the buffer. *)
Fixpoint read_active_ports (be : bool) (net : list Z) (n_ports : Z)
    (n : nat) (addr : Z) (ports : list sample_ptr)
  : outcome (list sample_ptr * list log_entry) :=
  match n with
  | O => Ok (ports, [])
  | S n' =>
      bs <- mem_read net addr 2 ;;
      let port := bytes_short be bs in
      '(ports1, log1) <-
         (if (0 <=? port) && (port <? n_ports)
          then ps <- array_set ports port MarkPtr ;; Ok (ps, [])
          else Ok (ports, [IncorrectPort port])) ;;
      '(ports2, log2) <- read_active_ports be net n_ports n' (addr + 2) ports1 ;;
      Ok (ports2, log1 ++ log2)
  end.

(** [JackOptimizedPortList::ActivePortsFromNetwork] *)
Definition ActivePortsFromNetwork (be : bool) (l : JackPortList)
    (net_buffer : list Z) (port_num : Z)
  : outcome (JackPortList * list log_entry) :=
  let cleared := repeat NullPtr (length (fPortBuffer l)) in
  '(ports, log) <- read_active_ports be net_buffer (fNPorts l)
                     (Z.to_nat port_num) 0 cleared ;;
  Ok (set_fPortBuffer l ports, log).

End JackOptimizedPortList.

(** ** Byte order of the wire records *)

(** The reversal of the four bytes of a [uint32_t]. *)
Definition bswap32 (x : Z) : Z := bytes_u32 (rev (u32_bytes x)).

(** [htonl] and [ntohl] of the C library: the identity on a big-endian
    host, the reversal of the bytes on a little-endian one. *)
Definition htonl (be : bool) (x : Z) : Z :=
  if be then u32 x else bswap32 (u32 x).

Definition ntohl (be : bool) (x : Z) : Z := htonl be x.

(** The conversion of the integer fields of the session parameters;
    [conv] is [htonl] or [ntohl] of the host. *)
Definition session_params_convert (conv : Z -> Z) (src : session_params.t)
  : session_params.t :=
  {| session_params.fPacketType := session_params.fPacketType src;
     session_params.fProtocolVersion := session_params.fProtocolVersion src;
     session_params.fPacketID := conv (session_params.fPacketID src);
     session_params.fName := session_params.fName src;
     session_params.fMasterNetName := session_params.fMasterNetName src;
     session_params.fSlaveNetName := session_params.fSlaveNetName src;
     session_params.fMtu := conv (session_params.fMtu src);
     session_params.fID := conv (session_params.fID src);
     session_params.fTransportSync := conv (session_params.fTransportSync src);
     session_params.fSendAudioChannels :=
       i32 (conv (session_params.fSendAudioChannels src));
     session_params.fReturnAudioChannels :=
       i32 (conv (session_params.fReturnAudioChannels src));
     session_params.fSendMidiChannels :=
       i32 (conv (session_params.fSendMidiChannels src));
     session_params.fReturnMidiChannels :=
       i32 (conv (session_params.fReturnMidiChannels src));
     session_params.fSampleRate := conv (session_params.fSampleRate src);
     session_params.fPeriodSize := conv (session_params.fPeriodSize src);
     session_params.fSampleEncoder := conv (session_params.fSampleEncoder src);
     session_params.fKBps := conv (session_params.fKBps src);
     session_params.fSlaveSyncMode := conv (session_params.fSlaveSyncMode src);
     session_params.fNetworkLatency := conv (session_params.fNetworkLatency src) |}.

(** Modelled from the spec: [SessionParamsHToN] and [SessionParamsNToH],
    which this header declares and JackNetTool.cpp defines.  Every
    multi-byte integer field is converted between host and network byte
    order; the character fields are fixed-width and are copied.  The
    result is the record written to [dst_params]. *)
Definition SessionParamsHToN (be : bool) (src_params : session_params.t)
  : session_params.t :=
  session_params_convert (htonl be) src_params.

Definition SessionParamsNToH (be : bool) (src_params : session_params.t)
  : session_params.t :=
  session_params_convert (ntohl be) src_params.

Definition packet_header_convert (conv : Z -> Z) (src : packet_header.t)
  : packet_header.t :=
  {| packet_header.fPacketType := packet_header.fPacketType src;
     packet_header.fDataType := packet_header.fDataType src;
     packet_header.fDataStream := packet_header.fDataStream src;
     packet_header.fID := conv (packet_header.fID src);
     packet_header.fNumPacket := conv (packet_header.fNumPacket src);
     packet_header.fPacketSize := conv (packet_header.fPacketSize src);
     packet_header.fActivePorts := conv (packet_header.fActivePorts src);
     packet_header.fCycle := conv (packet_header.fCycle src);
     packet_header.fSubCycle := conv (packet_header.fSubCycle src);
     packet_header.fIsLastPckt := conv (packet_header.fIsLastPckt src) |}.

(** Modelled from the spec: [PacketHeaderHToN] and [PacketHeaderNToH],
    which this header declares and JackNetTool.cpp defines, with the same
    rule as for the session parameters. *)
Definition PacketHeaderHToN (be : bool) (src_header : packet_header.t)
  : packet_header.t :=
  packet_header_convert (htonl be) src_header.

Definition PacketHeaderNToH (be : bool) (src_header : packet_header.t)
  : packet_header.t :=
  packet_header_convert (ntohl be) src_header.

(** The values of the integer types. *)
Definition is_u32 (x : Z) : Prop := 0 <= x < 2 ^ 32.
Definition is_i32 (x : Z) : Prop := - 2 ^ 31 <= x < 2 ^ 31.

(** A session parameter record whose integer fields hold values of their
    types. *)
Definition session_params_valid (p : session_params.t) : Prop :=
  is_u32 (session_params.fPacketID p) /\
  is_u32 (session_params.fMtu p) /\
  is_u32 (session_params.fID p) /\
  is_u32 (session_params.fTransportSync p) /\
  is_i32 (session_params.fSendAudioChannels p) /\
  is_i32 (session_params.fReturnAudioChannels p) /\
  is_i32 (session_params.fSendMidiChannels p) /\
  is_i32 (session_params.fReturnMidiChannels p) /\
  is_u32 (session_params.fSampleRate p) /\
  is_u32 (session_params.fPeriodSize p) /\
  is_u32 (session_params.fSampleEncoder p) /\
  is_u32 (session_params.fKBps p) /\
  is_u32 (session_params.fSlaveSyncMode p) /\
  is_u32 (session_params.fNetworkLatency p).

Definition packet_header_valid (h : packet_header.t) : Prop :=
  is_u32 (packet_header.fID h) /\
  is_u32 (packet_header.fNumPacket h) /\
  is_u32 (packet_header.fPacketSize h) /\
  is_u32 (packet_header.fActivePorts h) /\
  is_u32 (packet_header.fCycle h) /\
  is_u32 (packet_header.fSubCycle h) /\
  is_u32 (packet_header.fIsLastPckt h).

(** ** Sessions and runs used in the statements *)

(** Session parameters with the given MTU, audio channel counts, sample
    rate and period size; the other fields play no part in the layout. *)
Definition audio_session (mtu send ret rate period : Z) : session_params.t :=
  {| session_params.fPacketType := [112; 97; 114; 97; 109; 115; 0];
     session_params.fProtocolVersion := 4;
     session_params.fPacketID := 0;
     session_params.fName := [];
     session_params.fMasterNetName := [];
     session_params.fSlaveNetName := [];
     session_params.fMtu := mtu;
     session_params.fID := 0;
     session_params.fTransportSync := 0;
     session_params.fSendAudioChannels := send;
     session_params.fReturnAudioChannels := ret;
     session_params.fSendMidiChannels := 0;
     session_params.fReturnMidiChannels := 0;
     session_params.fSampleRate := rate;
     session_params.fPeriodSize := period;
     session_params.fSampleEncoder := 0;
     session_params.fKBps := 0;
     session_params.fSlaveSyncMode := 0;
     session_params.fNetworkLatency := 0 |}.

Definition is_pow2 (n : Z) : Prop := exists k, 0 <= k /\ n = 2 ^ k.

(** A receive call on a packet: the list after the call, the status and
    the messages. *)
Definition receive_call : Type :=
  JackPortList -> list Z -> Z -> outcome (JackPortList * Z * list log_entry).

(** Successive receive calls on the packets [(net_buffer, sub_cycle)]:
    the list after the last call and the status of each call. *)
Fixpoint feed (render : receive_call) (l : JackPortList)
    (packets : list (list Z * Z)) : outcome (JackPortList * list Z) :=
  match packets with
  | [] => Ok (l, [])
  | (net_buffer, sub_cycle) :: rest =>
      '(l1, res, _) <- render l net_buffer sub_cycle ;;
      '(l2, statuses) <- feed render l1 rest ;;
      Ok (l2, res :: statuses)
  end.

(** The values the scheduler paces the transmission with are the same
    in [l'] as in [l]. *)
Definition same_pacing (l l' : JackPortList) : Prop :=
  GetCycleSize l' = GetCycleSize l /\
  GetCycleDuration l' = GetCycleDuration l.

(** The status of each of successive receive calls with the sub-cycles
    [subs], as the comparison with the last sub-cycle gives it. *)
Fixpoint expected_statuses (last : Z) (subs : list Z) : list Z :=
  match subs with
  | [] => []
  | s :: rest =>
      (if s =? last + 1 then 0 else NET_PACKET_ERROR) :: expected_statuses s rest
  end.

(** A session with one audio channel each way, a period of 16 frames and
    an MTU of 52 bytes: 12 bytes of payload, hence sub-periods of 2 frames
    and 8 packets in a cycle. *)
Definition mono_session : session_params.t := audio_session 52 1 1 48000 16.

(** The list of that session with one port, whose buffer holds a period
    of 16 frames filled with the byte [fill]. *)
Definition mono_list (fill : Z) : JackPortList :=
  {| fPeriodSize := 16;
     fSubPeriodSize := 2;
     fSubPeriodBytesSize := 8;
     fPortBuffer := [BufPtr (repeat fill 64)];
     fPacketSize := 12;
     fCycleSize := 416;
     fCycleDuration := Float32.div (Float32.of_Z 2) (Float32.of_Z 48000);
     fLastSubCycle := -1 |}.

(** What a receive call that runs the comparison does to the status and
    to the last sub-cycle. *)
Definition detects (render : receive_call) : Prop :=
  forall l net s l' res log,
    render l net s = Ok (l', res, log) ->
    fLastSubCycle l' = s /\
    res = (if s =? fLastSubCycle l + 1 then 0 else NET_PACKET_ERROR).

(** ** [NetFloatAudioBuffer1]

    The members it inherits from [NetAudioBuffer]. *)
Module NetFloatAudioBuffer1.

Record t : Type := {
  fNPorts : Z;                   (* int *)
  fLastSubCycle : Z;             (* int *)
  fNetBuffer : list Z;           (* char* *)
  fPortBuffer : list sample_ptr  (* sample_t** *)
}.

(** [NetFloatAudioBuffer1::RenderToJackPorts] *)
Definition RenderToJackPorts (b : t) : t :=
  (* reset for next cycle *)
  {| fNPorts := fNPorts b;
     fLastSubCycle := -1;
     fNetBuffer := fNetBuffer b;
     fPortBuffer := fPortBuffer b |}.

End NetFloatAudioBuffer1.

(** ** The active ports on the wire *)

(** The indices, counted from [port_index], of the ports with a buffer. *)
Fixpoint active_indices (ports : list sample_ptr) (port_index : Z) : list Z :=
  match ports with
  | [] => []
  | p :: rest =>
      if is_set p then port_index :: active_indices rest (port_index + 1)
      else active_indices rest (port_index + 1)
  end.

(** The [n] entries of type [short] of a buffer from offset [addr] on. *)
Fixpoint read_shorts (be : bool) (net : list Z) (addr : Z) (n : nat) : list Z :=
  match n with
  | O => []
  | S n' =>
      bytes_short be (firstn 2 (skipn (Z.to_nat addr) net))
        :: read_shorts be net (addr + 2) n'
  end.

(** An entry that names a port of the list. *)
Definition port_in_range (n_ports port : Z) : bool :=
  (0 <=? port) && (port <? n_ports).

(** The slot of a port as the receiver of the active ports sets it. *)
Definition marked (active : bool) : sample_ptr :=
  if active then MarkPtr else NullPtr.

(** ** A sparse set of active ports

    Eight channels of which 1, 5 and 7 are active, a period of 4 frames
    in one packet. *)

Definition sparse_session : session_params.t := audio_session 1500 8 8 48000 4.

(** The four samples of channel [c]: sample [k] is the bytes [c; k; 0; 0]. *)
Definition channel_data (c : Z) : list Z :=
  concat (map (fun k => [c; k; 0; 0]) [1; 2; 3; 4]).

(** The sender, with its ports 1, 5 and 7 set and the cycle sized. *)
Definition sparse_sender : outcome JackPortList :=
  l <- JackPortList_new sparse_session 8 ;;
  l <- SetBuffer l 1 (BufPtr (channel_data 1)) ;;
  l <- SetBuffer l 5 (BufPtr (channel_data 5)) ;;
  l <- SetBuffer l 7 (BufPtr (channel_data 7)) ;;
  '(l, _) <- JackOptimizedPortList.GetNumPackets l ;;
  Ok l.

(** A fresh receiver with buffers set for the ports 1, 5 and 7. *)
Definition sparse_receiver : outcome JackPortList :=
  l <- JackPortList_new sparse_session 8 ;;
  l <- SetBuffer l 1 (BufPtr (repeat 170 16)) ;;
  l <- SetBuffer l 5 (BufPtr (repeat 170 16)) ;;
  SetBuffer l 7 (BufPtr (repeat 170 16)).

(** The packet of sub-cycle 0 rendered by the sender into a buffer of the
    size of the payload, then rendered by the receiver. *)
Definition sparse_round_trip : outcome (JackPortList * Z * list log_entry) :=
  s <- sparse_sender ;;
  '(net, port_num, size) <-
     JackOptimizedPortList.RenderToNetwork s (repeat 0 1460) 0 ;;
  r <- sparse_receiver ;;
  JackOptimizedPortList.RenderFromNetwork r net 0 0 size port_num.

(** The effect of the entries read by [ActivePortsFromNetwork] on the
    slots: an entry in range marks its port, another one is reported. *)
Fixpoint mark_entries (n_ports : Z) (entries : list Z) (ports : list sample_ptr)
  : list sample_ptr * list log_entry :=
  match entries with
  | [] => (ports, [])
  | e :: rest =>
      if port_in_range n_ports e
      then mark_entries n_ports rest (update ports (Z.to_nat e) MarkPtr)
      else let '(ps, log) := mark_entries n_ports rest ports in
           (ps, IncorrectPort e :: log)
  end.

(** A list of [n] ports that all have a buffer of one period. *)
Definition all_active (n : nat) : JackPortList :=
  set_fPortBuffer (mono_list 0) (repeat (BufPtr (repeat 0 64)) n).

(** A list of [n] ports of which the last one only has a buffer. *)
Definition last_active (n : Z) : JackPortList :=
  set_fPortBuffer (mono_list 0)
    (repeat NullPtr (Z.to_nat (n - 1)) ++ [BufPtr (repeat 0 64)]).

(** ** 64-bit byte order

    The macros [htonll] and [ntohll]:
    [((((uint64_t)htonl(x)) << 32) + htonl(x >> 32))] unless
    [__BIG_ENDIAN__] is defined, [(x)] otherwise; [x] is a [uint64_t]. *)
Definition htonll (be : bool) (x : Z) : Z :=
  if be then x
  else u64 (Z.shiftl (u64 (htonl false x)) 32 + htonl false (Z.shiftr x 32)).

Definition ntohll (be : bool) (x : Z) : Z :=
  if be then x
  else u64 (Z.shiftl (u64 (ntohl false x)) 32 + ntohl false (Z.shiftr x 32)).

(** ** [JackPortList::Copy] *)

(** The loop of [Copy] over the ports, from [port_index] on: a period of
    each port is copied to the buffer of the same index. *)
Fixpoint copy_ports (period_bytes : Z) (ports : list sample_ptr)
    (port_index : Z) (buffers : list sample_ptr) : outcome (list sample_ptr) :=
  match ports with
  | [] => Ok buffers
  | p :: rest =>
      dst <- array_get buffers port_index ;;
      data <- ptr_read p 0 period_bytes ;;
      dst' <- ptr_write dst 0 data ;;
      buffers' <- array_set buffers port_index dst' ;;
      copy_ports period_bytes rest (port_index + 1) buffers'
  end.

(** [JackPortList::Copy]: the buffers after the copy. *)
Definition Copy (l : JackPortList) (buffers : list sample_ptr)
  : outcome (list sample_ptr) :=
  copy_ports (u64 (fPeriodSize l * sizeof_sample_t)) (fPortBuffer l) 0 buffers.

(** ** Cycles received in order *)

(** The packets of a cycle in order: the buffers [nets] with the
    sub-cycles [k], [k + 1], ... *)
Fixpoint in_order_from (k : Z) (nets : list (list Z)) : list (list Z * Z) :=
  match nets with
  | [] => []
  | net :: rest => (net, k) :: in_order_from (k + 1) rest
  end.

(** ** The data of a sub-cycle *)

(** The bytes of a port buffer that hold the frames of a sub-cycle: [n]
    bytes from the frame [u32 (sub_cycle * sub_size)] on. *)
Definition sub_cycle_bytes (sub_size n sub_cycle : Z) (mem : list Z) : list Z :=
  firstn (Z.to_nat n) (skipn (Z.to_nat (4 * u32 (sub_cycle * sub_size))) mem).

(** A region of memory with [data] in place of the bytes from [off] on. *)
Definition with_bytes (off : Z) (data mem : list Z) : list Z :=
  firstn (Z.to_nat off) mem ++ data ++ skipn (Z.to_nat (off + len data)) mem.

(** The floats of a buffer as a build puts them on the wire, and takes
    them from it: swapped by a big-endian build, as they are otherwise. *)
Definition wire_order (be : bool) (data : list Z) : list Z :=
  if be then swap_floats data else data.

(** A slot after the cleanup of [n] bytes at the beginning of a cycle:
    a buffer starts with [n] zero bytes. *)
Definition zeroed (n : Z) (p : sample_ptr) : sample_ptr :=
  match p with
  | BufPtr mem => BufPtr (with_bytes 0 (repeat 0 (Z.to_nat n)) mem)
  | _ => p
  end.

(** A slot that is [NULL] or a buffer of [n] bytes at least. *)
Definition null_or_buffer (n : Z) (p : sample_ptr) : Prop :=
  p = NullPtr \/ exists mem, p = BufPtr mem /\ n <= len mem.

(** ** The packet of the optimized layout *)

(** The slots of a packet: for each port with a buffer, from [port_index]
    on, the index of the port as [uint32_t] and then [n] bytes of the
    frames of the sub-cycle. *)
Fixpoint packet_slots (sub_size n sub_cycle : Z) (ports : list sample_ptr)
    (port_index : Z) : list (list Z) :=
  match ports with
  | [] => []
  | BufPtr mem :: rest =>
      (u32_bytes (u32 port_index) ++ sub_cycle_bytes sub_size n sub_cycle mem)
        :: packet_slots sub_size n sub_cycle rest (port_index + 1)
  | _ :: rest => packet_slots sub_size n sub_cycle rest (port_index + 1)
  end.

(** Slots that name the ports [k], [k + 1], ... and carry [chunks]. *)
Fixpoint numbered_slots (k : Z) (chunks : list (list Z)) : list (list Z) :=
  match chunks with
  | [] => []
  | c :: rest => (u32_bytes (u32 k) ++ c) :: numbered_slots (k + 1) rest
  end.

(** * Properties *)

(** ** Integer conversions *)

Section Conversions.

Lemma u32_id (x : Z) : 0 <= x < 2 ^ 32 -> u32 x = x.
Proof. intros H. unfold u32. apply Z.mod_small. exact H. Qed.

Lemma u64_id (x : Z) : 0 <= x < 2 ^ 64 -> u64 x = x.
Proof. intros H. unfold u64. apply Z.mod_small. exact H. Qed.

Lemma i32_id (x : Z) : - 2 ^ 31 <= x < 2 ^ 31 -> i32 x = x.
Proof. intros H. unfold i32. rewrite Z.mod_small; lia. Qed.

Lemma i16_id (x : Z) : - 2 ^ 15 <= x < 2 ^ 15 -> i16 x = x.
Proof. intros H. unfold i16. rewrite Z.mod_small; lia. Qed.

Lemma u32_range (x : Z) : 0 <= u32 x < 2 ^ 32.
Proof. unfold u32. apply Z.mod_pos_bound. lia. Qed.

Lemma i32_range (x : Z) : - 2 ^ 31 <= i32 x < 2 ^ 31.
Proof.
  unfold i32. pose proof (Z.mod_pos_bound (x + 2 ^ 31) (2 ^ 32)). lia.
Qed.

(** Storing an [int32_t] through a [uint32_t] and back. *)
Lemma i32_u32 (x : Z) : - 2 ^ 31 <= x < 2 ^ 31 -> i32 (u32 x) = x.
Proof.
  intros H. unfold i32, u32.
  destruct (Z_lt_le_dec x 0) as [Hn | Hp].
  - replace (x mod 2 ^ 32) with (x + 2 ^ 32).
    + replace (x + 2 ^ 32 + 2 ^ 31) with (x + 2 ^ 31 + 1 * 2 ^ 32) by lia.
      rewrite Z.mod_add by lia. rewrite Z.mod_small; lia.
    + apply Z.mod_unique with (q := -1); lia.
  - rewrite (Z.mod_small x) by lia. rewrite Z.mod_small; lia.
Qed.

Lemma u32_i32 (x : Z) : 0 <= x < 2 ^ 32 -> u32 (i32 x) = x.
Proof.
  intros H. unfold i32, u32.
  destruct (Z_lt_le_dec x (2 ^ 31)) as [Hs | Hb].
  - rewrite (Z.mod_small (x + 2 ^ 31)) by lia.
    replace (x + 2 ^ 31 - 2 ^ 31) with x by lia. apply Z.mod_small; lia.
  - replace ((x + 2 ^ 31) mod 2 ^ 32) with (x - 2 ^ 31).
    + symmetry. apply Z.mod_unique with (q := -1); lia.
    + apply Z.mod_unique with (q := 1); lia.
Qed.

End Conversions.

(** ** Rounding to a floating-point format *)

Section RoundingFacts.

Lemma digits2_pos_bounds (p : positive) :
  2 ^ (Zpos (digits2_pos p) - 1) <= Zpos p < 2 ^ Zpos (digits2_pos p).
Proof.
  induction p as [p IH | p IH |]; cbn [digits2_pos].
  - rewrite Pos2Z.inj_succ.
    replace (Z.succ (Zpos (digits2_pos p)) - 1)
      with (Z.succ (Zpos (digits2_pos p) - 1)) by lia.
    rewrite !Z.pow_succ_r by lia. lia.
  - rewrite Pos2Z.inj_succ.
    replace (Z.succ (Zpos (digits2_pos p)) - 1)
      with (Z.succ (Zpos (digits2_pos p) - 1)) by lia.
    rewrite !Z.pow_succ_r by lia. lia.
  - cbn. lia.
Qed.

Lemma Zdigits2_bounds (x : Z) :
  0 < x -> 1 <= Zdigits2 x /\ 2 ^ (Zdigits2 x - 1) <= x < 2 ^ Zdigits2 x.
Proof.
  destruct x as [| p | p]; try lia. intros _. cbn [Zdigits2].
  split; [lia | apply digits2_pos_bounds].
Qed.

Lemma Zdigits2_unique (x d : Z) :
  2 ^ (d - 1) <= x < 2 ^ d -> 1 <= d -> Zdigits2 x = d.
Proof.
  intros H Hd.
  assert (Hx : 0 < x).
  { assert (0 < 2 ^ (d - 1)) by (apply Z.pow_pos_nonneg; lia). lia. }
  destruct (Zdigits2_bounds x Hx) as [H1 H2].
  set (d' := Zdigits2 x) in *.
  destruct (Z.lt_trichotomy d' d) as [Hlt | [Heq | Hgt]]; [| exact Heq |].
  - assert (2 ^ d' <= 2 ^ (d - 1)) by (apply Z.pow_le_mono_r; lia). lia.
  - assert (2 ^ d <= 2 ^ (d' - 1)) by (apply Z.pow_le_mono_r; lia). lia.
Qed.

Lemma iter_pos_swap {A : Type} (f : A -> A) (p : positive) (x : A) :
  SpecFloat.iter_pos f p (f x) = f (SpecFloat.iter_pos f p x).
Proof.
  revert x. induction p as [p IH | p IH |]; intros x; cbn [SpecFloat.iter_pos].
  - rewrite !IH. reflexivity.
  - rewrite !IH. reflexivity.
  - reflexivity.
Qed.

Lemma iter_pos_nat {A : Type} (f : A -> A) (p : positive) (x : A) :
  SpecFloat.iter_pos f p x = Nat.iter (Pos.to_nat p) f x.
Proof.
  transitivity (Pos.iter f x p); [| apply Pos2Nat.inj_iter].
  revert x. induction p as [p IH | p IH |]; intros x;
    cbn [SpecFloat.iter_pos Pos.iter].
  - rewrite !iter_pos_swap, !IH. reflexivity.
  - rewrite !IH. reflexivity.
  - reflexivity.
Qed.

Lemma shr_1_m (r : shr_record) :
  0 <= shr_m r -> shr_m (shr_1 r) = shr_m r / 2.
Proof.
  destruct r as [m r s]. cbn [shr_m shr_1]. intros H.
  destruct m as [| [p | p |] | p]; cbn [shr_m]; try lia.
  - reflexivity.
  - apply Z.div_unique with (r := 1); lia.
  - apply Z.div_unique with (r := 0); lia.
  - reflexivity.
Qed.

Lemma shr_iter_m (n : nat) (r : shr_record) :
  0 <= shr_m r ->
  shr_m (Nat.iter n shr_1 r) = shr_m r / 2 ^ Z.of_nat n.
Proof.
  intros H. induction n as [| n IH].
  - cbn. rewrite Z.div_1_r. reflexivity.
  - rewrite Nat.iter_succ, shr_1_m.
    + rewrite IH, Nat2Z.inj_succ, Z.pow_succ_r by lia.
      rewrite Z.div_div by lia. f_equal. lia.
    + rewrite IH. apply Z.div_pos; [exact H |].
      apply Z.pow_pos_nonneg; lia.
Qed.

Lemma shr_record_of_loc_m (m : Z) (l : location) :
  shr_m (shr_record_of_loc m l) = m.
Proof. destruct l as [| []]; reflexivity. Qed.

Lemma loc_of_shr_record_of_loc (m : Z) (l : location) :
  loc_of_shr_record (shr_record_of_loc m l) = l.
Proof. destruct l as [| []]; reflexivity. Qed.

(** The mantissa after [shr] by [n]. *)
Lemma shr_m_spec (m : Z) (l : location) (e n : Z) :
  0 <= m ->
  shr_m (fst (shr (shr_record_of_loc m l) e n)) = m / 2 ^ Z.max 0 n /\
  snd (shr (shr_record_of_loc m l) e n) = e + Z.max 0 n.
Proof.
  intros H. unfold shr. destruct n as [| p | p]; cbn [fst snd].
  - rewrite shr_record_of_loc_m. cbn. rewrite Z.div_1_r. split; [reflexivity | lia].
  - rewrite iter_pos_nat, shr_iter_m by (rewrite shr_record_of_loc_m; exact H).
    rewrite shr_record_of_loc_m, positive_nat_Z.
    replace (Z.max 0 (Z.pos p)) with (Z.pos p) by lia. split; reflexivity.
  - rewrite shr_record_of_loc_m. cbn. rewrite Z.div_1_r. split; [reflexivity | lia].
Qed.

Lemma round_nearest_even_cases (m : Z) (l : location) :
  round_nearest_even m l = m \/ round_nearest_even m l = m + 1.
Proof.
  destruct l as [| []]; cbn [round_nearest_even]; auto.
  destruct (Z.even m); auto.
Qed.

Lemma shr_1_spec (m : Z) (r s : bool) :
  0 <= m ->
  shr_1 {| shr_m := m; shr_r := r; shr_s := s |}
  = {| shr_m := m / 2; shr_r := Z.odd m; shr_s := r || s |}.
Proof.
  intros H. cbn [shr_1].
  destruct m as [| [p | p |] | p]; try lia; cbn [Z.odd]; f_equal.
  - apply Z.div_unique with (r := 1); lia.
  - apply Z.div_unique with (r := 0); lia.
Qed.

Lemma mod_pow2_succ (x k : Z) :
  0 <= k ->
  x mod 2 ^ (k + 1) = x mod 2 ^ k + 2 ^ k * (if Z.odd (x / 2 ^ k) then 1 else 0).
Proof.
  intros Hk. rewrite Z.pow_add_r by lia. change (2 ^ 1) with 2.
  assert (Hp : 0 < 2 ^ k) by (apply Z.pow_pos_nonneg; lia).
  rewrite Z.rem_mul_r by lia. rewrite Zmod_odd. reflexivity.
Qed.

(** The digits cut by a shift of an exact number: the last one and
    whether there is another one before it. *)
Lemma shr_iter_exact (k : nat) (x : Z) :
  0 <= x ->
  Nat.iter (S k) shr_1 {| shr_m := x; shr_r := false; shr_s := false |}
  = {| shr_m := x / 2 ^ (Z.of_nat k + 1);
       shr_r := Z.odd (x / 2 ^ Z.of_nat k);
       shr_s := negb (x mod 2 ^ Z.of_nat k =? 0) |}.
Proof.
  intros Hx. induction k as [| k IH].
  - rewrite Nat.iter_succ. cbn [Nat.iter nat_rect].
    rewrite shr_1_spec by exact Hx. cbn [Z.of_nat Z.add].
    change (2 ^ 1) with 2. change (2 ^ 0) with 1.
    rewrite Z.div_1_r, Z.mod_1_r. reflexivity.
  - rewrite Nat.iter_succ, IH.
    assert (Hp : 0 < 2 ^ (Z.of_nat k + 1))
      by (apply Z.pow_pos_nonneg; lia).
    rewrite shr_1_spec by (apply Z.div_pos; lia).
    rewrite Nat2Z.inj_succ. unfold Z.succ.
    f_equal.
    + rewrite Z.div_div by lia. f_equal.
      rewrite (Z.pow_add_r 2 (Z.of_nat k + 1) 1) by lia. reflexivity.
    + rewrite (mod_pow2_succ x (Z.of_nat k)) by lia.
      assert (Hk : 0 < 2 ^ Z.of_nat k) by (apply Z.pow_pos_nonneg; lia).
      pose proof (Z.mod_pos_bound x (2 ^ Z.of_nat k) Hk) as Hm.
      destruct (Z.odd (x / 2 ^ Z.of_nat k)); cbn [orb].
      * symmetry. apply negb_true_iff, Z.eqb_neq. lia.
      * rewrite Z.mul_0_r, Z.add_0_r. reflexivity.
Qed.

(** After the shift of an exact number the rounding of the mantissa is
    the rounding to nearest even of the number. *)
Lemma shr_iter_round (k : nat) (x : Z) :
  0 <= x ->
  let r := Nat.iter (S k) shr_1
             {| shr_m := x; shr_r := false; shr_s := false |} in
  round_nearest_even (shr_m r) (loc_of_shr_record r)
  = rne x (Z.of_nat k + 1).
Proof.
  intros Hx. cbv zeta. rewrite shr_iter_exact by exact Hx.
  cbn [shr_m loc_of_shr_record]. unfold rne.
  rewrite (mod_pow2_succ x (Z.of_nat k)) by lia.
  rewrite (Z.pow_add_r 2 (Z.of_nat k) 1) by lia. change (2 ^ 1) with 2.
  assert (Hk : 0 < 2 ^ Z.of_nat k) by (apply Z.pow_pos_nonneg; lia).
  pose proof (Z.mod_pos_bound x (2 ^ Z.of_nat k) Hk) as Hm.
  set (p := 2 ^ Z.of_nat k) in *. set (lo := x mod p) in *.
  destruct (Z.odd (x / p)); destruct (lo =? 0) eqn:Hlo; cbn [negb].
  - apply Z.eqb_eq in Hlo.
    replace (2 * (lo + p * 1) ?= p * 2) with Eq
      by (symmetry; apply Z.compare_eq_iff; lia).
    reflexivity.
  - apply Z.eqb_neq in Hlo.
    replace (2 * (lo + p * 1) ?= p * 2) with Gt
      by (symmetry; apply Z.compare_gt_iff; lia).
    reflexivity.
  - apply Z.eqb_eq in Hlo.
    replace (2 * (lo + p * 0) ?= p * 2) with Lt
      by (symmetry; apply Z.compare_lt_iff; lia).
    reflexivity.
  - apply Z.eqb_neq in Hlo.
    replace (2 * (lo + p * 0) ?= p * 2) with Lt
      by (symmetry; apply Z.compare_lt_iff; lia).
    reflexivity.
Qed.

Lemma rne_0 (x : Z) : rne x 0 = x.
Proof.
  unfold rne. change (2 ^ 0) with 1. rewrite Z.mod_1_r, Z.div_1_r.
  reflexivity.
Qed.

Lemma rne_mono (x y n : Z) : 0 <= n -> x <= y -> rne x n <= rne y n.
Proof.
  intros Hn Hxy.
  assert (Hp : 0 < 2 ^ n) by (apply Z.pow_pos_nonneg; lia).
  pose proof (Z.div_mod x (2 ^ n) ltac:(lia)) as Hx.
  pose proof (Z.div_mod y (2 ^ n) ltac:(lia)) as Hy.
  pose proof (Z.mod_pos_bound x (2 ^ n) Hp) as Hxm.
  pose proof (Z.mod_pos_bound y (2 ^ n) Hp) as Hym.
  pose proof (Z.div_le_mono x y (2 ^ n) Hp Hxy) as Hq.
  unfold rne.
  set (qx := x / 2 ^ n) in *. set (qy := y / 2 ^ n) in *.
  set (rx := x mod 2 ^ n) in *. set (ry := y mod 2 ^ n) in *.
  set (p := 2 ^ n) in *.
  destruct (Z.eq_dec qx qy) as [Heq | Hne].
  - rewrite <- Heq in *.
    assert (Hr : rx <= ry) by nia.
    destruct (Z.compare_spec (2 * rx) p) as [Hcx | Hcx | Hcx];
      destruct (Z.compare_spec (2 * ry) p) as [Hcy | Hcy | Hcy];
      destruct (Z.even qx); lia.
  - assert (qx + 1 <= qy) by lia.
    destruct (2 * rx ?= p); destruct (2 * ry ?= p);
      destruct (Z.even qx); destruct (Z.even qy); lia.
Qed.

End RoundingFacts.

Section BinaryRound.

Variables prec emax : Z.
Hypothesis Hprec : 1 < prec.

Lemma shr_nonpos (r : shr_record) (e n : Z) : n <= 0 -> shr r e n = (r, e).
Proof. destruct n; try reflexivity. lia. Qed.

Lemma shr_pos (m : Z) (l : location) (e n : Z) :
  0 <= m -> 0 < n ->
  exists r, shr (shr_record_of_loc m l) e n = (r, e + n) /\
            shr_m r = m / 2 ^ n /\
            (l = loc_Exact ->
             round_nearest_even (shr_m r) (loc_of_shr_record r) = rne m n).
Proof.
  intros Hm Hn. destruct n as [| p | p]; try lia.
  eexists. split; [reflexivity |]. split.
  - rewrite iter_pos_nat, shr_iter_m
      by (rewrite shr_record_of_loc_m; exact Hm).
    rewrite shr_record_of_loc_m, positive_nat_Z. reflexivity.
  - intros ->. rewrite iter_pos_nat. cbn [shr_record_of_loc].
    destruct (Pos2Nat.is_succ p) as [k Hk].
    rewrite Hk. rewrite shr_iter_round by exact Hm.
    f_equal. rewrite <- (positive_nat_Z p), Hk. lia.
Qed.

(** Rounding an integer with [d >= 1] digits in the range of the normal
    numbers: the result is finite, and its value is the mantissa cut to
    [prec] digits, or that plus one unit in the last place. *)
Lemma binary_round_aux_finite (sx : bool) (mx ex : Z) (lx : location) :
  0 < mx ->
  emin prec emax <= ex + Zdigits2 mx - prec ->
  ex + Z.max 0 (Zdigits2 mx - prec) < emax - prec ->
  exists (m : positive) (e : Z),
    binary_round_aux prec emax sx mx ex lx = S754_finite sx m e /\
    Zpos m < 2 ^ prec /\
    ex + Z.max 0 (Zdigits2 mx - prec) <= e /\
    (Zpos m * 2 ^ (e - (ex + Z.max 0 (Zdigits2 mx - prec)))
       = mx / 2 ^ Z.max 0 (Zdigits2 mx - prec) \/
     Zpos m * 2 ^ (e - (ex + Z.max 0 (Zdigits2 mx - prec)))
       = mx / 2 ^ Z.max 0 (Zdigits2 mx - prec) + 1) /\
    (lx = loc_Exact -> Zdigits2 mx <= prec -> Zpos m = mx /\ e = ex) /\
    (lx = loc_Exact ->
     Zpos m * 2 ^ (e - (ex + Z.max 0 (Zdigits2 mx - prec)))
     = rne mx (Z.max 0 (Zdigits2 mx - prec))).
Proof.
  intros Hmx Hnorm Hmax.
  destruct (Zdigits2_bounds mx Hmx) as [Hd1 Hd].
  set (d := Zdigits2 mx) in *. set (n := Z.max 0 (d - prec)) in *.
  assert (Hfexp : fexp prec emax (d + ex) - ex = d - prec).
  { unfold fexp. lia. }
  (* first shift *)
  assert (H1 : exists mrs',
             shr_fexp prec emax mx ex lx = (mrs', ex + n) /\
             shr_m mrs' = mx / 2 ^ n /\
             (d <= prec -> mrs' = shr_record_of_loc mx lx) /\
             (lx = loc_Exact ->
              round_nearest_even (shr_m mrs') (loc_of_shr_record mrs')
              = rne mx n)).
  { unfold shr_fexp. fold d. rewrite Hfexp.
    destruct (Z_le_gt_dec (d - prec) 0) as [Hle | Hgt].
    - rewrite shr_nonpos by exact Hle. eexists.
      replace n with 0 by lia. rewrite Z.add_0_r.
      split; [reflexivity |]. rewrite shr_record_of_loc_m.
      change (2 ^ 0) with 1. rewrite Z.div_1_r.
      split; [reflexivity |]. split; [reflexivity |].
      intros ->. rewrite rne_0. reflexivity.
    - destruct (shr_pos mx lx ex (d - prec)) as [r [Hr [Hm Hrne]]]; try lia.
      exists r. replace n with (d - prec) by lia.
      split; [exact Hr |]. split; [exact Hm |]. split; [lia | exact Hrne]. }
  destruct H1 as [mrs' [E1 [Hm1 [Hsame Hrne]]]].
  unfold binary_round_aux. rewrite E1.
  set (m1 := mx / 2 ^ n) in *.
  set (dm := d - n).
  assert (Hn : 0 <= n <= d - 1) by lia.
  assert (Hpn : 0 < 2 ^ n) by (apply Z.pow_pos_nonneg; lia).
  assert (Hm1b : 2 ^ (dm - 1) <= m1 < 2 ^ dm).
  { unfold m1, dm. split.
    - apply Z.div_le_lower_bound; [exact Hpn |].
      rewrite <- Z.pow_add_r by lia.
      replace (n + (d - n - 1)) with (d - 1) by lia. lia.
    - apply Z.div_lt_upper_bound; [exact Hpn |].
      rewrite <- Z.pow_add_r by lia.
      replace (n + (d - n)) with d by lia. lia. }
  assert (Hdm : 1 <= dm <= prec) by (unfold dm; lia).
  assert (Hpdm : 0 < 2 ^ (dm - 1)) by (apply Z.pow_pos_nonneg; lia).
  set (m2 := round_nearest_even (shr_m mrs') (loc_of_shr_record mrs')).
  assert (Hm2 : m2 = m1 \/ m2 = m1 + 1).
  { unfold m2. rewrite Hm1. apply round_nearest_even_cases. }
  assert (Hm2x : lx = loc_Exact -> d <= prec -> m2 = mx).
  { intros Hl Hdp. unfold m2. rewrite (Hsame Hdp), Hl. reflexivity. }
  assert (Hm2r : lx = loc_Exact -> m2 = rne mx n) by exact Hrne.
  assert (Hm2b : 2 ^ (dm - 1) <= m2 <= 2 ^ dm) by lia.
  (* second shift *)
  destruct (Z_lt_le_dec m2 (2 ^ dm)) as [Hlt | Hge].
  - assert (Hd2 : Zdigits2 m2 = dm) by (apply Zdigits2_unique; lia).
    unfold shr_fexp. rewrite Hd2.
    rewrite shr_nonpos by (unfold fexp, dm; lia).
    rewrite shr_record_of_loc_m.
    destruct m2 as [| p2 | p2] eqn:Ep; try lia.
    replace (ex + n <=? emax - prec) with true
      by (symmetry; apply Z.leb_le; lia).
    exists p2, (ex + n). split; [reflexivity |].
    split; [assert (2 ^ dm <= 2 ^ prec) by (apply Z.pow_le_mono_r; lia); lia |].
    split; [lia |].
    rewrite Z.sub_diag, Z.mul_1_r. split; [exact Hm2 |].
    split; [| exact Hm2r].
    intros Hl Hdp. split; [apply Hm2x; assumption | lia].
  - assert (Hm2e : m2 = 2 ^ dm) by lia.
    assert (Hd2 : Zdigits2 m2 = dm + 1).
    { apply Zdigits2_unique; [| lia].
      replace (dm + 1 - 1) with dm by lia. rewrite Hm2e.
      split; [lia |]. apply Z.pow_lt_mono_r; lia. }
    unfold shr_fexp. rewrite Hd2.
    destruct (Z_lt_le_dec dm prec) as [Hdlt | Hdge].
    + rewrite shr_nonpos by (unfold fexp, dm in *; lia).
      rewrite shr_record_of_loc_m.
      destruct m2 as [| p2 | p2] eqn:Ep; try lia.
      replace (ex + n <=? emax - prec) with true
        by (symmetry; apply Z.leb_le; lia).
      exists p2, (ex + n). split; [reflexivity |].
      split; [assert (2 ^ dm < 2 ^ prec) by (apply Z.pow_lt_mono_r; lia); lia |].
      split; [lia |].
      rewrite Z.sub_diag, Z.mul_1_r. split; [exact Hm2 |].
      split; [| exact Hm2r].
      intros Hl Hdp. split; [apply Hm2x; assumption | lia].
    + assert (Hsh : fexp prec emax (dm + 1 + (ex + n)) - (ex + n) = 1)
        by (unfold fexp, dm in *; lia).
      rewrite Hsh.
      destruct (shr_pos m2 loc_Exact (ex + n) 1) as [r [Hr [Hmr _]]]; try lia.
      rewrite Hr. rewrite Hmr.
      assert (Hhalf : m2 / 2 ^ 1 = 2 ^ (dm - 1)).
      { rewrite Hm2e. replace dm with (dm - 1 + 1) at 1 by lia.
        rewrite Z.pow_add_r by lia. apply Z.div_mul. cbn. lia. }
      rewrite Hhalf.
      assert (Hdbl : 2 ^ dm = 2 * 2 ^ (dm - 1)).
      { replace dm with (dm - 1 + 1) at 1 by lia.
        rewrite Z.pow_add_r by lia. change (2 ^ 1) with 2. lia. }
      destruct (2 ^ (dm - 1)) as [| p3 | p3] eqn:Ep; try lia.
      replace (ex + n + 1 <=? emax - prec) with true
        by (symmetry; apply Z.leb_le; lia).
      exists p3, (ex + n + 1). split; [reflexivity |].
      split; [assert (2 ^ dm <= 2 ^ prec) by (apply Z.pow_le_mono_r; lia); lia |].
      split; [lia |].
      replace (ex + n + 1 - (ex + n)) with 1 by lia.
      split; [| split].
      * change (2 ^ 1) with 2. lia.
      * intros Hl Hdp. exfalso.
        assert (m2 = mx) by (apply Hm2x; assumption).
        assert (dm = d) by (unfold dm; lia).
        assert (mx < 2 ^ dm) by (replace dm with d; lia). lia.
      * intros Hl. rewrite <- (Hm2r Hl). change (2 ^ 1) with 2. lia.
Qed.

End BinaryRound.

(** ** Values of floating-point numbers *)

Section Values.

Open Scope Q_scope.

Lemma pow2Q_pos (e : Z) : 0 < 2 ^ e.
Proof. apply Qpower_0_lt. reflexivity. Qed.

Lemma pow2Q_add (a b : Z) : 2 ^ (a + b) == 2 ^ a * 2 ^ b.
Proof. apply Qpower_plus. discriminate. Qed.

Lemma pow2Q_le (a b : Z) : (a <= b)%Z -> 2 ^ a <= 2 ^ b.
Proof. intros H. apply Qpower_le_compat_l; [exact H | discriminate]. Qed.

Lemma pow2Q_lt_inv (a b : Z) : 2 ^ a < 2 ^ b -> (a < b)%Z.
Proof. intros H. apply (Qpower_lt_compat_l_inv 2); [exact H | reflexivity]. Qed.

Lemma pow2Q_inject (n : Z) : (0 <= n)%Z -> inject_Z (2 ^ n) == 2 ^ n.
Proof. intros H. rewrite Zpower_Qpower by exact H. reflexivity. Qed.

Lemma F2Q_le (a b e : Z) : (a <= b)%Z -> F2Q a e <= F2Q b e.
Proof.
  intros H. unfold F2Q. apply Qmult_le_compat_r.
  - rewrite <- Zle_Qle. exact H.
  - apply Qlt_le_weak, pow2Q_pos.
Qed.

Lemma F2Q_lt (a b e : Z) : (a < b)%Z -> F2Q a e < F2Q b e.
Proof.
  intros H. unfold F2Q. apply Qmult_lt_compat_r.
  - apply pow2Q_pos.
  - rewrite <- Zlt_Qlt. exact H.
Qed.

Lemma F2Q_lt_inv (a b e : Z) : F2Q a e < F2Q b e -> (a < b)%Z.
Proof.
  intros H. destruct (Z_lt_le_dec a b) as [Hlt | Hge]; [exact Hlt |].
  apply (F2Q_le b a e) in Hge. apply Qle_not_lt in Hge. contradiction.
Qed.

Lemma F2Q_le_inv (a b e : Z) : F2Q a e <= F2Q b e -> (a <= b)%Z.
Proof.
  intros H. destruct (Z_le_gt_dec a b) as [Hle | Hgt]; [exact Hle |].
  apply Z.gt_lt in Hgt. apply (F2Q_lt b a e) in Hgt.
  apply Qlt_not_le in Hgt. contradiction.
Qed.

Lemma F2Q_shift (m k e : Z) :
  (0 <= k)%Z -> F2Q (m * 2 ^ k) e == F2Q m (e + k).
Proof.
  intros H. unfold F2Q.
  rewrite inject_Z_mult, pow2Q_inject by exact H.
  rewrite pow2Q_add. ring.
Qed.

Lemma F2Q_pow2 (k e : Z) : (0 <= k)%Z -> F2Q (2 ^ k) e == 2 ^ (k + e).
Proof.
  intros H. unfold F2Q. rewrite pow2Q_inject by exact H.
  rewrite pow2Q_add. reflexivity.
Qed.

Lemma F2Q_pow2_0 (k : Z) : (0 <= k)%Z -> F2Q (2 ^ k) 0 == 2 ^ k.
Proof.
  intros H. rewrite F2Q_pow2 by exact H. rewrite Z.add_0_r. reflexivity.
Qed.

Lemma F2Q_1 (e : Z) : F2Q 1 e == 2 ^ e.
Proof. unfold F2Q. ring. Qed.

Lemma F2Q_mag (m e : Z) :
  (0 < m)%Z ->
  2 ^ (Zdigits2 m - 1 + e) <= F2Q m e /\ F2Q m e < 2 ^ (Zdigits2 m + e).
Proof.
  intros H. destruct (Zdigits2_bounds m H) as [Hd [Hlo Hhi]].
  rewrite <- !F2Q_pow2 by lia.
  split; [apply F2Q_le; exact Hlo | apply F2Q_lt; exact Hhi].
Qed.

(** Cutting [n] digits: the value lies between the cut mantissa and the
    next one. *)
Lemma F2Q_floor (m e n : Z) :
  (0 <= n)%Z ->
  F2Q (m / 2 ^ n) (e + n) <= F2Q m e /\ F2Q m e < F2Q (m / 2 ^ n + 1) (e + n).
Proof.
  intros H.
  assert (Hp : (0 < 2 ^ n)%Z) by (apply Z.pow_pos_nonneg; lia).
  rewrite <- !F2Q_shift by exact H.
  pose proof (Z.mul_div_le m (2 ^ n) Hp).
  pose proof (Z.mul_succ_div_gt m (2 ^ n) Hp).
  split; [apply F2Q_le | apply F2Q_lt]; lia.
Qed.

End Values.

Section BinaryRoundValue.

Variables prec emax : Z.
Hypothesis Hprec : 1 < prec.

Open Scope Q_scope.

(** The value of a rounded number against bounds: a power of two below
    the exact value stays below the result, and a number of the format
    above the exact value stays above the result. *)
Lemma binary_round_aux_value (sx : bool) (mx ex : Z) (lx : location) :
  (0 < mx)%Z ->
  (emin prec emax <= ex + Zdigits2 mx - prec)%Z ->
  (ex + Z.max 0 (Zdigits2 mx - prec) < emax - prec)%Z ->
  exists (m : positive) (e : Z),
    binary_round_aux prec emax sx mx ex lx = S754_finite sx m e /\
    (Zpos m < 2 ^ prec)%Z /\
    (emin prec emax <= e)%Z /\
    (forall g, 2 ^ g <= F2Q mx ex -> 2 ^ g <= F2Q (Zpos m) e) /\
    (forall b g, F2Q mx ex < F2Q b g ->
                 (ex <= g)%Z -> (ex + Zdigits2 mx - prec <= g)%Z ->
                 F2Q (Zpos m) e <= F2Q b g) /\
    (lx = loc_Exact -> (Zdigits2 mx <= prec)%Z -> Zpos m = mx /\ e = ex) /\
    (lx = loc_Exact ->
     F2Q (Zpos m) e
     == F2Q (rne mx (Z.max 0 (Zdigits2 mx - prec)))
          (ex + Z.max 0 (Zdigits2 mx - prec))).
Proof.
  intros Hmx Hnorm Hmax.
  destruct (binary_round_aux_finite prec emax Hprec sx mx ex lx Hmx Hnorm Hmax)
    as (m & e & Hr & Hm & He & HM & Hx & Hrne).
  destruct (Zdigits2_bounds mx Hmx) as [Hd1 Hd].
  set (d := Zdigits2 mx) in *. set (n := Z.max 0 (d - prec)) in *.
  set (u := (ex + n)%Z) in *.
  set (M := (Zpos m * 2 ^ (e - u))%Z) in *.
  assert (HMv : F2Q (Zpos m) e == F2Q M u).
  { unfold M. rewrite F2Q_shift by lia.
    replace (u + (e - u))%Z with e by lia. reflexivity. }
  destruct (F2Q_floor mx ex n ltac:(lia)) as [Hfl Hfu]. fold u in Hfl, Hfu.
  set (m1 := (mx / 2 ^ n)%Z) in *.
  assert (HM1 : (m1 <= M <= m1 + 1)%Z) by lia.
  exists m, e. split; [exact Hr |]. split; [exact Hm |].
  split; [lia |]. split; [| split; [| split; [exact Hx |]]].
  3: { intros Hl. rewrite HMv, (Hrne Hl). reflexivity. }
  - intros g Hg. rewrite HMv.
    destruct (F2Q_mag mx ex Hmx) as [_ Hhi]. fold d in Hhi.
    assert (Hgd : (g < d + ex)%Z).
    { apply pow2Q_lt_inv. eapply Qle_lt_trans; [exact Hg | exact Hhi]. }
    assert (Hm1 : (2 ^ (d - 1 - n) <= m1)%Z).
    { unfold m1. apply Z.div_le_lower_bound.
      - apply Z.pow_pos_nonneg; lia.
      - rewrite <- Z.pow_add_r by lia.
        replace (n + (d - 1 - n))%Z with (d - 1)%Z by lia. lia. }
    apply Qle_trans with (2 ^ (d - 1 + ex)).
    + apply pow2Q_le. lia.
    + apply Qle_trans with (F2Q (2 ^ (d - 1 - n)) u).
      * rewrite F2Q_pow2 by lia.
        replace (d - 1 - n + u)%Z with (d - 1 + ex)%Z by (unfold u; lia).
        apply Qle_refl.
      * apply F2Q_le. lia.
  - intros b g Hb Hg1 Hg2. rewrite HMv.
    assert (Hug : (u <= g)%Z) by (unfold u, n; lia).
    assert (Hbg : F2Q b g == F2Q (b * 2 ^ (g - u)) u).
    { rewrite F2Q_shift by lia.
      replace (u + (g - u))%Z with g by lia. reflexivity. }
    rewrite Hbg in *.
    assert (Hlt : (m1 < b * 2 ^ (g - u))%Z).
    { apply (F2Q_lt_inv _ _ u). eapply Qle_lt_trans; [exact Hfl | exact Hb]. }
    apply F2Q_le. lia.
Qed.

End BinaryRoundValue.

Section Operations.

Variables prec emax : Z.
Hypothesis Hprec : 1 < prec.

Open Scope Q_scope.

Lemma F2Q_mul (a e b f : Z) : F2Q a e * F2Q b f == F2Q (a * b) (e + f).
Proof. unfold F2Q. rewrite inject_Z_mult, pow2Q_add. ring. Qed.

Lemma F2Q_pos (m e : Z) : (0 < m)%Z -> 0 < F2Q m e.
Proof.
  intros H. unfold F2Q. apply Qmult_lt_0_compat.
  - change 0 with (inject_Z 0). rewrite <- Zlt_Qlt. exact H.
  - apply pow2Q_pos.
Qed.

Lemma Zdigits2_shift (m k : Z) :
  (0 < m)%Z -> (0 <= k)%Z -> Zdigits2 (m * 2 ^ k) = (Zdigits2 m + k)%Z.
Proof.
  intros Hm Hk. destruct (Zdigits2_bounds m Hm) as [Hd [Hlo Hhi]].
  assert (Hp : (0 < 2 ^ k)%Z) by (apply Z.pow_pos_nonneg; lia).
  apply Zdigits2_unique; [| lia].
  replace (Zdigits2 m + k - 1)%Z with (Zdigits2 m - 1 + k)%Z by lia.
  rewrite !Z.pow_add_r by lia. split; nia.
Qed.

Lemma shl_align_spec (mx : positive) (ex ex' : Z) :
  snd (shl_align mx ex ex') = Z.min ex ex' /\
  Zpos (fst (shl_align mx ex ex'))
  = (Zpos mx * 2 ^ (ex - Z.min ex ex'))%Z.
Proof.
  unfold shl_align. destruct (ex' - ex)%Z as [| d | d] eqn:Hd; cbn [fst snd].
  - replace (Z.min ex ex') with ex by lia.
    rewrite Z.sub_diag. split; lia.
  - replace (Z.min ex ex') with ex by lia.
    rewrite Z.sub_diag. split; lia.
  - replace (Z.min ex ex') with ex' by lia.
    split; [reflexivity |].
    replace (ex - ex')%Z with (Zpos d) by lia.
    change (Pos.iter xO mx d) with (shift_pos d mx).
    rewrite shift_pos_correct. change (Z.pow_pos 2 d) with (2 ^ Zpos d)%Z.
    lia.
Qed.

(** Rounding [mx * 2 ^ ex] to the format. *)
Lemma binary_round_value (sx : bool) (mx : positive) (ex : Z) :
  (emin prec emax <= Zdigits2 (Zpos mx) + ex - prec)%Z ->
  (Zdigits2 (Zpos mx) + ex < emax)%Z ->
  exists (m : positive) (e : Z),
    binary_round prec emax sx mx ex = S754_finite sx m e /\
    (Zpos m < 2 ^ prec)%Z /\
    (emin prec emax <= e)%Z /\
    (forall g, 2 ^ g <= F2Q (Zpos mx) ex -> 2 ^ g <= F2Q (Zpos m) e) /\
    (forall b g, F2Q (Zpos mx) ex < F2Q b g ->
                 (Zdigits2 (Zpos mx) + ex - prec <= g)%Z ->
                 F2Q (Zpos m) e <= F2Q b g) /\
    ((Zdigits2 (Zpos mx) <= prec)%Z -> F2Q (Zpos m) e == F2Q (Zpos mx) ex) /\
    F2Q (Zpos m) e
    == F2Q (rne (Zpos mx) (Z.max 0 (Zdigits2 (Zpos mx) - prec)))
         (ex + Z.max 0 (Zdigits2 (Zpos mx) - prec)).
Proof.
  intros Hnorm Hmax.
  destruct (Zdigits2_bounds (Zpos mx) ltac:(lia)) as [Hd1 _].
  set (d := Zdigits2 (Zpos mx)) in *.
  unfold binary_round.
  change (Z.pos (digits2_pos mx)) with d.
  assert (Hf : fexp prec emax (d + ex) = (d + ex - prec)%Z)
    by (unfold fexp; lia).
  rewrite Hf.
  destruct (shl_align_spec mx ex (d + ex - prec)) as [Hez Hmz].
  destruct (shl_align mx ex (d + ex - prec)) as [mz ez].
  cbn [fst snd] in Hez, Hmz. subst ez.
  set (ez := Z.min ex (d + ex - prec)) in *.
  set (k := (ex - ez)%Z) in *.
  assert (Hk : (0 <= k)%Z) by (unfold k, ez; lia).
  assert (Hdz : Zdigits2 (Zpos mz) = (d + k)%Z).
  { rewrite Hmz. apply Zdigits2_shift; lia. }
  assert (Hv : F2Q (Zpos mz) ez == F2Q (Zpos mx) ex).
  { rewrite Hmz. rewrite F2Q_shift by lia.
    replace (ez + k)%Z with ex by (unfold k; lia). reflexivity. }
  destruct (binary_round_aux_value prec emax Hprec sx (Zpos mz) ez loc_Exact)
    as (m & e & Hr & Hm & He & HL & HU & HX & HR).
  - lia.
  - rewrite Hdz. unfold k, ez. lia.
  - rewrite Hdz. unfold k, ez. lia.
  - exists m, e. split; [exact Hr |]. split; [exact Hm |].
    split; [exact He |]. split; [| split; [| split]].
    + intros g Hg. apply HL. rewrite Hv. exact Hg.
    + intros b g Hb Hg. apply HU.
      * rewrite Hv. exact Hb.
      * unfold ez. lia.
      * rewrite Hdz. unfold k, ez. lia.
    + intros Hdp. destruct HX as [HXm HXe]; [reflexivity | |].
      * rewrite Hdz. unfold k, ez. lia.
      * rewrite HXm, HXe. exact Hv.
    + rewrite (HR eq_refl), Hdz.
      destruct (Z_le_gt_dec d prec) as [Hle | Hgt].
      * replace (Z.max 0 (d + k - prec))%Z with 0%Z by (unfold k, ez; lia).
        replace (Z.max 0 (d - prec))%Z with 0%Z by lia.
        rewrite !rne_0, !Z.add_0_r. exact Hv.
      * assert (Hk0 : k = 0%Z) by (unfold k, ez; lia).
        assert (Hez : ez = ex) by (unfold ez; lia).
        rewrite Hmz, Hk0, Hez. change (2 ^ 0)%Z with 1%Z.
        rewrite Z.mul_1_r, Z.add_0_r. reflexivity.
Qed.

(** The quotient of two positive finite numbers. *)
Lemma SFdiv_value (mX mY : positive) (eX eY : Z) :
  let E := (Zdigits2 (Zpos mX) + eX - (Zdigits2 (Zpos mY) + eY))%Z in
  (emin prec emax <= E - prec)%Z ->
  (E + 1 < emax)%Z ->
  exists (m : positive) (e : Z),
    SFdiv prec emax (S754_finite false mX eX) (S754_finite false mY eY)
    = S754_finite false m e /\
    (Zpos m < 2 ^ prec)%Z /\
    (emin prec emax <= e)%Z /\
    (forall g, 2 ^ g * F2Q (Zpos mY) eY <= F2Q (Zpos mX) eX ->
               2 ^ g <= F2Q (Zpos m) e) /\
    (forall b g, F2Q (Zpos mX) eX < F2Q b g * F2Q (Zpos mY) eY ->
                 (E + 1 - prec <= g)%Z ->
                 F2Q (Zpos m) e <= F2Q b g).
Proof.
  intros E Hnorm Hmax.
  destruct (Zdigits2_bounds (Zpos mX) ltac:(lia)) as [HdX1 [HXlo HXhi]].
  destruct (Zdigits2_bounds (Zpos mY) ltac:(lia)) as [HdY1 [HYlo HYhi]].
  set (dX := Zdigits2 (Zpos mX)) in *. set (dY := Zdigits2 (Zpos mY)) in *.
  cbn [SFdiv xorb]. unfold SFdiv_core_binary. fold dX dY. fold E.
  assert (Hf : fexp prec emax E = (E - prec)%Z) by (unfold fexp; lia).
  rewrite Hf.
  set (e' := Z.min (E - prec) (eX - eY)).
  set (s := (eX - eY - e')%Z).
  assert (Hs : (0 <= s)%Z) by (unfold s, e'; lia).
  assert (Hs' : (prec - dX + dY <= s)%Z) by (unfold s, e', E; lia).
  set (m' := match s with
             | Zpos _ => Z.shiftl (Zpos mX) s
             | Z0 => Zpos mX
             | Zneg _ => 0%Z
             end).
  assert (Hm' : m' = (Zpos mX * 2 ^ s)%Z).
  { unfold m'. destruct s as [| p | p] eqn:Es; try lia.
    apply Z.shiftl_mul_pow2. lia. }
  assert (Hq : fst (Z.div_eucl m' (Zpos mY)) = (m' / Zpos mY)%Z) by reflexivity.
  destruct (Z.div_eucl m' (Zpos mY)) as [q r]. cbn [fst] in Hq.
  assert (Hps : (0 < 2 ^ s)%Z) by (apply Z.pow_pos_nonneg; lia).
  set (c := (dX - 1 + s - dY)%Z).
  assert (Hc : (prec - 1 <= c)%Z) by (unfold c; lia).
  assert (Hm'lo : (2 ^ c * 2 ^ dY <= m')%Z).
  { rewrite Hm', <- Z.pow_add_r by lia.
    replace (c + dY)%Z with (dX - 1 + s)%Z by (unfold c; lia).
    rewrite Z.pow_add_r by lia. nia. }
  assert (Hm'hi : (m' < 2 ^ (c + 2) * 2 ^ (dY - 1))%Z).
  { rewrite Hm', <- Z.pow_add_r by lia.
    replace (c + 2 + (dY - 1))%Z with (dX + s)%Z by (unfold c; lia).
    rewrite Z.pow_add_r by lia. nia. }
  assert (Hpc : (0 < 2 ^ c)%Z) by (apply Z.pow_pos_nonneg; lia).
  assert (Hqlo : (2 ^ c <= q)%Z).
  { rewrite Hq. apply Z.div_le_lower_bound; [lia |]. nia. }
  assert (Hqhi : (q < 2 ^ (c + 2))%Z).
  { rewrite Hq. apply Z.div_lt_upper_bound; [lia |].
    assert (0 < 2 ^ (c + 2))%Z by (apply Z.pow_pos_nonneg; lia). nia. }
  assert (Hqpos : (0 < q)%Z) by lia.
  assert (Hdq : (c + 1 <= Zdigits2 q <= c + 2)%Z).
  { destruct (Zdigits2_bounds q Hqpos) as [_ [Hl Hh]].
    split.
    - destruct (Z_lt_le_dec (Zdigits2 q) (c + 1)) as [Hlt | Hge]; [| lia].
      assert (2 ^ Zdigits2 q <= 2 ^ c)%Z by (apply Z.pow_le_mono_r; lia). lia.
    - destruct (Z_lt_le_dec (c + 2) (Zdigits2 q)) as [Hlt | Hge]; [| lia].
      assert (2 ^ (c + 2) <= 2 ^ (Zdigits2 q - 1))%Z
        by (apply Z.pow_le_mono_r; lia). lia. }
  assert (HcE : (c + 1 + e' = E)%Z) by (unfold c, s, E; lia).
  assert (Hqm : (q * Zpos mY <= m' < (q + 1) * Zpos mY)%Z).
  { rewrite Hq. pose proof (Z.mul_div_le m' (Zpos mY) ltac:(lia)).
    pose proof (Z.mul_succ_div_gt m' (Zpos mY) ltac:(lia)). lia. }
  assert (HXv : F2Q (Zpos mX) eX == F2Q m' (e' + eY)).
  { rewrite Hm', F2Q_shift by lia.
    replace (e' + eY + s)%Z with eX by (unfold s; lia). reflexivity. }
  destruct (binary_round_aux_value prec emax Hprec false q e'
              (new_location (Zpos mY) r))
    as (m & e & Hr & Hm & He & HL & HU & _); try lia.
  exists m, e. split; [exact Hr |]. split; [exact Hm |].
  split; [exact He |]. split.
  - intros g Hg. apply HL.
    destruct (Z_le_gt_dec e' g) as [Hle | Hgt].
    + assert (Hge : (2 ^ (g - e') * Zpos mY <= m')%Z).
      { apply (F2Q_le_inv _ _ (e' + eY)). rewrite <- HXv.
        rewrite <- F2Q_mul, F2Q_pow2 by lia.
        replace (g - e' + e')%Z with g by lia. exact Hg. }
      assert (Hpg : (0 < 2 ^ (g - e'))%Z) by (apply Z.pow_pos_nonneg; lia).
      assert (Hqg : (2 ^ (g - e') <= q)%Z).
      { rewrite Hq. apply Z.div_le_lower_bound; [lia |]. lia. }
      apply Qle_trans with (F2Q (2 ^ (g - e')) e').
      * rewrite F2Q_pow2 by lia.
        replace (g - e' + e')%Z with g by lia. apply Qle_refl.
      * apply F2Q_le. exact Hqg.
    + apply Qle_trans with (2 ^ e'); [apply pow2Q_le; lia |].
      rewrite <- F2Q_1. apply F2Q_le. lia.
  - intros b g Hb Hg. apply HU; try lia.
    assert (HY : 0 < F2Q (Zpos mY) eY) by (apply F2Q_pos; lia).
    assert (Hqv : F2Q q e' * F2Q (Zpos mY) eY <= F2Q (Zpos mX) eX).
    { rewrite F2Q_mul, HXv. apply F2Q_le. lia. }
    apply Qnot_le_lt. intros Hcontra.
    assert (F2Q b g * F2Q (Zpos mY) eY <= F2Q q e' * F2Q (Zpos mY) eY).
    { apply Qmult_le_compat_r; [exact Hcontra | apply Qlt_le_weak, HY]. }
    apply (Qlt_irrefl (F2Q (Zpos mX) eX)).
    eapply Qlt_le_trans; [exact Hb |]. eapply Qle_trans; eassumption.
Qed.

End Operations.

(** ** The logarithm *)

Section Logarithm.

Lemma pow2Q_le_inv (a b : Z) : (2 ^ a <= 2 ^ b)%Q -> a <= b.
Proof. intros H. apply (Qpower_le_compat_l_inv 2); [exact H | reflexivity]. Qed.

(** Every term of the series is at most a ninth of the one before. *)
Lemma atanh_series_bounds (n : nat) :
  forall k p z2 : Z,
    1 <= k -> 0 <= p -> 0 <= z2 -> 9 * z2 <= 2 ^ LOG_BITS ->
    0 <= atanh_series n k p z2 /\ 8 * atanh_series n k p z2 <= 9 * p.
Proof.
  induction n as [| n IH]; intros k p z2 Hk Hp Hz Hz9;
    cbn [atanh_series]; [lia |].
  rewrite Z.shiftr_div_pow2 by (unfold LOG_BITS; lia).
  assert (HP : 0 < 2 ^ LOG_BITS) by (apply Z.pow_pos_nonneg; unfold LOG_BITS; lia).
  set (p' := p * z2 / 2 ^ LOG_BITS).
  assert (Hp' : 0 <= p') by (apply Z.div_pos; nia).
  assert (Hp9 : 9 * p' <= p).
  { pose proof (Z.mul_div_le (p * z2) (2 ^ LOG_BITS) HP) as Hd.
    fold p' in Hd. nia. }
  destruct (IH (k + 2) p' z2) as [H0 H8]; try lia.
  assert (Hq : 0 <= p / k <= p).
  { split; [apply Z.div_pos; lia |].
    apply Z.div_le_upper_bound; [lia | nia]. }
  lia.
Qed.

Lemma atanh_series_first (n : nat) (k p z2 : Z) :
  1 <= k -> 0 <= p -> 0 <= z2 -> 9 * z2 <= 2 ^ LOG_BITS ->
  p / k <= atanh_series (S n) k p z2.
Proof.
  intros Hk Hp Hz Hz9. cbn [atanh_series].
  rewrite Z.shiftr_div_pow2 by (unfold LOG_BITS; lia).
  assert (HP : 0 < 2 ^ LOG_BITS) by (apply Z.pow_pos_nonneg; unfold LOG_BITS; lia).
  set (p' := p * z2 / 2 ^ LOG_BITS).
  assert (Hp' : 0 <= p') by (apply Z.div_pos; nia).
  assert (Hp9 : 9 * p' <= p).
  { pose proof (Z.mul_div_le (p * z2) (2 ^ LOG_BITS) HP) as Hd.
    fold p' in Hd. nia. }
  destruct (atanh_series_bounds n (k + 2) p' z2) as [H0 _]; lia.
Qed.

(** The logarithm of a ratio in [[1, 2)] is between 0 and 3/4; it is 0 at
    1 and at least twice the first term of the series elsewhere. *)
Lemma ln_ratio_bounds (a b : Z) :
  0 < b <= a -> a < 2 * b ->
  0 <= ln_ratio a b /\
  4 * ln_ratio a b <= 3 * 2 ^ LOG_BITS /\
  (a = b -> ln_ratio a b = 0) /\
  2 * (2 ^ LOG_BITS / (a + b)) * (if a =? b then 0 else 1) <= ln_ratio a b.
Proof.
  intros Hb Ha. unfold ln_ratio.
  rewrite Z.shiftl_mul_pow2 by (unfold LOG_BITS; lia).
  rewrite Z.shiftr_div_pow2 by (unfold LOG_BITS; lia).
  assert (HP : 0 < 2 ^ LOG_BITS) by (apply Z.pow_pos_nonneg; unfold LOG_BITS; lia).
  set (P := 2 ^ LOG_BITS) in *.
  set (z := (a - b) * P / (a + b)).
  assert (Hz0 : 0 <= z) by (apply Z.div_pos; nia).
  assert (Hz3 : 3 * z <= P).
  { pose proof (Z.mul_div_le ((a - b) * P) (a + b) ltac:(lia)) as Hd.
    fold z in Hd. nia. }
  set (z2 := z * z / P).
  assert (Hz20 : 0 <= z2) by (apply Z.div_pos; nia).
  assert (Hz29 : 9 * z2 <= P).
  { pose proof (Z.mul_div_le (z * z) P HP) as Hd. fold z2 in Hd. nia. }
  destruct (atanh_series_bounds 45 1 z z2) as [H0 H8]; try lia.
  pose proof (atanh_series_first 44 1 z z2 ltac:(lia) Hz0 Hz20 Hz29) as H1.
  rewrite Z.div_1_r in H1.
  split; [lia |]. split; [lia |]. split.
  - intros Heq. assert (Hz : z = 0); [| lia].
    unfold z. rewrite Heq, Z.sub_diag, Z.mul_0_l. apply Z.div_0_l. lia.
  - destruct (a =? b) eqn:Hab; [lia |]. apply Z.eqb_neq in Hab.
    assert (P / (a + b) <= z); [| lia].
    unfold z. apply Z.div_le_mono; [lia | nia].
Qed.

Lemma LN2_bounds : 2 ^ 127 <= LN2 /\ 10000 * LN2 <= 6932 * 2 ^ LOG_BITS.
Proof. vm_compute. split; discriminate. Qed.

Lemma emin_float : emin Float32.prec Float32.emax = -149.
Proof. reflexivity. Qed.

Lemma emin_double : emin Float64.prec Float64.emax = -1074.
Proof. reflexivity. Qed.

Lemma Zdigits2_le (x d : Z) : 0 < x -> x < 2 ^ d -> 0 <= d -> Zdigits2 x <= d.
Proof.
  intros Hx Hd H0. destruct (Zdigits2_bounds x Hx) as [H1 [Hlo _]].
  destruct (Z_le_gt_dec (Zdigits2 x) d) as [Hle | Hgt]; [exact Hle |].
  assert (2 ^ d <= 2 ^ (Zdigits2 x - 1)) by (apply Z.pow_le_mono_r; lia). lia.
Qed.

Lemma Zdigits2_ge (x d : Z) : 2 ^ d <= x -> 0 <= d -> d + 1 <= Zdigits2 x.
Proof.
  intros Hd H0.
  assert (Hx : 0 < x).
  { assert (0 < 2 ^ d) by (apply Z.pow_pos_nonneg; lia). lia. }
  destruct (Zdigits2_bounds x Hx) as [H1 [_ Hhi]].
  destruct (Z_le_gt_dec (d + 1) (Zdigits2 x)) as [Hle | Hgt]; [exact Hle |].
  assert (2 ^ Zdigits2 x <= 2 ^ d) by (apply Z.pow_le_mono_r; lia). lia.
Qed.

(** The logarithm of a [float] between 1 and [2 ^ 30]: zero, or a
    positive [float] that is at most 21. *)
Lemma log_range (m : positive) (e : Z) :
  Zpos m < 2 ^ 24 ->
  (1 <= F2Q (Zpos m) e)%Q -> (F2Q (Zpos m) e <= 2 ^ 30)%Q ->
  Float32.log (S754_finite false m e) = S754_zero false \/
  exists (ml : positive) (el : Z),
    Float32.log (S754_finite false m e) = S754_finite false ml el /\
    Zpos ml < 2 ^ 24 /\ -149 <= el /\
    (F2Q (Zpos ml) el <= F2Q 21 0)%Q.
Proof.
  intros Hm Hlo Hhi.
  destruct (Zdigits2_bounds (Zpos m) ltac:(lia)) as [Hd1 [Hdlo Hdhi]].
  destruct (F2Q_mag (Zpos m) e ltac:(lia)) as [Hmlo Hmhi].
  pose proof (Zdigits2_le (Zpos m) 24 ltac:(lia) Hm ltac:(lia)) as Hd24.
  set (d := Zdigits2 (Zpos m)) in *.
  assert (Hk0 : 0 <= d - 1 + e).
  { assert (0 < d + e); [| lia]. apply pow2Q_lt_inv.
    eapply Qle_lt_trans; [| exact Hmhi]. exact Hlo. }
  assert (Hk30 : d - 1 + e <= 30).
  { apply pow2Q_le_inv. eapply Qle_trans; [exact Hmlo | exact Hhi]. }
  set (k := d - 1 + e) in *.
  set (b := 2 ^ (d - 1)) in *.
  assert (Hb : 0 < b) by (apply Z.pow_pos_nonneg; lia).
  assert (Hb2 : 2 ^ d = 2 * b).
  { unfold b. replace d with (d - 1 + 1) at 1 by lia.
    rewrite Z.pow_add_r by lia. change (2 ^ 1) with 2. lia. }
  assert (Hb25 : Zpos m + b < 2 ^ 25).
  { assert (2 ^ d <= 2 ^ 24) by (apply Z.pow_le_mono_r; lia).
    change (2 ^ 25) with (2 * 2 ^ 24). lia. }
  destruct (ln_ratio_bounds (Zpos m) b ltac:(lia) ltac:(lia))
    as (Hr0 & Hr3 & Hreq & Hrlo).
  pose proof LN2_bounds as [HL1 HL2].
  assert (HP : 2 ^ LOG_BITS = 2 ^ 24 * 2 ^ 104) by reflexivity.
  assert (Hk29 : Zpos m <> b -> k <= 29).
  { intros Hne. destruct (Z.eq_dec k 30) as [Hk | Hk]; [| lia]. exfalso.
    assert (Hlt : (F2Q b e < F2Q (Zpos m) e)%Q) by (apply F2Q_lt; lia).
    unfold b in Hlt. rewrite F2Q_pow2 in Hlt by lia. fold k in Hlt.
    rewrite Hk in Hlt. apply (Qlt_irrefl (2 ^ 30)%Q).
    eapply Qlt_le_trans; [exact Hlt | exact Hhi]. }
  set (r := ln_ratio (Zpos m) b) in *.
  set (a := k * LN2 + r).
  assert (Ha : a = 0 \/ (2 ^ 104 <= a /\ a < 21 * 2 ^ LOG_BITS)).
  { destruct (Z.eq_dec (Zpos m) b) as [Heq | Hne].
    - rewrite (Hreq Heq) in *. unfold a.
      destruct (Z.eq_dec k 0) as [-> | Hk]; [left; lia | right].
      change (2 ^ 104) with (2 ^ 104 * 1). change (2 ^ 127) with (2 ^ 104 * 8388608) in HL1.
      split; nia.
    - right. pose proof (Hk29 Hne) as Hk.
      replace (Zpos m =? b) with false in Hrlo
        by (symmetry; apply Z.eqb_neq; exact Hne).
      assert (Hq : 2 ^ 103 <= 2 ^ LOG_BITS / (Zpos m + b)).
      { apply Z.div_le_lower_bound; [lia |].
        change (2 ^ LOG_BITS) with (2 ^ 25 * 2 ^ 103).
        assert (0 < 2 ^ 103) by reflexivity. nia. }
      change (2 ^ 104) with (2 * 2 ^ 103). unfold a.
      split; nia. }
  unfold Float32.log, SFlog. fold d. fold b. fold k. fold r. fold a.
  destruct Ha as [Ha | [Ha1 Ha2]].
  - rewrite Ha. left. reflexivity.
  - right. destruct a as [| pa | pa] eqn:Ea;
      try (assert (0 < 2 ^ 104) by reflexivity; lia).
    cbn [binary_normalize].
    assert (Hda1 : 105 <= Zdigits2 (Zpos pa)).
    { apply (Zdigits2_ge (Zpos pa) 104); [exact Ha1 | lia]. }
    assert (Hda2 : Zdigits2 (Zpos pa) <= 133).
    { apply Zdigits2_le; [lia | | lia].
      change (2 ^ 133) with (32 * 2 ^ LOG_BITS).
      assert (0 < 2 ^ LOG_BITS) by reflexivity. lia. }
    destruct (binary_round_value Float32.prec Float32.emax ltac:(reflexivity)
                false pa (- LOG_BITS))
      as (ml & el & Hr & Hml & Hel & _ & HU & _ & _).
    + rewrite emin_float. unfold Float32.prec, LOG_BITS. lia.
    + unfold Float32.emax, LOG_BITS. lia.
    + exists ml, el. split; [exact Hr |]. split; [exact Hml |].
      split; [rewrite emin_float in Hel; exact Hel |].
      apply HU.
      * assert (Hs : (F2Q 21 0 == F2Q (21 * 2 ^ LOG_BITS) (- LOG_BITS))%Q).
        { rewrite F2Q_shift by (unfold LOG_BITS; lia).
          replace (- LOG_BITS + LOG_BITS) with 0 by lia. reflexivity. }
        rewrite Hs. apply F2Q_lt. exact Ha2.
      * unfold Float32.prec, LOG_BITS. lia.
Qed.

End Logarithm.

(** ** The exponent of the sub-period *)

Section Exponent.

Lemma LOG2_value :
  Float64.log (Float64.of_Z 2) = S754_finite false 6243314768165359 (-53).
Proof. vm_compute. reflexivity. Qed.

(** [(int) x] for a positive [double] below 31. *)
Lemma int_of_double_range (m : positive) (e : Z) :
  (F2Q (Zpos m) e <= F2Q 61 (-1))%Q ->
  exists r, int_of_double (S754_finite false m e) = Ok r /\ 0 <= r <= 30.
Proof.
  intros H.
  assert (H31 : (F2Q (Zpos m) e < F2Q 31 0)%Q).
  { eapply Qle_lt_trans; [exact H |].
    assert (Hs : (F2Q 31 0 == F2Q (31 * 2 ^ 1) (-1))%Q).
    { rewrite F2Q_shift by lia. reflexivity. }
    rewrite Hs. apply F2Q_lt. reflexivity. }
  unfold int_of_double.
  set (a := if 0 <=? e then Zpos m * 2 ^ e else Zpos m / 2 ^ (- e)).
  assert (Ha : 0 <= a <= 30).
  { unfold a. destruct (0 <=? e) eqn:He.
    - apply Z.leb_le in He.
      assert (0 < 2 ^ e) by (apply Z.pow_pos_nonneg; lia).
      split; [nia |].
      assert (Zpos m * 2 ^ e < 31); [| lia].
      apply (F2Q_lt_inv _ _ 0). rewrite F2Q_shift by lia.
      rewrite Z.add_0_l. exact H31.
    - apply Z.leb_gt in He.
      assert (0 < 2 ^ (- e)) by (apply Z.pow_pos_nonneg; lia).
      split; [apply Z.div_pos; lia |].
      assert (Zpos m / 2 ^ (- e) < 31); [| lia].
      apply (F2Q_lt_inv _ _ 0).
      destruct (F2Q_floor (Zpos m) e (- e) ltac:(lia)) as [Hfl _].
      replace (e + - e) with 0 in Hfl by lia.
      eapply Qle_lt_trans; [exact Hfl | exact H31]. }
  exists a. split; [| exact Ha].
  unfold int_op, INT_MIN, INT_MAX.
  replace ((- 2 ^ 31 <=? a) && (a <=? 2 ^ 31 - 1)) with true; [reflexivity |].
  symmetry. apply andb_true_iff. split; apply Z.leb_le; lia.
Qed.

Lemma F2Q_mag_le (m e g : Z) :
  0 < m -> (F2Q m e <= 2 ^ g)%Q -> Zdigits2 m + e <= g + 1.
Proof.
  intros Hm H. destruct (F2Q_mag m e Hm) as [Hlo _].
  assert (Zdigits2 m - 1 + e <= g); [| lia].
  apply pow2Q_le_inv. eapply Qle_trans; [exact Hlo | exact H].
Qed.

Lemma F2Q_mag_ge (m e g : Z) :
  0 < m -> (2 ^ g <= F2Q m e)%Q -> g + 1 <= Zdigits2 m + e.
Proof.
  intros Hm H. destruct (F2Q_mag m e Hm) as [_ Hhi].
  assert (g < Zdigits2 m + e); [| lia].
  apply pow2Q_lt_inv. eapply Qle_lt_trans; [exact H | exact Hhi].
Qed.

(** The conversion of a positive integer below [2 ^ 31] to [float]:
    the number rounded to nearest even at 24 digits; a power of two on
    either side of the number is on the same side of the result. *)
Lemma float_of_int (x : Z) :
  0 < x < 2 ^ 31 ->
  exists (m : positive) (e : Z),
    Float32.of_Z x = S754_finite false m e /\
    (forall g, 0 <= g -> x < 2 ^ g -> (F2Q (Zpos m) e <= 2 ^ g)%Q) /\
    (forall g, (2 ^ g <= F2Q x 0)%Q -> (2 ^ g <= F2Q (Zpos m) e)%Q) /\
    (F2Q (Zpos m) e
     == F2Q (rne x (Z.max 0 (Zdigits2 x - 24))) (Z.max 0 (Zdigits2 x - 24)))%Q.
Proof.
  intros Hx. destruct x as [| p | p]; try lia.
  pose proof (Zdigits2_le (Zpos p) 31 ltac:(lia) ltac:(lia) ltac:(lia)) as Hd.
  destruct (Zdigits2_bounds (Zpos p) ltac:(lia)) as [Hd1 [Hlo _]].
  unfold Float32.of_Z. cbn [binary_normalize].
  destruct (binary_round_value Float32.prec Float32.emax ltac:(reflexivity)
              false p 0)
    as (m & e & Hr & _ & _ & HL & HU & _ & HR).
  - rewrite emin_float. unfold Float32.prec. lia.
  - unfold Float32.emax. lia.
  - exists m, e. split; [exact Hr |].
    split; [| split; [exact HL | exact HR]].
    intros g Hg Hxg. rewrite <- F2Q_1. apply HU.
    + rewrite F2Q_1, <- F2Q_pow2_0 by lia.
      apply F2Q_lt. exact Hxg.
    + unfold Float32.prec.
      assert (Zdigits2 (Zpos p) - 1 < g); [| lia].
      apply (Z.pow_lt_mono_r_iff 2); lia.
Qed.

(** The conversion to [float] is monotone. *)
Lemma float_of_int_mono (x y : Z) (mx my : positive) (ex ey : Z) :
  0 < y <= x -> x < 2 ^ 31 ->
  Float32.of_Z x = S754_finite false mx ex ->
  Float32.of_Z y = S754_finite false my ey ->
  (F2Q (Zpos my) ey <= F2Q (Zpos mx) ex)%Q.
Proof.
  intros Hyx Hx HX HY.
  destruct (float_of_int x ltac:(lia)) as (mx' & ex' & HX' & _ & HXL & HXR).
  destruct (float_of_int y ltac:(lia)) as (my' & ey' & HY' & HYU & _ & HYR).
  rewrite HX in HX'. injection HX' as <- <-.
  rewrite HY in HY'. injection HY' as <- <-.
  destruct (Zdigits2_bounds x ltac:(lia)) as [Hdx1 [Hxlo Hxhi]].
  destruct (Zdigits2_bounds y ltac:(lia)) as [Hdy1 [Hylo Hyhi]].
  destruct (Z.eq_dec (Zdigits2 y) (Zdigits2 x)) as [Heq | Hne].
  - rewrite HXR, HYR, Heq. apply F2Q_le. apply rne_mono; lia.
  - assert (Hlt : Zdigits2 y < Zdigits2 x).
    { destruct (Z_lt_le_dec (Zdigits2 y) (Zdigits2 x)) as [H | H]; [exact H |].
      assert (2 ^ Zdigits2 x <= 2 ^ (Zdigits2 y - 1))
        by (apply Z.pow_le_mono_r; lia). lia. }
    apply Qle_trans with (2 ^ (Zdigits2 x - 1))%Q.
    + apply Qle_trans with (2 ^ Zdigits2 y)%Q.
      * apply HYU; lia.
      * apply pow2Q_le. lia.
    + apply HXL. rewrite <- F2Q_pow2_0 by lia.
      apply F2Q_le. exact Hxlo.
Qed.

(** With room for a frame of every port in the packet, the exponent is
    computed without undefined behaviour and lies in [[0, 30]]. *)
Lemma trunc_log2_quot_range (num den : Z) :
  4 <= den -> den <= num -> num < 2 ^ 31 ->
  exists e, trunc_log2_quot num den = Ok e /\ 0 <= e <= 30.
Proof.
  intros Hd4 Hdn Hn.
  destruct (float_of_int num ltac:(lia)) as (mX & eX & HX & HXU & _ & _).
  destruct (float_of_int den ltac:(lia)) as (mY & eY & HY & _ & HYL & _).
  pose proof (float_of_int_mono num den mX mY eX eY ltac:(lia) Hn HX HY)
    as HXY.
  pose proof (HXU 31 ltac:(lia) Hn) as HXhi.
  unfold trunc_log2_quot. rewrite HX, HY.
  assert (HY4 : (2 ^ 2 <= F2Q (Zpos mY) eY)%Q).
  { apply HYL. rewrite <- (F2Q_pow2 2 0) by lia. apply F2Q_le. exact Hd4. }
  pose proof (F2Q_mag_le (Zpos mX) eX 31 ltac:(lia) HXhi) as HMX1.
  pose proof (F2Q_mag_ge (Zpos mX) eX 2 ltac:(lia)
                (Qle_trans _ _ _ HY4 HXY)) as HMX2.
  pose proof (F2Q_mag_le (Zpos mY) eY 31 ltac:(lia)
                (Qle_trans _ _ _ HXY HXhi)) as HMY1.
  pose proof (F2Q_mag_ge (Zpos mY) eY 2 ltac:(lia) HY4) as HMY2.
  unfold Float32.div.
  destruct (SFdiv_value Float32.prec Float32.emax ltac:(reflexivity)
              mX mY eX eY)
    as (mQ & eQ & HQ & HmQ & _ & HQL & HQU).
  - rewrite emin_float. unfold Float32.prec. lia.
  - unfold Float32.emax. lia.
  - rewrite HQ.
    assert (HQ1 : (1 <= F2Q (Zpos mQ) eQ)%Q).
    { change 1%Q with (2 ^ 0)%Q. apply HQL.
      change (2 ^ 0)%Q with 1%Q. rewrite Qmult_1_l. exact HXY. }
    assert (HQ30 : (F2Q (Zpos mQ) eQ <= 2 ^ 30)%Q).
    { rewrite <- F2Q_1. apply HQU.
      - rewrite F2Q_1.
        apply Qle_lt_trans with (2 ^ 31)%Q; [exact HXhi |].
        apply Qlt_le_trans with (2 ^ 30 * 2 ^ 2)%Q;
          [rewrite <- pow2Q_add; apply Qpower_lt_compat_l; [lia | reflexivity] |].
        apply Qmult_le_l; [apply pow2Q_pos | exact HY4].
      - unfold Float32.prec. lia. }
    destruct (log_range mQ eQ HmQ HQ1 HQ30)
      as [Hz | (ml & el & Hl & Hml & Hel & Hl21)].
    + rewrite Hz, LOG2_value. exists 0. split; [reflexivity | lia].
    + rewrite Hl, LOG2_value. unfold Float64.div.
      assert (Hl5 : (F2Q (Zpos ml) el <= 2 ^ 5)%Q).
      { eapply Qle_trans; [exact Hl21 |].
        rewrite <- (F2Q_pow2 5 0) by lia. apply F2Q_le.
        change (2 ^ 5) with 32. lia. }
      pose proof (F2Q_mag_le (Zpos ml) el 5 ltac:(lia) Hl5) as HMl.
      destruct (Zdigits2_bounds (Zpos ml) ltac:(lia)) as [Hdl1 _].
      destruct (SFdiv_value Float64.prec Float64.emax ltac:(reflexivity)
                  ml 6243314768165359 el (-53))
        as (mD & eD & HD & _ & _ & _ & HDU).
      * rewrite emin_double. unfold Float64.prec.
        change (Zdigits2 6243314768165359) with 53. lia.
      * unfold Float64.emax.
        change (Zdigits2 6243314768165359) with 53. lia.
      * rewrite HD. apply int_of_double_range. apply HDU.
        -- eapply Qle_lt_trans; [exact Hl21 |].
           unfold F2Q. vm_compute. reflexivity.
        -- unfold Float64.prec.
           change (Zdigits2 6243314768165359) with 53. lia.
Qed.

End Exponent.

(** ** Quotients that are not positive *)

Section Signs.

Lemma binary_round_aux_sign (prec emax : Z) (sx : bool) (mx ex : Z)
    (lx : location) (s : bool) (m : positive) (e : Z) :
  binary_round_aux prec emax sx mx ex lx = S754_finite s m e -> s = sx.
Proof.
  unfold binary_round_aux.
  destruct (shr_fexp prec emax mx ex lx) as [mrs' e'].
  destruct (shr_fexp prec emax _ e' loc_Exact) as [mrs'' e''].
  destruct (shr_m mrs''); try discriminate.
  destruct (e'' <=? emax - prec); try discriminate.
  intros H. injection H as <- _ _. reflexivity.
Qed.

Lemma of_Z_sign (x : Z) (s : bool) (m : positive) (e : Z) :
  Float32.of_Z x = S754_finite s m e -> x <> 0 /\ s = (x <? 0).
Proof.
  unfold Float32.of_Z. destruct x as [| p | p]; cbn [binary_normalize];
    try discriminate; unfold binary_round;
    destruct (shl_align p 0 _) as [mz ez]; intros H;
    apply binary_round_aux_sign in H; split; try lia; exact H.
Qed.

Lemma SFdiv_sign (prec emax : Z) (x y : spec_float)
    (s : bool) (m : positive) (e : Z) :
  SFdiv prec emax x y = S754_finite s m e ->
  exists sx mx ex sy my ey,
    x = S754_finite sx mx ex /\ y = S754_finite sy my ey /\ s = xorb sx sy.
Proof.
  destruct x as [sx | sx | | sx mx ex], y as [sy | sy | | sy my ey];
    cbn [SFdiv]; try discriminate.
  destruct (SFdiv_core_binary prec emax (Zpos mx) ex (Zpos my) ey)
    as [[mz ez] lz].
  intros H. apply binary_round_aux_sign in H.
  exists sx, mx, ex, sy, my, ey. repeat split. exact H.
Qed.

(** Only the logarithm of a positive finite quotient is converted to
    [int] with defined behaviour. *)
Lemma trunc_log2_Ok (num den e : Z) :
  trunc_log2_quot num den = Ok e ->
  exists m eq,
    Float32.div (Float32.of_Z num) (Float32.of_Z den) = S754_finite false m eq.
Proof.
  unfold trunc_log2_quot. rewrite LOG2_value.
  destruct (Float32.div (Float32.of_Z num) (Float32.of_Z den))
    as [s | [|] | | [|] m eq];
    try (intros _; exists m, eq; reflexivity);
    cbn [Float32.log SFlog Float64.div SFdiv int_of_double xorb];
    discriminate.
Qed.

(** The logarithm of a packet size that is not positive. *)
Lemma trunc_log2_quot_nonpositive (num den : Z) :
  num <= 0 -> 0 <= den -> trunc_log2_quot num den = Undefined.
Proof.
  intros Hn Hd.
  destruct (trunc_log2_quot num den) as [e | |] eqn:H; [| | reflexivity].
  - exfalso. apply trunc_log2_Ok in H. destruct H as (m & eq & H).
    apply SFdiv_sign in H.
    destruct H as (sx & mx & ex & sy & my & ey & HX & HY & Hs).
    apply of_Z_sign in HX. apply of_Z_sign in HY.
    destruct HX as [Hx0 ->]. destruct HY as [Hy0 ->].
    replace (num <? 0) with true in Hs by (symmetry; apply Z.ltb_lt; lia).
    replace (den <? 0) with false in Hs by (symmetry; apply Z.ltb_ge; lia).
    discriminate Hs.
  - exfalso. unfold trunc_log2_quot, int_of_double, int_op in H.
    destruct (Float64.div _ _) as [s | s | | s m e]; try discriminate.
    destruct ((INT_MIN <=? _) && (_ <=? INT_MAX)); discriminate.
Qed.

Lemma trunc_log2_quot_no_assert (num den : Z) :
  trunc_log2_quot num den <> AssertFailed.
Proof.
  unfold trunc_log2_quot, int_of_double, int_op.
  destruct (Float64.div _ _) as [s | s | | s m e]; try discriminate.
  destruct ((INT_MIN <=? _) && (_ <=? INT_MAX)); discriminate.
Qed.

End Signs.

(** ** The size of the packet header *)

Lemma HEADER_SIZE_value : HEADER_SIZE = 40.
Proof. reflexivity. Qed.

(** ** Audio frame layout *)

Section FrameLayout.

(** The clamp of a power of two by a period that is a power of two is a
    power of two that divides the period, whatever the exponent the
    logarithm has given. *)
Lemma clamp_pow2 (e k : Z) :
  0 <= e -> 0 <= k ->
  exists j, 0 <= j <= k /\
    (if 2 ^ e >? 2 ^ k then 2 ^ k else 2 ^ e) = 2 ^ j.
Proof.
  intros He Hk. destruct (2 ^ e >? 2 ^ k) eqn:Hcmp.
  - exists k. split; [lia | reflexivity].
  - exists e. split; [| reflexivity].
    rewrite Z.gtb_ltb in Hcmp. apply Z.ltb_ge in Hcmp.
    apply Z.pow_le_mono_r_iff in Hcmp; lia.
Qed.

(** With room for one frame of every port, the sub-period is a power
    of two dividing a period that is a power of two. *)
Lemma sub_period_pow2 (packet_size den k : Z) :
  4 <= den -> den <= packet_size -> packet_size < 2 ^ 31 -> 0 <= k ->
  exists j, 0 <= j <= k /\ sub_period packet_size den (2 ^ k) = Ok (2 ^ j).
Proof.
  intros Hd4 Hdp Hp Hk. unfold sub_period.
  destruct (trunc_log2_quot_range packet_size den Hd4 Hdp Hp)
    as [e [He Hr]].
  rewrite He. cbn [bind]. unfold pow2_int.
  replace (e <? 0) with false by (symmetry; apply Z.ltb_ge; lia).
  replace (e <? 31) with true by (symmetry; apply Z.ltb_lt; lia).
  cbn [bind].
  assert (Hp2 : 0 < 2 ^ e < 2 ^ 32).
  { split; [apply Z.pow_pos_nonneg; lia |].
    apply Z.pow_lt_mono_r; lia. }
  rewrite u32_id by lia.
  destruct (clamp_pow2 e k) as [j [Hj Heq]]; try lia.
  exists j. split; [exact Hj |]. rewrite Heq. reflexivity.
Qed.

Lemma pow2_div (j k : Z) : 0 <= j <= k -> 2 ^ k / 2 ^ j = 2 ^ (k - j).
Proof.
  intros H. replace k with ((k - j) + j) at 1 by lia.
  rewrite Z.pow_add_r by lia. apply Z.div_mul.
  apply Z.pow_nonzero; lia.
Qed.

(** The number of packets of a period [2 ^ k] cut in sub-periods
    [2 ^ j]. *)
Lemma packets_of_pow2 (j k : Z) :
  0 <= j <= k -> k <= 30 ->
  (2 ^ j =? 0) = false /\
  i32 (2 ^ k / 2 ^ j) * 2 ^ j = 2 ^ k.
Proof.
  intros H Hk.
  assert (Hpos : 0 < 2 ^ j) by (apply Z.pow_pos_nonneg; lia).
  split; [apply Z.eqb_neq; lia |].
  rewrite pow2_div by exact H.
  assert (0 < 2 ^ (k - j) <= 2 ^ 30).
  { split; [apply Z.pow_pos_nonneg; lia |].
    apply Z.pow_le_mono_r; lia. }
  rewrite i32_id by lia.
  rewrite <- Z.pow_add_r by lia. f_equal. lia.
Qed.

Lemma i32_nports (nports : Z) :
  0 <= nports < 2 ^ 31 -> (i32 nports <? 0) = false.
Proof. intros H. rewrite i32_id by lia. apply Z.ltb_ge. lia. Qed.

End FrameLayout.

Section FrameLayoutClaims.

Lemma count_active_nonneg (ports : list sample_ptr) : 0 <= JackOptimizedPortList.count_active ports.
Proof.
  induction ports as [| p rest IH]; cbn [JackOptimizedPortList.count_active]; [lia |].
  destruct (is_set p); lia.
Qed.

(** The constructor succeeds as soon as the sub-period it computes is
    not zero and the port count is an [int] that is not negative. *)
Lemma JackPortList_new_fields (params : session_params.t) (nports : Z)
    (l : JackPortList) :
  JackPortList_new params nports = Ok l ->
  fPeriodSize l = session_params.fPeriodSize params /\
  fPacketSize l = i32 (u64 (session_params.fMtu params - HEADER_SIZE)) /\
  fSubPeriodBytesSize l = u64 (fSubPeriodSize l * sizeof_sample_t) /\
  fPortBuffer l = repeat NullPtr (Z.to_nat (i32 nports)) /\
  fCycleSize l =
    u32 (session_params.fMtu params
         * (session_params.fPeriodSize params / fSubPeriodSize l)) /\
  fCycleDuration l =
    Float32.div (Float32.of_Z (fSubPeriodSize l))
      (Float32.of_Z (session_params.fSampleRate params)) /\
  fLastSubCycle l = -1 /\
  fSubPeriodSize l <> 0.
Proof.
  unfold JackPortList_new.
  match goal with
  | |- bind ?c _ = _ -> _ => destruct c as [sub | |]
  end; cbn [bind]; try discriminate.
  destruct (i32 nports <? 0); try discriminate.
  destruct (sub =? 0) eqn:Hsub; try discriminate.
  intros H. injection H as <-. cbn.
  apply Z.eqb_neq in Hsub. repeat split; try reflexivity. exact Hsub.
Qed.

(** C7. With no audio channel in either direction the constructor sets
    [fSubPeriodSize] to the period size, and so does the per-cycle
    sizing of the optimized list when no port is active: the whole
    period is one sub-cycle.  Both calls complete whenever the period
    size is not zero, and then the cycle has one packet. *)
Theorem zero_channels_whole_period :
  (forall (params : session_params.t) (nports : Z) (l : JackPortList),
      session_params.fSendAudioChannels params = 0 ->
      session_params.fReturnAudioChannels params = 0 ->
      JackPortList_new params nports = Ok l ->
      fSubPeriodSize l = session_params.fPeriodSize params) /\
  (forall (params : session_params.t) (nports : Z),
      session_params.fSendAudioChannels params = 0 ->
      session_params.fReturnAudioChannels params = 0 ->
      0 < session_params.fPeriodSize params < 2 ^ 32 ->
      0 <= nports < 2 ^ 31 ->
      exists l, JackPortList_new params nports = Ok l /\
                GetNumPackets l = Ok 1) /\
  (forall (l l' : JackPortList) (n : Z),
      JackOptimizedPortList.count_active (fPortBuffer l) = 0 ->
      JackOptimizedPortList.GetNumPackets l = Ok (l', n) ->
      fSubPeriodSize l' = fPeriodSize l) /\
  (forall (l : JackPortList),
      JackOptimizedPortList.count_active (fPortBuffer l) = 0 ->
      0 < fPeriodSize l < 2 ^ 32 ->
      exists l', JackOptimizedPortList.GetNumPackets l = Ok (l', 1)).
Proof.
  repeat split.
  - intros params nports l Hs Hr. unfold JackPortList_new.
    rewrite Hs, Hr. cbn [Z.eqb andb bind].
    destruct (i32 nports <? 0); try discriminate.
    destruct (session_params.fPeriodSize params =? 0); try discriminate.
    intros H. injection H as <-. reflexivity.
  - intros params nports Hs Hr Hp Hn. unfold JackPortList_new.
    rewrite Hs, Hr. cbn [Z.eqb andb bind].
    rewrite i32_nports by exact Hn.
    replace (session_params.fPeriodSize params =? 0) with false
      by (symmetry; apply Z.eqb_neq; lia).
    eexists. split; [reflexivity |].
    unfold GetNumPackets. cbn [fSubPeriodSize fPeriodSize].
    replace (session_params.fPeriodSize params =? 0) with false
      by (symmetry; apply Z.eqb_neq; lia).
    rewrite Z.div_same by lia. reflexivity.
  - intros l l' n Hc. unfold JackOptimizedPortList.GetNumPackets.
    rewrite Hc. cbn [Z.eqb bind].
    destruct (fPeriodSize l =? 0); try discriminate.
    intros H. injection H as <- _. reflexivity.
  - intros l Hc Hp. unfold JackOptimizedPortList.GetNumPackets.
    rewrite Hc. cbn [Z.eqb bind].
    replace (fPeriodSize l =? 0) with false
      by (symmetry; apply Z.eqb_neq; lia).
    rewrite Z.div_same by lia. eexists. reflexivity.
Qed.

Lemma zero_channels_whole_period_witness :
  exists l, JackPortList_new (audio_session 1500 0 0 48000 1024) 2 = Ok l /\
            GetNumPackets l = Ok 1.
Proof.
  apply (proj1 (proj2 zero_channels_whole_period)
           (audio_session 1500 0 0 48000 1024) 2).
  - reflexivity.
  - reflexivity.
  - simpl. lia.
  - lia.
Defined.

(** C1, at a period size that is not a power of two: with MTU 1500,
    two channels each way and a period of 1000 frames the sub-period is
    128 frames and the cycle has 7 packets, which carry 896 frames. *)
Lemma frame_layout_period_1000 :
  exists l n,
    JackPortList_new (audio_session 1500 2 2 48000 1000) 2 = Ok l /\
    GetNumPackets l = Ok n /\
    fSubPeriodSize l = 128 /\ n = 7 /\
    n * fSubPeriodSize l <> session_params.fPeriodSize
                              (audio_session 1500 2 2 48000 1000).
Proof.
  eexists. eexists. split; [vm_compute; reflexivity |].
  split; [reflexivity |]. repeat split. vm_compute. discriminate.
Qed.

(** The exponent is the one the floating-point computation gives: with
    a payload of 32768 bytes and one channel the quotient is [2 ^ 13],
    its logarithm divided by [log(2.)] is just below 13, and the
    sub-period is 4096 frames, in 2 packets for a period of 8192. *)
Lemma frame_layout_mtu_32808 :
  exists l,
    JackPortList_new (audio_session 32808 1 1 48000 8192) 2 = Ok l /\
    fSubPeriodSize l = 4096 /\
    GetNumPackets l = Ok 2.
Proof.
  eexists. split; [vm_compute; reflexivity |].
  split; vm_compute; reflexivity.
Qed.

(** C1 (amended). For a period size that is a power of two up to
    [2 ^ 30], channel counts that are not negative, a port count below
    [2 ^ 31] and an MTU whose payload [fMtu - sizeof(packet_header_t)]
    is below [2 ^ 31] and has room for one sample of every channel, the
    constructor and [GetNumPackets] complete with an [fSubPeriodSize]
    that is a power of two, at most the period size, and [GetNumPackets]
    times [fSubPeriodSize] is the period size; so does the per-cycle
    sizing of the optimized list when the packet size is below [2 ^ 31]
    and has room for one sample of every active port.  With MTU 1500,
    two channels and a period of 1024 frames, [fSubPeriodSize] is 128
    and [GetNumPackets] returns 8. *)
Theorem frame_layout_power_of_two :
  (forall (params : session_params.t) (nports k : Z),
      0 <= session_params.fSendAudioChannels params ->
      0 <= session_params.fReturnAudioChannels params ->
      Z.max (session_params.fReturnAudioChannels params)
            (session_params.fSendAudioChannels params) * sizeof_sample_t
        <= session_params.fMtu params - HEADER_SIZE ->
      session_params.fMtu params - HEADER_SIZE < 2 ^ 31 ->
      0 <= k <= 30 ->
      session_params.fPeriodSize params = 2 ^ k ->
      0 <= nports < 2 ^ 31 ->
      exists l n,
        JackPortList_new params nports = Ok l /\
        GetNumPackets l = Ok n /\
        is_pow2 (fSubPeriodSize l) /\
        fSubPeriodSize l <= session_params.fPeriodSize params /\
        n * fSubPeriodSize l = session_params.fPeriodSize params) /\
  (forall (l : JackPortList) (k : Z),
      JackOptimizedPortList.count_active (fPortBuffer l) * sizeof_sample_t
        <= fPacketSize l ->
      fPacketSize l < 2 ^ 31 ->
      0 <= k <= 30 ->
      fPeriodSize l = 2 ^ k ->
      exists l' n,
        JackOptimizedPortList.GetNumPackets l = Ok (l', n) /\
        is_pow2 (fSubPeriodSize l') /\
        fSubPeriodSize l' <= fPeriodSize l' /\
        n * fSubPeriodSize l' = fPeriodSize l') /\
  (forall (params : session_params.t) (nports : Z),
      session_params.fMtu params = 1500 ->
      Z.max (session_params.fReturnAudioChannels params)
            (session_params.fSendAudioChannels params) = 2 ->
      session_params.fPeriodSize params = 1024 ->
      0 <= nports < 2 ^ 31 ->
      exists l,
        JackPortList_new params nports = Ok l /\
        fSubPeriodSize l = 128 /\
        GetNumPackets l = Ok 8) /\
  (forall (l : JackPortList),
      fPacketSize l = 1500 - HEADER_SIZE ->
      JackOptimizedPortList.count_active (fPortBuffer l) = 2 ->
      fPeriodSize l = 1024 ->
      exists l',
        JackOptimizedPortList.GetNumPackets l = Ok (l', 8) /\
        fSubPeriodSize l' = 128).
Proof.
  split; [| split; [| split]].
  - intros params nports k Hs Hr Hroom Hmtu Hk Hp Hn.
    set (send := session_params.fSendAudioChannels params) in *.
    set (ret := session_params.fReturnAudioChannels params) in *.
    assert (Hsub : exists j, 0 <= j <= k /\
              (if (send =? 0) && (ret =? 0)
               then Ok (2 ^ k)
               else sub_period
                      (i32 (u64 (session_params.fMtu params - HEADER_SIZE)))
                      (u64 (Z.max ret send * sizeof_sample_t)) (2 ^ k))
              = Ok (2 ^ j)).
    { destruct ((send =? 0) && (ret =? 0)) eqn:Hz.
      - exists k. split; [lia | reflexivity].
      - assert (Hc : 0 < Z.max ret send).
        { apply andb_false_iff in Hz.
          destruct Hz as [Hz | Hz]; apply Z.eqb_neq in Hz; lia. }
        unfold sizeof_sample_t in *.
        rewrite (u64_id (session_params.fMtu params - HEADER_SIZE)) by lia.
        rewrite i32_id by lia. rewrite u64_id by lia.
        apply sub_period_pow2; lia. }
    destruct Hsub as [j [Hj Hsub]].
    destruct (packets_of_pow2 j k) as [Hnz Hmul]; try lia.
    unfold JackPortList_new. fold send. fold ret. rewrite Hp, Hsub.
    cbn [bind]. rewrite i32_nports by exact Hn. rewrite Hnz.
    eexists. eexists. split; [reflexivity |].
    unfold GetNumPackets. cbn [fSubPeriodSize fPeriodSize]. rewrite Hnz.
    split; [reflexivity |]. split; [exists j; split; [lia | reflexivity] |].
    split; [apply Z.pow_le_mono_r; lia | exact Hmul].
  - intros l k Hroom Hpk Hk Hp.
    pose proof (count_active_nonneg (fPortBuffer l)) as Hc.
    set (active := JackOptimizedPortList.count_active (fPortBuffer l)) in *.
    assert (Hsub : exists j, 0 <= j <= k /\
              (if active =? 0
               then Ok (2 ^ k)
               else sub_period (fPacketSize l) (u64 (active * sizeof_sample_t))
                      (2 ^ k))
              = Ok (2 ^ j)).
    { destruct (active =? 0) eqn:Hz.
      - exists k. split; [lia | reflexivity].
      - apply Z.eqb_neq in Hz. unfold sizeof_sample_t in *.
        rewrite u64_id by lia. apply sub_period_pow2; lia. }
    destruct Hsub as [j [Hj Hsub]].
    destruct (packets_of_pow2 j k) as [Hnz Hmul]; try lia.
    unfold JackOptimizedPortList.GetNumPackets. fold active.
    rewrite Hp, Hsub. cbn [bind]. rewrite Hnz.
    eexists. eexists. split; [reflexivity |].
    cbn [set_fSubPeriod fSubPeriodSize fPeriodSize]. rewrite Hp.
    split; [exists j; split; [lia | reflexivity] |].
    split; [apply Z.pow_le_mono_r; lia | exact Hmul].
  - intros params nports Hmtu Hc Hp Hn. unfold JackPortList_new.
    rewrite Hmtu, Hc, Hp.
    replace ((session_params.fSendAudioChannels params =? 0)
             && (session_params.fReturnAudioChannels params =? 0))
      with false.
    + rewrite i32_nports by exact Hn.
      assert (Hsub : sub_period (i32 (u64 (1500 - HEADER_SIZE)))
                       (u64 (2 * sizeof_sample_t)) 1024 = Ok 128)
        by (vm_compute; reflexivity).
      rewrite Hsub. cbn [bind Z.eqb].
      eexists. split; [reflexivity |].
      split; reflexivity.
    + symmetry. apply andb_false_iff.
      destruct (Z.max_spec (session_params.fReturnAudioChannels params)
                  (session_params.fSendAudioChannels params))
        as [[_ Hm] | [_ Hm]].
      * left. apply Z.eqb_neq. lia.
      * right. apply Z.eqb_neq. lia.
  - intros l Hpk Hc Hp. unfold JackOptimizedPortList.GetNumPackets.
    rewrite Hpk, Hc, Hp.
    assert (Hsub : sub_period (1500 - HEADER_SIZE)
                     (u64 (2 * sizeof_sample_t)) 1024 = Ok 128)
      by (vm_compute; reflexivity).
    cbn [Z.eqb]. rewrite Hsub. cbn [bind Z.eqb].
    eexists. split; reflexivity.
Qed.

Lemma frame_layout_power_of_two_witness :
  exists l n,
    JackPortList_new (audio_session 1500 2 2 48000 1024) 2 = Ok l /\
    GetNumPackets l = Ok n /\
    is_pow2 (fSubPeriodSize l) /\
    fSubPeriodSize l
      <= session_params.fPeriodSize (audio_session 1500 2 2 48000 1024) /\
    n * fSubPeriodSize l
      = session_params.fPeriodSize (audio_session 1500 2 2 48000 1024).
Proof.
  apply (proj1 frame_layout_power_of_two
           (audio_session 1500 2 2 48000 1024) 2 10).
  - simpl. lia.
  - simpl. lia.
  - vm_compute. discriminate.
  - vm_compute. reflexivity.
  - lia.
  - reflexivity.
  - lia.
Defined.

End FrameLayoutClaims.

(** ** What a call changes in the list *)

Section Frames.

Lemma bind_Ok {A B : Type} (c : outcome A) (k : A -> outcome B) (b : B) :
  bind c k = Ok b -> exists a, c = Ok a /\ k a = Ok b.
Proof.
  destruct c as [a | |]; cbn [bind]; try discriminate.
  intros H. exists a. split; [reflexivity | exact H].
Qed.

Lemma check_sub_cycle_Ok (last sub_cycle res : Z) (log : list log_entry) :
  check_sub_cycle last sub_cycle = Ok (res, log) ->
  INT_MIN <= last + 1 <= INT_MAX /\
  ((sub_cycle = last + 1 /\ res = 0 /\ log = []) \/
   (sub_cycle <> last + 1 /\ res = NET_PACKET_ERROR /\
    log = [PacketsMissing last sub_cycle])).
Proof.
  unfold check_sub_cycle, int_op.
  destruct ((INT_MIN <=? last + 1) && (last + 1 <=? INT_MAX)) eqn:Hr;
    cbn [bind]; try discriminate.
  apply andb_true_iff in Hr. destruct Hr as [H1 H2].
  apply Z.leb_le in H1. apply Z.leb_le in H2.
  destruct (sub_cycle =? last + 1) eqn:Heq; intros H; injection H as <- <-.
  - apply Z.eqb_eq in Heq. split; [lia |]. left. repeat split. exact Heq.
  - apply Z.eqb_neq in Heq. split; [lia |]. right. repeat split. exact Heq.
Qed.

(** [JackPortList::RenderFromNetwork] replaces the port buffers by the
    result of the copy loop and the last sub-cycle by the one received,
    and nothing else. *)
Lemma RenderFromNetwork_Ok (be : bool) (l : JackPortList) (net : list Z)
    (cycle sub_cycle copy_size port_num : Z)
    (l' : JackPortList) (res : Z) (log : list log_entry) :
  RenderFromNetwork be l net cycle sub_cycle copy_size port_num
    = Ok (l', res, log) ->
  exists ports,
    render_ports_from_network be (fSubPeriodSize l) (fSubPeriodBytesSize l)
      net sub_cycle (fPortBuffer l) 0 = Ok ports /\
    check_sub_cycle (fLastSubCycle l) sub_cycle = Ok (res, log) /\
    l' = set_fLastSubCycle (set_fPortBuffer l ports) sub_cycle.
Proof.
  unfold RenderFromNetwork. intros H.
  apply bind_Ok in H. destruct H as [ports [Hports H]].
  apply bind_Ok in H. destruct H as [[res0 log0] [Hcheck H]].
  injection H as <- <- <-. exists ports. repeat split; assumption.
Qed.

(** [JackOptimizedPortList::RenderFromNetwork]: with [port_num > 0] as
    above; with [port_num = 0] only the port buffers can change. *)
Lemma Opt_RenderFromNetwork_Ok (l : JackPortList) (net : list Z)
    (cycle sub_cycle copy_size port_num : Z)
    (l' : JackPortList) (res : Z) (log : list log_entry) :
  JackOptimizedPortList.RenderFromNetwork l net cycle sub_cycle copy_size
    port_num = Ok (l', res, log) ->
  exists ports,
    (0 < port_num /\
     check_sub_cycle (fLastSubCycle l) sub_cycle = Ok (res, log) /\
     l' = set_fLastSubCycle (set_fPortBuffer l ports) sub_cycle) \/
    (port_num <= 0 /\ res = 0 /\ log = [] /\ l' = set_fPortBuffer l ports).
Proof.
  unfold JackOptimizedPortList.RenderFromNetwork. intros H.
  apply bind_Ok in H. destruct H as [ports0 [_ H]].
  destruct (port_num >? 0) eqn:Hpn.
  - rewrite Z.gtb_ltb in Hpn. apply Z.ltb_lt in Hpn.
    apply bind_Ok in H. destruct H as [sub [_ H]].
    apply bind_Ok in H. destruct H as [ports1 [_ H]].
    apply bind_Ok in H. destruct H as [[res0 log0] [Hcheck H]].
    injection H as <- <- <-. exists ports1. left. repeat split; assumption.
  - rewrite Z.gtb_ltb in Hpn. apply Z.ltb_ge in Hpn.
    injection H as <- <- <-. exists ports0. right. repeat split. exact Hpn.
Qed.

Lemma GetNumPackets_Ok (l l' : JackPortList) (n : Z) :
  JackOptimizedPortList.GetNumPackets l = Ok (l', n) ->
  exists sub,
    l' = set_fSubPeriod l sub (u64 (sub * sizeof_sample_t + sizeof_uint32_t))
    /\ sub <> 0 /\ n = i32 (fPeriodSize l / sub).
Proof.
  unfold JackOptimizedPortList.GetNumPackets. intros H.
  apply bind_Ok in H. destruct H as [sub [_ H]].
  destruct (sub =? 0) eqn:Hsub; try discriminate.
  injection H as <- <-. apply Z.eqb_neq in Hsub.
  exists sub. repeat split. exact Hsub.
Qed.

Lemma ActivePortsFromNetwork_Ok (be : bool) (l : JackPortList) (net : list Z)
    (port_num : Z) (l' : JackPortList) (log : list log_entry) :
  JackOptimizedPortList.ActivePortsFromNetwork be l net port_num = Ok (l', log) ->
  exists ports, l' = set_fPortBuffer l ports.
Proof.
  unfold JackOptimizedPortList.ActivePortsFromNetwork. intros H.
  apply bind_Ok in H. destruct H as [[ports log0] [_ H]].
  injection H as <- <-. exists ports. reflexivity.
Qed.

Lemma SetBuffer_Ok (l : JackPortList) (index : Z) (buffer : sample_ptr)
    (l' : JackPortList) :
  SetBuffer l index buffer = Ok l' ->
  exists ports, l' = set_fPortBuffer l ports.
Proof.
  unfold SetBuffer. intros H.
  apply bind_Ok in H. destruct H as [ports [_ H]].
  injection H as <-. exists ports. reflexivity.
Qed.

(** C10. [GetCycleSize] and [GetCycleDuration] return the values the
    constructor has computed from the session parameters,
    [fMtu * (fPeriodSize / fSubPeriodSize)] in [uint32_t] arithmetic and
    [float(fSubPeriodSize) / float(fSampleRate)].
    [JackOptimizedPortList::GetNumPackets] assigns [fSubPeriodSize] and
    [fSubPeriodBytesSize] and leaves both values as they were, as do the
    other operations; after a cycle sized for one active port the cycle
    size is still the one of the construction-time layout. *)
Theorem cycle_size_fixed_at_construction :
  (forall (params : session_params.t) (nports : Z) (l : JackPortList),
      JackPortList_new params nports = Ok l ->
      GetCycleSize l =
        u32 (session_params.fMtu params
             * (session_params.fPeriodSize params / fSubPeriodSize l)) /\
      GetCycleDuration l =
        Float32.div (Float32.of_Z (fSubPeriodSize l))
          (Float32.of_Z (session_params.fSampleRate params))) /\
  (forall (l l' : JackPortList) (n : Z),
      JackOptimizedPortList.GetNumPackets l = Ok (l', n) ->
      same_pacing l l' /\
      fSubPeriodBytesSize l' =
        u64 (fSubPeriodSize l' * sizeof_sample_t + sizeof_uint32_t) /\
      n = i32 (fPeriodSize l / fSubPeriodSize l')) /\
  (forall (be : bool) (l : JackPortList),
      same_pacing l (RenderToJackPorts be l)) /\
  (forall (be : bool) (l : JackPortList) (net : list Z)
          (cycle sub_cycle copy_size port_num : Z)
          (l' : JackPortList) (res : Z) (log : list log_entry),
      RenderFromNetwork be l net cycle sub_cycle copy_size port_num
        = Ok (l', res, log) ->
      same_pacing l l') /\
  (forall (l : JackPortList) (net : list Z)
          (cycle sub_cycle copy_size port_num : Z)
          (l' : JackPortList) (res : Z) (log : list log_entry),
      JackOptimizedPortList.RenderFromNetwork l net cycle sub_cycle
        copy_size port_num = Ok (l', res, log) ->
      same_pacing l l') /\
  (forall (be : bool) (l : JackPortList) (net : list Z) (port_num : Z)
          (l' : JackPortList) (log : list log_entry),
      JackOptimizedPortList.ActivePortsFromNetwork be l net port_num
        = Ok (l', log) ->
      same_pacing l l') /\
  (forall (l : JackPortList) (index : Z) (buffer : sample_ptr)
          (l' : JackPortList),
      SetBuffer l index buffer = Ok l' -> same_pacing l l') /\
  (exists l0 l1 l2,
      JackPortList_new (audio_session 1500 2 2 48000 1024) 2 = Ok l0 /\
      SetBuffer l0 0 (BufPtr (repeat 0 4096)) = Ok l1 /\
      JackOptimizedPortList.GetNumPackets l1 = Ok (l2, 4) /\
      fSubPeriodSize l0 = 128 /\ fSubPeriodSize l2 = 256 /\
      fSubPeriodBytesSize l0 = 512 /\ fSubPeriodBytesSize l2 = 1028 /\
      GetCycleSize l2 = 1500 * 8 /\
      GetCycleDuration l2 = GetCycleDuration l0).
Proof.
  split; [| split; [| split; [| split; [| split; [| split; [| split]]]]]].
  - intros params nports l H.
    apply JackPortList_new_fields in H.
    destruct H as (_ & _ & _ & _ & Hsize & Hdur & _).
    split; assumption.
  - intros l l' n H. apply GetNumPackets_Ok in H.
    destruct H as [sub [-> [_ ->]]]. repeat split.
  - intros be l. destruct be; split; reflexivity.
  - intros be l net cycle sub_cycle copy_size port_num l' res log H.
    apply RenderFromNetwork_Ok in H. destruct H as [ports [_ [_ ->]]].
    split; reflexivity.
  - intros l net cycle sub_cycle copy_size port_num l' res log H.
    apply Opt_RenderFromNetwork_Ok in H.
    destruct H as [ports [(_ & _ & ->) | (_ & _ & _ & ->)]];
      split; reflexivity.
  - intros be l net port_num l' log H.
    apply ActivePortsFromNetwork_Ok in H. destruct H as [ports ->].
    split; reflexivity.
  - intros l index buffer l' H.
    apply SetBuffer_Ok in H. destruct H as [ports ->]. split; reflexivity.
  - eexists. eexists. eexists.
    split; [vm_compute; reflexivity |]. split; [vm_compute; reflexivity |].
    split; [vm_compute; reflexivity |]. repeat split.
Qed.

Lemma cycle_size_fixed_at_construction_witness :
  exists l' n,
    JackOptimizedPortList.GetNumPackets (mono_list 0) = Ok (l', n) /\
    same_pacing (mono_list 0) l'.
Proof.
  eexists. eexists. split.
  - vm_compute. reflexivity.
  - apply (proj1 (proj2 cycle_size_fixed_at_construction) (mono_list 0) _ 8).
    vm_compute. reflexivity.
Defined.

End Frames.

(** ** Loss detection *)

Section LossDetection.

Lemma mono_list_constructed (fill : Z) :
  (l <- JackPortList_new mono_session 1 ;;
   SetBuffer l 0 (BufPtr (repeat fill 64))) = Ok (mono_list fill).
Proof. reflexivity. Qed.

Lemma check_sub_cycle_total (last sub_cycle : Z) :
  INT_MIN <= last + 1 <= INT_MAX ->
  exists res log, check_sub_cycle last sub_cycle = Ok (res, log).
Proof.
  intros H. unfold check_sub_cycle, int_op.
  replace ((INT_MIN <=? last + 1) && (last + 1 <=? INT_MAX)) with true.
  - cbn [bind]. destruct (sub_cycle =? last + 1); eexists; eexists; reflexivity.
  - symmetry. apply andb_true_iff. split; apply Z.leb_le; lia.
Qed.

Lemma check_sub_cycle_status (last s res : Z) (log : list log_entry) :
  check_sub_cycle last s = Ok (res, log) ->
  res = (if s =? last + 1 then 0 else NET_PACKET_ERROR).
Proof.
  intros H. apply check_sub_cycle_Ok in H.
  destruct H as [_ [(Heq & -> & _) | (Hne & -> & _)]].
  - apply Z.eqb_eq in Heq. rewrite Heq. reflexivity.
  - apply Z.eqb_neq in Hne. rewrite Hne. reflexivity.
Qed.

Lemma RenderFromNetwork_detects (be : bool) (cycle copy_size port_num : Z) :
  detects (fun l net s =>
             RenderFromNetwork be l net cycle s copy_size port_num).
Proof.
  intros l net s l' res log H. apply RenderFromNetwork_Ok in H.
  destruct H as [ports [_ [Hcheck ->]]].
  split; [reflexivity | exact (check_sub_cycle_status _ _ _ _ Hcheck)].
Qed.

Lemma Opt_RenderFromNetwork_detects (cycle copy_size port_num : Z) :
  0 < port_num ->
  detects (fun l net s =>
             JackOptimizedPortList.RenderFromNetwork l net cycle s copy_size
               port_num).
Proof.
  intros Hpn l net s l' res log H. apply Opt_RenderFromNetwork_Ok in H.
  destruct H as [ports [(_ & Hcheck & ->) | (Hle & _)]]; [| lia].
  split; [reflexivity | exact (check_sub_cycle_status _ _ _ _ Hcheck)].
Qed.

Lemma last_cons_default (l : list Z) :
  forall s d, last (s :: l) d = last l s.
Proof.
  induction l as [| x rest IH]; intros s d; [reflexivity |].
  change (last (s :: x :: rest) d) with (last (x :: rest) d).
  rewrite !IH. reflexivity.
Qed.

(** Successive calls report a missing packet at each sub-cycle that does
    not follow the one before, and end on the last sub-cycle fed. *)
Lemma feed_statuses (render : receive_call) :
  detects render ->
  forall packets l l' statuses,
    feed render l packets = Ok (l', statuses) ->
    statuses = expected_statuses (fLastSubCycle l) (map snd packets) /\
    fLastSubCycle l' = last (map snd packets) (fLastSubCycle l).
Proof.
  intros Hd packets.
  induction packets as [| [net s] rest IH]; intros l l' statuses H.
  - injection H as <- <-. split; reflexivity.
  - cbn [feed] in H.
    apply bind_Ok in H. destruct H as [[[l1 res] log] [Hcall H]].
    apply bind_Ok in H. destruct H as [[l2 st] [Hrest H]].
    injection H as <- <-.
    apply Hd in Hcall. destruct Hcall as [Hlast ->].
    apply IH in Hrest. destruct Hrest as [-> Hend].
    rewrite Hlast in *. cbn [map snd expected_statuses]. split.
    + reflexivity.
    + rewrite last_cons_default. exact Hend.
Qed.

Lemma status_iff (s last res : Z) :
  res = (if s =? last + 1 then 0 else NET_PACKET_ERROR) ->
  (res = NET_PACKET_ERROR <-> s <> last + 1).
Proof.
  intros ->. destruct (s =? last + 1) eqn:Heq.
  - apply Z.eqb_eq in Heq. split; [discriminate | intros Hn; contradiction].
  - apply Z.eqb_neq in Heq. split; [intros _; exact Heq | reflexivity].
Qed.

(** The data a call copies does not depend on the last sub-cycle. *)
Lemma RenderFromNetwork_data (be : bool) (l : JackPortList) (net : list Z)
    (cycle s copy_size port_num : Z) (l' : JackPortList) (res : Z)
    (log : list log_entry) (last : Z) :
  RenderFromNetwork be l net cycle s copy_size port_num = Ok (l', res, log) ->
  INT_MIN <= last + 1 <= INT_MAX ->
  exists l2 res2 log2,
    RenderFromNetwork be (set_fLastSubCycle l last) net cycle s copy_size
      port_num = Ok (l2, res2, log2) /\
    fPortBuffer l2 = fPortBuffer l'.
Proof.
  intros H Hlast. apply RenderFromNetwork_Ok in H.
  destruct H as [ports [Hports [_ ->]]].
  destruct (check_sub_cycle_total last s Hlast) as [res2 [log2 Hcheck]].
  unfold RenderFromNetwork.
  cbn [set_fLastSubCycle fSubPeriodSize fSubPeriodBytesSize fPortBuffer
       fLastSubCycle].
  rewrite Hports, Hcheck. cbn [bind].
  eexists. eexists. eexists. split; reflexivity.
Qed.

Lemma Opt_RenderFromNetwork_data (l : JackPortList) (net : list Z)
    (cycle s copy_size port_num : Z) (l' : JackPortList) (res : Z)
    (log : list log_entry) (last : Z) :
  JackOptimizedPortList.RenderFromNetwork l net cycle s copy_size port_num
    = Ok (l', res, log) ->
  INT_MIN <= last + 1 <= INT_MAX ->
  exists l2 res2 log2,
    JackOptimizedPortList.RenderFromNetwork (set_fLastSubCycle l last) net
      cycle s copy_size port_num = Ok (l2, res2, log2) /\
    fPortBuffer l2 = fPortBuffer l'.
Proof.
  intros H Hlast.
  destruct (check_sub_cycle_total last s Hlast) as [res2 [log2 Hcheck]].
  unfold JackOptimizedPortList.RenderFromNetwork in *.
  cbn [set_fLastSubCycle fPeriodSize fPacketSize fPortBuffer fLastSubCycle].
  apply bind_Ok in H. destruct H as [ports0 [-> H]]. cbn [bind].
  destruct (port_num >? 0).
  - apply bind_Ok in H. destruct H as [sub [-> H]]. cbn [bind].
    apply bind_Ok in H. destruct H as [ports1 [-> H]]. cbn [bind].
    apply bind_Ok in H. destruct H as [[res0 log0] [_ H]].
    injection H as <- _ _. rewrite Hcheck. cbn [bind].
    eexists. eexists. eexists. split; reflexivity.
  - injection H as <- _ _.
    eexists. eexists. eexists. split; reflexivity.
Qed.

(** C2, on the optimized list with no active port: a packet with
    sub-cycle 0 leaves the last sub-cycle at -1, and a packet with
    sub-cycle 3 is accepted with status 0 although 3 is not the
    successor of -1. *)
Lemma loss_detection_skipped_without_active_port :
  (exists l',
      JackOptimizedPortList.RenderFromNetwork (mono_list 0) [] 0 0 0 0
        = Ok (l', 0, []) /\
      fLastSubCycle l' = -1 /\ fLastSubCycle l' <> 0) /\
  (exists l',
      JackOptimizedPortList.RenderFromNetwork (mono_list 0) [] 0 3 0 0
        = Ok (l', 0, []) /\
      3 <> fLastSubCycle (mono_list 0) + 1 /\
      fLastSubCycle l' <> 3).
Proof.
  split; eexists; (split; [vm_compute; reflexivity |]);
    split; vm_compute; try reflexivity; intros H; discriminate H.
Qed.

(** C2 (amended). A call of [JackPortList::RenderFromNetwork], and a call
    of [JackOptimizedPortList::RenderFromNetwork] with [port_num > 0],
    returns [NET_PACKET_ERROR] if and only if the sub-cycle differs from
    [fLastSubCycle + 1], copies the same data whatever the last
    sub-cycle was, and sets [fLastSubCycle] to the sub-cycle received.
    With [port_num = 0] the optimized call returns 0 and leaves
    [fLastSubCycle] as it was.  Fed the sub-cycles 0, 1, 3, 4 after a
    cycle start, the calls return 0, 0, [NET_PACKET_ERROR], 0 and
    [fLastSubCycle] ends at 4. *)
Theorem loss_detection :
  (forall (be : bool) (l : JackPortList) (net : list Z)
          (cycle s copy_size port_num : Z)
          (l' : JackPortList) (res : Z) (log : list log_entry),
      RenderFromNetwork be l net cycle s copy_size port_num
        = Ok (l', res, log) ->
      (res = NET_PACKET_ERROR <-> s <> fLastSubCycle l + 1) /\
      fLastSubCycle l' = s /\
      (forall last, INT_MIN <= last + 1 <= INT_MAX ->
         exists l2 res2 log2,
           RenderFromNetwork be (set_fLastSubCycle l last) net cycle s
             copy_size port_num = Ok (l2, res2, log2) /\
           fPortBuffer l2 = fPortBuffer l')) /\
  (forall (l : JackPortList) (net : list Z)
          (cycle s copy_size port_num : Z)
          (l' : JackPortList) (res : Z) (log : list log_entry),
      JackOptimizedPortList.RenderFromNetwork l net cycle s copy_size
        port_num = Ok (l', res, log) ->
      (0 < port_num ->
       (res = NET_PACKET_ERROR <-> s <> fLastSubCycle l + 1) /\
       fLastSubCycle l' = s) /\
      (port_num <= 0 ->
       res = 0 /\ log = [] /\ fLastSubCycle l' = fLastSubCycle l) /\
      (forall last, INT_MIN <= last + 1 <= INT_MAX ->
         exists l2 res2 log2,
           JackOptimizedPortList.RenderFromNetwork (set_fLastSubCycle l last)
             net cycle s copy_size port_num = Ok (l2, res2, log2) /\
           fPortBuffer l2 = fPortBuffer l')) /\
  (forall (be : bool) (l : JackPortList) (n0 n1 n3 n4 : list Z)
          (cycle copy_size port_num : Z)
          (l' : JackPortList) (statuses : list Z),
      fLastSubCycle l = -1 ->
      feed (fun l net s =>
              RenderFromNetwork be l net cycle s copy_size port_num)
        l [(n0, 0); (n1, 1); (n3, 3); (n4, 4)] = Ok (l', statuses) ->
      statuses = [0; 0; NET_PACKET_ERROR; 0] /\ fLastSubCycle l' = 4) /\
  (forall (l : JackPortList) (n0 n1 n3 n4 : list Z)
          (cycle copy_size port_num : Z)
          (l' : JackPortList) (statuses : list Z),
      0 < port_num ->
      fLastSubCycle l = -1 ->
      feed (fun l net s =>
              JackOptimizedPortList.RenderFromNetwork l net cycle s
                copy_size port_num)
        l [(n0, 0); (n1, 1); (n3, 3); (n4, 4)] = Ok (l', statuses) ->
      statuses = [0; 0; NET_PACKET_ERROR; 0] /\ fLastSubCycle l' = 4).
Proof.
  split; [| split; [| split]].
  - intros be l net cycle s copy_size port_num l' res log H.
    pose proof (RenderFromNetwork_detects be cycle copy_size port_num
                  l net s l' res log H) as [Hlast Hres].
    split; [exact (status_iff _ _ _ Hres) |].
    split; [exact Hlast |].
    intros last Hrange. exact (RenderFromNetwork_data _ _ _ _ _ _ _ _ _ _ _ H Hrange).
  - intros l net cycle s copy_size port_num l' res log H.
    split; [| split].
    + intros Hpn.
      pose proof (Opt_RenderFromNetwork_detects cycle copy_size port_num Hpn
                    l net s l' res log H) as [Hlast Hres].
      split; [exact (status_iff _ _ _ Hres) | exact Hlast].
    + intros Hpn. apply Opt_RenderFromNetwork_Ok in H.
      destruct H as [ports [(Hpos & _) | (_ & -> & -> & ->)]]; [lia |].
      repeat split.
    + intros last Hrange.
      exact (Opt_RenderFromNetwork_data _ _ _ _ _ _ _ _ _ _ H Hrange).
  - intros be l n0 n1 n3 n4 cycle copy_size port_num l' statuses Hfresh H.
    apply (feed_statuses _ (RenderFromNetwork_detects be cycle copy_size
                              port_num)) in H.
    rewrite Hfresh in H. exact H.
  - intros l n0 n1 n3 n4 cycle copy_size port_num l' statuses Hpn Hfresh H.
    apply (feed_statuses _ (Opt_RenderFromNetwork_detects cycle copy_size
                              port_num Hpn)) in H.
    rewrite Hfresh in H. exact H.
Qed.

End LossDetection.

Section CycleBoundary.

Lemma loss_detection_witness :
  exists l' statuses,
    feed (fun l net s => RenderFromNetwork false l net 0 s 8 1)
      (mono_list 0)
      [(repeat 1 8, 0); (repeat 2 8, 1); (repeat 3 8, 3); (repeat 4 8, 4)]
      = Ok (l', statuses) /\
    statuses = [0; 0; NET_PACKET_ERROR; 0] /\ fLastSubCycle l' = 4.
Proof.
  eexists. eexists. split.
  - vm_compute. reflexivity.
  - apply (proj1 (proj2 (proj2 loss_detection)) false (mono_list 0)
             (repeat 1 8) (repeat 2 8) (repeat 3 8) (repeat 4 8) 0 8 1).
    + reflexivity.
    + vm_compute. reflexivity.
Defined.

(** On a little-endian build the call that ends a cycle resets the last
    sub-cycle, and the first packet of the next cycle, with sub-cycle 0,
    is accepted by both lists. *)
Lemma little_endian_cycle_end_resets (l : JackPortList) :
  fLastSubCycle (RenderToJackPorts false l) = -1 /\
  (forall net cycle copy_size port_num l' res log,
      RenderFromNetwork false (RenderToJackPorts false l) net cycle 0
        copy_size port_num = Ok (l', res, log) ->
      res = 0 /\ log = []) /\
  (forall net cycle copy_size port_num l' res log,
      JackOptimizedPortList.RenderFromNetwork (RenderToJackPorts false l) net
        cycle 0 copy_size port_num = Ok (l', res, log) ->
      res = 0 /\ log = []).
Proof.
  split; [reflexivity |]. split.
  - intros net cycle copy_size port_num l' res log H.
    apply RenderFromNetwork_Ok in H. destruct H as [ports [_ [Hcheck _]]].
    cbn in Hcheck. injection Hcheck as <- <-. split; reflexivity.
  - intros net cycle copy_size port_num l' res log H.
    apply Opt_RenderFromNetwork_Ok in H.
    destruct H as [ports [(_ & Hcheck & _) | (_ & -> & -> & _)]].
    + cbn in Hcheck. injection Hcheck as <- <-. split; reflexivity.
    + split; reflexivity.
Qed.

Lemma NetFloatAudioBuffer1_cycle_end_resets (b : NetFloatAudioBuffer1.t) :
  NetFloatAudioBuffer1.fLastSubCycle
    (NetFloatAudioBuffer1.RenderToJackPorts b) = -1.
Proof. reflexivity. Qed.

(** C8, on a big-endian build. [RenderToJackPorts] has an empty body
    there and leaves [fLastSubCycle] as it is: after a cycle whose
    packets 0 and 1 have been received, the first packet of the next
    cycle, with sub-cycle 0, is compared with 2 and reported as
    missing. *)
Theorem big_endian_cycle_end_keeps_last_sub_cycle :
  (forall l : JackPortList, RenderToJackPorts true l = l) /\
  (exists l1 l2,
      feed (fun l net s => RenderFromNetwork true l net 0 s 8 1)
        (mono_list 0) [(repeat 1 8, 0); (repeat 2 8, 1)]
        = Ok (l1, [0; 0]) /\
      fLastSubCycle (RenderToJackPorts true l1) = 1 /\
      RenderFromNetwork true (RenderToJackPorts true l1) (repeat 3 8) 1 0 8 1
        = Ok (l2, NET_PACKET_ERROR, [PacketsMissing 1 0])).
Proof.
  split; [reflexivity |].
  eexists. eexists. split; [vm_compute; reflexivity |].
  split; [reflexivity | vm_compute; reflexivity].
Qed.

End CycleBoundary.

(** ** The optimized layout with a sparse set of active ports *)

Section SparseActivePorts.

Lemma sparse_packet :
  (s <- sparse_sender ;;
   JackOptimizedPortList.RenderToNetwork s (repeat 0 1460) 0)
  = Ok (u32_bytes 1 ++ channel_data 1
          ++ u32_bytes 5 ++ channel_data 5
          ++ u32_bytes 7 ++ channel_data 7 ++ repeat 0 1400, 3, 60).
Proof. vm_compute. reflexivity. Qed.

(** C3, with eight channels of which 1, 5 and 7 are active. The
    receiver tests the slot of the position in the packet, not the slot
    of the port the packet names: the data of port 5, at position 1, is
    copied, and the data of ports 1 and 7, at positions 0 and 2, is
    dropped, which leaves the zeros of the cleanup in their buffers. *)
Theorem sparse_round_trip_drops_ports :
  exists r,
    sparse_round_trip = Ok (r, 0, []) /\
    GetBuffer r 5 = Ok (BufPtr (channel_data 5)) /\
    GetBuffer r 1 = Ok (BufPtr (repeat 0 16)) /\
    GetBuffer r 7 = Ok (BufPtr (repeat 0 16)) /\
    GetBuffer r 1 <> Ok (BufPtr (channel_data 1)) /\
    GetBuffer r 7 <> Ok (BufPtr (channel_data 7)).
Proof.
  eexists. split; [vm_compute; reflexivity |].
  repeat split; try (vm_compute; reflexivity); vm_compute; discriminate.
Qed.

End SparseActivePorts.

(** ** Memory and arrays *)

Section Memory.

Lemma len_nonneg {A : Type} (l : list A) : 0 <= len l.
Proof. unfold len. lia. Qed.

Lemma mem_write_Ok (mem : list Z) (off : Z) (data : list Z) :
  0 <= off -> off + len data <= len mem ->
  mem_write mem off data
  = Ok (firstn (Z.to_nat off) mem ++ data
          ++ skipn (Z.to_nat (off + len data)) mem).
Proof.
  intros H0 H1. unfold mem_write.
  replace (0 <=? off) with true by (symmetry; apply Z.leb_le; lia).
  replace (off + len data <=? len mem) with true
    by (symmetry; apply Z.leb_le; lia).
  reflexivity.
Qed.

Lemma mem_write_inv (mem : list Z) (off : Z) (data mem' : list Z) :
  mem_write mem off data = Ok mem' ->
  0 <= off /\ off + len data <= len mem /\
  mem' = firstn (Z.to_nat off) mem ++ data
           ++ skipn (Z.to_nat (off + len data)) mem.
Proof.
  unfold mem_write.
  destruct ((0 <=? off) && (off + len data <=? len mem)) eqn:Hc;
    try discriminate.
  apply andb_true_iff in Hc. destruct Hc as [H0 H1].
  apply Z.leb_le in H0. apply Z.leb_le in H1.
  intros H. injection H as <-. repeat split; assumption.
Qed.

(** A write keeps the length of the region, keeps the bytes before the
    offset, and is read back at the offset. *)
Lemma written_region (mem : list Z) (off : nat) (data : list Z) :
  (off + length data <= length mem)%nat ->
  let mem' := firstn off mem ++ data ++ skipn (off + length data) mem in
  length mem' = length mem /\
  firstn off mem' = firstn off mem /\
  firstn (length data) (skipn off mem') = data.
Proof.
  intros H mem'. subst mem'. split; [| split].
  - rewrite !length_app, length_firstn, length_skipn. lia.
  - rewrite firstn_app, length_firstn.
    replace (off - Nat.min off (length mem))%nat with 0%nat by lia.
    cbn [firstn]. rewrite app_nil_r. rewrite firstn_firstn.
    f_equal. lia.
  - rewrite skipn_app, length_firstn.
    replace (off - Nat.min off (length mem))%nat with 0%nat by lia.
    cbn [skipn]. rewrite (skipn_all2 (firstn off mem))
      by (rewrite length_firstn; lia).
    cbn [app]. rewrite firstn_app, Nat.sub_diag. cbn [firstn].
    rewrite app_nil_r. apply firstn_all.
Qed.

Lemma mem_read_Ok (mem : list Z) (off n : Z) :
  0 <= off -> 0 <= n -> off + n <= len mem ->
  mem_read mem off n
  = Ok (firstn (Z.to_nat n) (skipn (Z.to_nat off) mem)).
Proof.
  intros H0 H1 H2. unfold mem_read.
  replace (0 <=? off) with true by (symmetry; apply Z.leb_le; lia).
  replace (0 <=? n) with true by (symmetry; apply Z.leb_le; lia).
  replace (off + n <=? len mem) with true by (symmetry; apply Z.leb_le; lia).
  reflexivity.
Qed.

Lemma length_update {A : Type} (a : list A) (i : nat) (x : A) :
  length (update a i x) = length a.
Proof.
  revert i. induction a as [| y rest IH]; intros i; [reflexivity |].
  destruct i; cbn [update length]; [reflexivity | now rewrite IH].
Qed.

Lemma nth_error_update {A : Type} (a : list A) (i j : nat) (x : A) :
  (i < length a)%nat ->
  nth_error (update a i x) j
  = if Nat.eqb j i then Some x else nth_error a j.
Proof.
  revert i j. induction a as [| y rest IH]; intros i j Hi.
  - cbn [length] in Hi. lia.
  - destruct i, j; cbn [update nth_error Nat.eqb]; try reflexivity.
    apply IH. cbn [length] in Hi. lia.
Qed.

Lemma array_set_Ok {A : Type} (a : list A) (i : Z) (x : A) :
  0 <= i < len a -> array_set a i x = Ok (update a (Z.to_nat i) x).
Proof.
  intros H. unfold array_set.
  replace (0 <=? i) with true by (symmetry; apply Z.leb_le; lia).
  replace (i <? len a) with true by (symmetry; apply Z.ltb_lt; lia).
  reflexivity.
Qed.

Lemma array_get_nth {A : Type} (a : list A) (i : Z) :
  0 <= i ->
  array_get a i = match nth_error a (Z.to_nat i) with
                  | Some x => Ok x
                  | None => Undefined
                  end.
Proof.
  intros H. unfold array_get.
  replace (i <? 0) with false by (symmetry; apply Z.ltb_ge; lia).
  reflexivity.
Qed.

End Memory.

(** ** The entries of type [short] *)

Section Shorts.

Lemma i16_u16 (v : Z) : - 2 ^ 15 <= v < 2 ^ 15 -> i16 (v mod 65536) = v.
Proof.
  intros H. unfold i16. change (2 ^ 16) with 65536.
  destruct (Z_lt_le_dec v 0) as [Hn | Hp].
  - replace (v mod 65536) with (v + 65536)
      by (apply Z.mod_unique with (q := -1); lia).
    replace (v + 65536 + 2 ^ 15) with (v + 2 ^ 15 + 1 * 65536) by lia.
    rewrite Z.mod_add by lia. rewrite Z.mod_small; lia.
  - rewrite (Z.mod_small v) by lia. rewrite Z.mod_small; lia.
Qed.

(** A [short] stored is read back on a host of the same byte order. *)
Lemma short_read_back (be : bool) (v : Z) :
  - 2 ^ 15 <= v < 2 ^ 15 -> bytes_short be (short_bytes be v) = v.
Proof.
  intros H. unfold short_bytes, bytes_short.
  pose proof (Z.div_mod (v mod 65536) 256 ltac:(lia)) as Hdm.
  destruct be; cbn [bytes_short].
  - replace (256 * (v mod 65536 / 256) + (v mod 65536) mod 256)
      with (v mod 65536) by lia.
    apply i16_u16. exact H.
  - replace ((v mod 65536) mod 256 + 256 * (v mod 65536 / 256))
      with (v mod 65536) by lia.
    apply i16_u16. exact H.
Qed.

Lemma i16_range (x : Z) : - 2 ^ 15 <= i16 x < 2 ^ 15.
Proof.
  unfold i16. pose proof (Z.mod_pos_bound (x + 2 ^ 15) (2 ^ 16)). lia.
Qed.

Lemma length_short_bytes (be : bool) (v : Z) :
  length (short_bytes be v) = 2%nat.
Proof. unfold short_bytes. destruct be; reflexivity. Qed.

(** The entries read depend only on the bytes before their end. *)
Lemma read_shorts_prefix (be : bool) (net net' : list Z) (n : nat) :
  forall addr,
    0 <= addr ->
    firstn (Z.to_nat addr + 2 * n) net' = firstn (Z.to_nat addr + 2 * n) net ->
    read_shorts be net' addr n = read_shorts be net addr n.
Proof.
  induction n as [| n IH]; intros addr Ha Hpre; [reflexivity |].
  cbn [read_shorts]. f_equal.
  - f_equal. rewrite !firstn_skipn_comm.
    f_equal.
    apply (f_equal (firstn (Z.to_nat addr + 2))) in Hpre.
    rewrite !firstn_firstn in Hpre.
    replace (Nat.min (Z.to_nat addr + 2) (Z.to_nat addr + 2 * S n))
      with (Z.to_nat addr + 2)%nat in Hpre by lia.
    exact Hpre.
  - apply IH; [lia |].
    replace (Z.to_nat (addr + 2) + 2 * n)%nat
      with (Z.to_nat addr + 2 * S n)%nat by lia.
    exact Hpre.
Qed.

End Shorts.

(** ** Encoding the active ports *)

Section ActivePortsEncoding.

Lemma len_cons {A : Type} (x : A) (l : list A) : len (x :: l) = 1 + len l.
Proof. unfold len. cbn [length]. lia. Qed.

Lemma len_active_indices (ports : list sample_ptr) (port_index : Z) :
  len (active_indices ports port_index)
  = JackOptimizedPortList.count_active ports.
Proof.
  revert port_index. induction ports as [| p rest IH]; intros port_index.
  - reflexivity.
  - cbn [active_indices JackOptimizedPortList.count_active].
    destruct (is_set p).
    + rewrite len_cons, IH. reflexivity.
    + rewrite IH. reflexivity.
Qed.

Lemma active_indices_bounds (ports : list sample_ptr) (port_index x : Z) :
  In x (active_indices ports port_index) ->
  port_index <= x < port_index + len ports.
Proof.
  revert port_index. induction ports as [| p rest IH]; intros port_index.
  - intros [].
  - cbn [active_indices]. rewrite len_cons.
    destruct (is_set p).
    + intros [<- | Hin].
      * pose proof (len_nonneg rest). lia.
      * apply IH in Hin. lia.
    + intros Hin. apply IH in Hin. lia.
Qed.

(** With fewer than 512 active ports in all and room in the buffer,
    the loop completes; it has counted the active ports and written
    their indices, as [short], from [addr] on. *)
Lemma write_active_ports_Ok (be : bool) (ports : list sample_ptr) :
  forall (port_index : Z) (net : list Z) (addr port_num : Z),
    let indices := active_indices ports port_index in
    0 <= addr -> 0 <= port_num ->
    port_num + len indices < 512 ->
    addr + 2 * len indices <= len net ->
    exists net',
      JackOptimizedPortList.write_active_ports be ports port_index net addr
        port_num = Ok (net', port_num + len indices) /\
      length net' = length net /\
      firstn (Z.to_nat addr) net' = firstn (Z.to_nat addr) net /\
      read_shorts be net' addr (length indices) = map i16 indices.
Proof.
  induction ports as [| p rest IH];
    intros port_index net addr port_num indices Ha Hn Hlim Hroom.
  - exists net. subst indices. cbn. rewrite Z.add_0_r. repeat split.
  - subst indices.
    cbn [JackOptimizedPortList.write_active_ports active_indices] in *.
    destruct (is_set p).
    + rewrite len_cons in Hlim, Hroom.
      pose proof (len_nonneg (active_indices rest (port_index + 1))) as Hl.
      set (bs := short_bytes be (i16 port_index)).
      assert (Hbs : length bs = 2%nat) by apply length_short_bytes.
      assert (Hlen : len bs = 2) by (unfold len; rewrite Hbs; reflexivity).
      rewrite mem_write_Ok by lia. cbn [bind].
      rewrite u32_id by lia.
      replace (port_num + 1 <? 512) with true
        by (symmetry; apply Z.ltb_lt; lia).
      destruct (written_region net (Z.to_nat addr) bs) as (Hw1 & Hw2 & Hw3).
      { rewrite Hbs. unfold len in Hroom. lia. }
      rewrite Hlen.
      replace (Z.to_nat (addr + 2)) with (Z.to_nat addr + length bs)%nat
        by (rewrite Hbs; lia).
      set (net1 := firstn (Z.to_nat addr) net ++ bs
                     ++ skipn (Z.to_nat addr + length bs) net) in *.
      destruct (IH (port_index + 1) net1 (addr + 2) (port_num + 1))
        as (net' & Hrun & Hl' & Hpre & Hread); try lia.
      { unfold len in *. rewrite Hw1. lia. }
      exists net'. split; [| split; [| split]].
      * rewrite Hrun. rewrite len_cons. f_equal. f_equal. lia.
      * rewrite Hl'. exact Hw1.
      * rewrite <- Hw2.
        apply (f_equal (firstn (Z.to_nat addr))) in Hpre.
        rewrite !firstn_firstn in Hpre.
        replace (Nat.min (Z.to_nat addr) (Z.to_nat (addr + 2)))
          with (Z.to_nat addr) in Hpre by lia.
        exact Hpre.
      * cbn [length read_shorts map]. f_equal.
        -- replace (Z.to_nat (addr + 2)) with (Z.to_nat addr + 2)%nat
             in Hpre by lia.
           rewrite firstn_skipn_comm, Hpre, <- firstn_skipn_comm.
           rewrite <- Hbs, Hw3. apply short_read_back. apply i16_range.
        -- exact Hread.
    + destruct (IH (port_index + 1) net addr port_num)
        as (net' & Hrun & Hrest); try lia.
      exists net'. split; [exact Hrun | exact Hrest].
Qed.

(** A loop that completes has counted fewer than 512 active ports. *)
Lemma write_active_ports_bound (be : bool) (ports : list sample_ptr) :
  forall (port_index : Z) (net : list Z) (addr port_num : Z)
         (net' : list Z) (port_num' : Z),
    0 <= port_num < 512 ->
    JackOptimizedPortList.write_active_ports be ports port_index net addr
      port_num = Ok (net', port_num') ->
    port_num' = port_num + JackOptimizedPortList.count_active ports /\
    port_num' < 512.
Proof.
  induction ports as [| p rest IH];
    intros port_index net addr port_num net' port_num' Hn H.
  - cbn in H. injection H as <- <-.
    cbn [JackOptimizedPortList.count_active]. lia.
  - cbn [JackOptimizedPortList.write_active_ports
         JackOptimizedPortList.count_active] in *.
    destruct (is_set p).
    + apply bind_Ok in H. destruct H as [net1 [_ H]].
      rewrite u32_id in H by lia.
      destruct (port_num + 1 <? 512) eqn:Hlt; try discriminate.
      apply Z.ltb_lt in Hlt. apply IH in H; lia.
    + apply IH in H; lia.
Qed.

(** With 512 active ports or more and room for 512 entries, the
    assertion fails. *)
Lemma write_active_ports_assert (be : bool) (ports : list sample_ptr) :
  forall (port_index : Z) (net : list Z) (addr port_num : Z),
    0 <= addr -> 0 <= port_num < 512 ->
    512 <= port_num + JackOptimizedPortList.count_active ports ->
    addr + 2 * (512 - port_num) <= len net ->
    JackOptimizedPortList.write_active_ports be ports port_index net addr
      port_num = AssertFailed.
Proof.
  induction ports as [| p rest IH];
    intros port_index net addr port_num Ha Hn Hc Hroom.
  - cbn in Hc. lia.
  - cbn [JackOptimizedPortList.write_active_ports
         JackOptimizedPortList.count_active] in *.
    destruct (is_set p).
    + set (bs := short_bytes be (i16 port_index)).
      assert (Hbs : length bs = 2%nat) by apply length_short_bytes.
      assert (Hlen : len bs = 2) by (unfold len; rewrite Hbs; reflexivity).
      rewrite mem_write_Ok by lia. cbn [bind].
      rewrite u32_id by lia.
      destruct (port_num + 1 <? 512) eqn:Hlt; [| reflexivity].
      apply Z.ltb_lt in Hlt. apply IH; try lia.
      destruct (written_region net (Z.to_nat addr) bs) as (Hw1 & _).
      { rewrite Hbs. unfold len in Hroom. lia. }
      rewrite Hlen.
      replace (Z.to_nat (addr + 2)) with (Z.to_nat addr + length bs)%nat
        by (rewrite Hbs; lia).
      unfold len in *. rewrite Hw1. lia.
    + apply IH; lia.
Qed.

(** C9. [ActivePortsToNetwork] asserts after each active port that the
    count is below 512: a call that completes has counted fewer than
    512 active ports, a call with fewer than 512 active ports and room
    in the buffer completes with that count, and a call with 512 active
    ports or more and room for 512 entries fails the assertion. *)
Theorem active_ports_encoding_limit :
  forall (be : bool) (l : JackPortList) (net : list Z),
    let active := JackOptimizedPortList.count_active (fPortBuffer l) in
    (forall net' port_num,
        JackOptimizedPortList.ActivePortsToNetwork be l net
          = Ok (net', port_num) ->
        port_num = active /\ active < 512) /\
    (active < 512 -> 2 * active <= len net ->
     exists net',
       JackOptimizedPortList.ActivePortsToNetwork be l net
         = Ok (net', active)) /\
    (512 <= active -> 1024 <= len net ->
     JackOptimizedPortList.ActivePortsToNetwork be l net = AssertFailed).
Proof.
  intros be l net active.
  unfold JackOptimizedPortList.ActivePortsToNetwork. split; [| split].
  - intros net' port_num H.
    apply write_active_ports_bound in H; [| lia]. subst active. lia.
  - intros Hlt Hroom.
    destruct (write_active_ports_Ok be (fPortBuffer l) 0 net 0 0)
      as (net' & Hrun & _); try lia.
    + rewrite len_active_indices. fold active. lia.
    + rewrite len_active_indices. fold active. lia.
    + exists net'. rewrite Hrun, len_active_indices. reflexivity.
  - intros Hge Hroom. apply write_active_ports_assert; lia.
Qed.

End ActivePortsEncoding.

(** ** Decoding the active ports *)

Section ActivePortsDecoding.

Lemma active_ports_encoding_limit_witness :
  JackOptimizedPortList.ActivePortsToNetwork false (all_active 512)
    (repeat 0 1024) = AssertFailed.
Proof.
  apply (proj2 (proj2 (active_ports_encoding_limit false (all_active 512)
                         (repeat 0 1024)))).
  - vm_compute. discriminate.
  - vm_compute. discriminate.
Defined.

Lemma length_mark_entries (n_ports : Z) (entries : list Z) :
  forall ports,
    length (fst (mark_entries n_ports entries ports)) = length ports.
Proof.
  induction entries as [| e rest IH]; intros ports; [reflexivity |].
  cbn [mark_entries]. destruct (port_in_range n_ports e).
  - rewrite IH. apply length_update.
  - specialize (IH ports).
    destruct (mark_entries n_ports rest ports) as [ps log]. exact IH.
Qed.

(** The messages are those of the entries out of range, in order. *)
Lemma log_mark_entries (n_ports : Z) (entries : list Z) :
  forall ports,
    snd (mark_entries n_ports entries ports)
    = map IncorrectPort
        (filter (fun e => negb (port_in_range n_ports e)) entries).
Proof.
  induction entries as [| e rest IH]; intros ports; [reflexivity |].
  cbn [mark_entries filter]. destruct (port_in_range n_ports e); cbn [negb].
  - apply IH.
  - specialize (IH ports).
    destruct (mark_entries n_ports rest ports) as [ps log].
    cbn [snd map] in *. now rewrite IH.
Qed.

(** A slot is marked if its index is among the entries, and is left as
    it was otherwise. *)
Lemma nth_mark_entries (entries : list Z) :
  forall (ports : list sample_ptr) (i : nat),
    (i < length ports)%nat ->
    nth_error (fst (mark_entries (len ports) entries ports)) i
    = if existsb (Z.eqb (Z.of_nat i)) entries then Some MarkPtr
      else nth_error ports i.
Proof.
  induction entries as [| e rest IH]; intros ports i Hi; [reflexivity |].
  cbn [mark_entries existsb].
  destruct (port_in_range (len ports) e) eqn:Hr.
  - unfold port_in_range in Hr. apply andb_true_iff in Hr.
    destruct Hr as [H0 H1]. apply Z.leb_le in H0. apply Z.ltb_lt in H1.
    unfold len in H1.
    replace (len ports) with (len (update ports (Z.to_nat e) MarkPtr))
      by (unfold len; now rewrite length_update).
    rewrite IH by (rewrite length_update; exact Hi).
    rewrite nth_error_update by lia.
    destruct (Z.of_nat i =? e) eqn:He.
    + apply Z.eqb_eq in He.
      replace (i =? Z.to_nat e)%nat with true
        by (symmetry; apply Nat.eqb_eq; lia).
      cbn [orb]. destruct (existsb _ rest); reflexivity.
    + apply Z.eqb_neq in He.
      replace (i =? Z.to_nat e)%nat with false
        by (symmetry; apply Nat.eqb_neq; lia).
      reflexivity.
  - replace (Z.of_nat i =? e) with false.
    + cbn [orb]. specialize (IH ports i Hi).
      destruct (mark_entries (len ports) rest ports) as [ps log]. exact IH.
    + symmetry. apply Z.eqb_neq. intros <-.
      unfold port_in_range, len in Hr. apply andb_false_iff in Hr.
      destruct Hr as [Hr | Hr];
        [apply Z.leb_gt in Hr | apply Z.ltb_ge in Hr]; lia.
Qed.

(** With the entries inside the buffer the loop completes, and does to
    the slots what [mark_entries] describes. *)
Lemma read_active_ports_Ok (be : bool) (net : list Z) (n : nat) :
  forall (addr : Z) (ports : list sample_ptr),
    0 <= addr -> addr + 2 * Z.of_nat n <= len net ->
    JackOptimizedPortList.read_active_ports be net (len ports) n addr ports
    = Ok (mark_entries (len ports) (read_shorts be net addr n) ports).
Proof.
  induction n as [| n IH]; intros addr ports Ha Hroom; [reflexivity |].
  cbn [JackOptimizedPortList.read_active_ports read_shorts mark_entries].
  rewrite mem_read_Ok by lia. cbn [bind].
  change (Z.to_nat 2) with 2%nat.
  set (port := bytes_short be (firstn 2 (skipn (Z.to_nat addr) net))).
  fold (port_in_range (len ports) port).
  destruct (port_in_range (len ports) port) eqn:Hr.
  - unfold port_in_range in Hr. apply andb_true_iff in Hr.
    destruct Hr as [H0 H1]. apply Z.leb_le in H0. apply Z.ltb_lt in H1.
    rewrite array_set_Ok by lia. cbn [bind].
    assert (Hl : len (update ports (Z.to_nat port) MarkPtr) = len ports)
      by (unfold len; now rewrite length_update).
    pose proof (IH (addr + 2) (update ports (Z.to_nat port) MarkPtr)) as IH'.
    rewrite Hl in IH'. rewrite IH' by lia. cbn [bind].
    destruct (mark_entries _ _ _) as [ps log]. reflexivity.
  - cbn [bind]. rewrite IH by lia. cbn [bind].
    destruct (mark_entries _ _ _) as [ps log]. reflexivity.
Qed.

Lemma nth_error_cleared (n i : nat) :
  (i < n)%nat -> nth_error (repeat NullPtr n) i = Some NullPtr.
Proof.
  revert i. induction n as [| n IH]; intros i Hi; [lia |].
  destruct i; [reflexivity |]. cbn [repeat nth_error]. apply IH. lia.
Qed.

(** C6. [ActivePortsFromNetwork] completes whenever the buffer holds
    the [port_num] entries; it marks a port as active exactly when its
    index, which lies in [0, fNPorts), is among the entries, and
    reports every entry out of that range without stopping: the entries
    after it are still taken, and the ports they name are marked. *)
Theorem active_ports_decoding_checks_range :
  forall (be : bool) (l : JackPortList) (net : list Z) (port_num : Z),
    0 <= port_num -> 2 * port_num <= len net ->
    let entries := read_shorts be net 0 (Z.to_nat port_num) in
    exists l' log,
      JackOptimizedPortList.ActivePortsFromNetwork be l net port_num
        = Ok (l', log) /\
      fNPorts l' = fNPorts l /\
      (forall i, 0 <= i < fNPorts l ->
         GetBuffer l' i = Ok (marked (existsb (Z.eqb i) entries))) /\
      (forall i, i < 0 \/ fNPorts l <= i -> GetBuffer l' i = Undefined) /\
      log = map IncorrectPort
              (filter (fun e => negb (port_in_range (fNPorts l) e)) entries).
Proof.
  intros be l net port_num Hn Hroom entries.
  unfold JackOptimizedPortList.ActivePortsFromNetwork, fNPorts.
  set (cleared := repeat NullPtr (length (fPortBuffer l))).
  assert (Hc : len cleared = len (fPortBuffer l))
    by (unfold len, cleared; now rewrite repeat_length).
  rewrite <- Hc. rewrite read_active_ports_Ok by lia. fold entries.
  cbn [bind].
  pose proof (length_mark_entries (len cleared) entries cleared) as Hlen.
  pose proof (log_mark_entries (len cleared) entries cleared) as Hlog.
  pose proof (nth_mark_entries entries cleared) as Hnth.
  destruct (mark_entries (len cleared) entries cleared) as [ports log].
  cbn [fst snd] in *.
  exists (set_fPortBuffer l ports), log.
  split; [reflexivity |]. cbn [set_fPortBuffer fPortBuffer GetBuffer].
  unfold GetBuffer. cbn [fPortBuffer].
  assert (Hcl : length cleared = length (fPortBuffer l))
    by (unfold cleared; now rewrite repeat_length).
  split; [| split; [| split]].
  - unfold len. rewrite Hlen. reflexivity.
  - intros i Hi. unfold len in Hi. rewrite array_get_nth by lia.
    rewrite Hnth by lia. rewrite Z2Nat.id by lia.
    unfold cleared at 1. rewrite nth_error_cleared by lia.
    unfold marked. destruct (existsb (Z.eqb i) entries); reflexivity.
  - intros i Hi. unfold array_get. destruct (i <? 0) eqn:Hneg; [reflexivity |].
    apply Z.ltb_ge in Hneg. unfold len in Hi.
    cbn [set_fPortBuffer fPortBuffer].
    replace (nth_error ports (Z.to_nat i)) with (@None sample_ptr);
      [reflexivity |].
    symmetry. apply nth_error_None. lia.
  - exact Hlog.
Qed.

End ActivePortsDecoding.

(** ** Round trip of the active ports *)

Section ActivePortsRoundTrip.

Lemma active_ports_decoding_checks_range_witness :
  exists l' log,
    JackOptimizedPortList.ActivePortsFromNetwork false (last_active 4)
      [1; 0; 9; 0; 2; 0] 3 = Ok (l', log) /\
    log = [IncorrectPort 9] /\
    GetBuffer l' 1 = Ok MarkPtr /\
    GetBuffer l' 2 = Ok MarkPtr /\
    GetBuffer l' 3 = Ok NullPtr.
Proof.
  destruct (active_ports_decoding_checks_range false (last_active 4)
              [1; 0; 9; 0; 2; 0] 3)
    as (l' & log & Hrun & _ & Hget & _ & Hlog).
  - lia.
  - vm_compute. discriminate.
  - exists l', log. split; [exact Hrun |]. split; [exact Hlog |].
    split; [| split]; apply Hget; vm_compute;
      (split; [discriminate | reflexivity]).
Defined.

Lemma filter_none {A : Type} (f : A -> bool) (l : list A) :
  (forall x, In x l -> f x = false) -> filter f l = [].
Proof.
  induction l as [| x rest IH]; intros H; [reflexivity |].
  cbn [filter]. rewrite (H x (or_introl eq_refl)).
  apply IH. intros y Hy. apply H. right. exact Hy.
Qed.

Lemma existsb_none (target : Z) (l : list Z) :
  (forall x, In x l -> x <> target) -> existsb (Z.eqb target) l = false.
Proof.
  intros H. destruct (existsb (Z.eqb target) l) eqn:He; [| reflexivity].
  apply existsb_exists in He. destruct He as [x [Hin Heq]].
  apply Z.eqb_eq in Heq. exfalso. apply (H x Hin). congruence.
Qed.

(** An index is among the active indices exactly when its port has a
    buffer. *)
Lemma existsb_active_indices (ports : list sample_ptr) :
  forall (port_index : Z) (i : nat) (p : sample_ptr),
    nth_error ports i = Some p ->
    existsb (Z.eqb (port_index + Z.of_nat i)) (active_indices ports port_index)
    = is_set p.
Proof.
  induction ports as [| q rest IH]; intros port_index i p Hnth.
  - destruct i; discriminate.
  - destruct i as [| i]; cbn [nth_error] in Hnth.
    + injection Hnth as ->. cbn [active_indices].
      replace (port_index + Z.of_nat 0) with port_index by lia.
      destruct (is_set p).
      * cbn [existsb]. rewrite Z.eqb_refl. reflexivity.
      * apply existsb_none. intros x Hin.
        apply active_indices_bounds in Hin. lia.
    + cbn [active_indices].
      replace (port_index + Z.of_nat (S i))
        with (port_index + 1 + Z.of_nat i) by lia.
      destruct (is_set q).
      * cbn [existsb].
        replace (port_index + 1 + Z.of_nat i =? port_index) with false
          by (symmetry; apply Z.eqb_neq; lia).
        cbn [orb]. apply IH. exact Hnth.
      * apply IH. exact Hnth.
Qed.

(** Marking the active indices of a list in cleared slots gives the
    slots of that list. *)
Lemma mark_active_indices (ports cleared : list sample_ptr) :
  cleared = repeat NullPtr (length ports) ->
  mark_entries (len cleared) (active_indices ports 0) cleared
  = (map (fun p => marked (is_set p)) ports, []).
Proof.
  intros Hcl.
  assert (Hlen : length cleared = length ports)
    by (rewrite Hcl; apply repeat_length).
  pose proof (length_mark_entries (len cleared) (active_indices ports 0)
                cleared) as Hl.
  pose proof (log_mark_entries (len cleared) (active_indices ports 0)
                cleared) as Hlog.
  pose proof (nth_mark_entries (active_indices ports 0) cleared) as Hnth.
  destruct (mark_entries (len cleared) (active_indices ports 0) cleared)
    as [ps log].
  cbn [fst snd] in *. f_equal.
  - apply nth_error_ext. intros i.
    destruct (Nat.lt_ge_cases i (length ports)) as [Hi | Hi].
    + rewrite Hnth by lia. rewrite nth_error_map.
      destruct (nth_error ports i) as [p |] eqn:Hp.
      * pose proof (existsb_active_indices ports 0 i p Hp) as He.
        rewrite Z.add_0_l in He. rewrite He. cbn [option_map].
        unfold marked. destruct (is_set p); [reflexivity |].
        rewrite Hcl. apply nth_error_cleared. exact Hi.
      * apply nth_error_None in Hp. lia.
    + replace (nth_error ps i) with (@None sample_ptr)
        by (symmetry; apply nth_error_None; lia).
      symmetry. apply nth_error_None. rewrite length_map. exact Hi.
  - rewrite Hlog. rewrite filter_none; [reflexivity |].
    intros x Hin. apply active_indices_bounds in Hin.
    unfold port_in_range, len. rewrite Hlen.
    replace (0 <=? x) with true by (symmetry; apply Z.leb_le; lia).
    replace (x <? Z.of_nat (length ports)) with true
      by (symmetry; apply Z.ltb_lt; unfold len in Hin; lia).
    reflexivity.
Qed.

(** The ports without a buffer are passed over by the encoder. *)
Lemma write_active_ports_skip (be : bool) (k : nat) :
  forall (rest : list sample_ptr) (port_index : Z) (net : list Z)
         (addr port_num : Z),
    JackOptimizedPortList.write_active_ports be (repeat NullPtr k ++ rest)
      port_index net addr port_num
    = JackOptimizedPortList.write_active_ports be rest
        (port_index + Z.of_nat k) net addr port_num.
Proof.
  induction k as [| k IH]; intros rest port_index net addr port_num.
  - cbn [repeat app]. f_equal. cbn. lia.
  - cbn [repeat app JackOptimizedPortList.write_active_ports is_set].
    rewrite IH. f_equal. lia.
Qed.

(** A single entry that is negative is reported and marks no port. *)
Lemma negative_entry_rejected (be : bool) (r : JackPortList) (net : list Z)
    (b0 b1 : Z) (rest : list Z) :
  net = b0 :: b1 :: rest ->
  bytes_short be [b0; b1] < 0 ->
  JackOptimizedPortList.ActivePortsFromNetwork be r net 1
  = Ok (set_fPortBuffer r (repeat NullPtr (length (fPortBuffer r))),
        [IncorrectPort (bytes_short be [b0; b1])]).
Proof.
  intros -> Hneg. unfold JackOptimizedPortList.ActivePortsFromNetwork.
  change (Z.to_nat 1) with 1%nat.
  cbn [JackOptimizedPortList.read_active_ports].
  rewrite mem_read_Ok; try lia.
  - change (Z.to_nat 2) with 2%nat. change (Z.to_nat 0) with 0%nat.
    cbn [skipn firstn bind].
    replace (0 <=? bytes_short be [b0; b1]) with false
      by (symmetry; apply Z.leb_gt; exact Hneg).
    reflexivity.
  - rewrite !len_cons. pose proof (len_nonneg rest). lia.
Qed.

(** C5, at the limits of the encoding: with 512 active ports the
    encoder fails its assertion; the index 32768 does not fit a [short]
    and is decoded as -32768, which is rejected; and an index written by
    a little-endian host is read by a big-endian host with its bytes
    exchanged. *)
Lemma active_ports_round_trip_limits :
  JackOptimizedPortList.ActivePortsToNetwork false (all_active 512)
    (repeat 0 1024) = AssertFailed /\
  (exists net' r',
      JackOptimizedPortList.ActivePortsToNetwork false (last_active 32769)
        [0; 0] = Ok (net', 1) /\
      JackOptimizedPortList.ActivePortsFromNetwork false (last_active 32769)
        net' 1 = Ok (r', [IncorrectPort (-32768)]) /\
      GetBuffer r' 32768 = Ok NullPtr) /\
  (exists net' r',
      JackOptimizedPortList.ActivePortsToNetwork false (last_active 2)
        [0; 0] = Ok (net', 1) /\
      JackOptimizedPortList.ActivePortsFromNetwork true (last_active 2)
        net' 1 = Ok (r', [IncorrectPort 256]) /\
      GetBuffer r' 1 = Ok NullPtr).
Proof.
  split; [vm_compute; reflexivity |]. split.
  - exists [0; 128].
    exists (set_fPortBuffer (last_active 32769)
              (repeat NullPtr (length (fPortBuffer (last_active 32769))))).
    split; [| split].
    + unfold JackOptimizedPortList.ActivePortsToNetwork, last_active.
      cbn [set_fPortBuffer fPortBuffer].
      rewrite write_active_ports_skip.
      change (32769 - 1) with 32768. rewrite Z2Nat.id by lia.
      vm_compute. reflexivity.
    + apply (negative_entry_rejected false (last_active 32769) [0; 128]
               0 128 []); [reflexivity | vm_compute; reflexivity].
    + unfold GetBuffer, last_active. cbn [set_fPortBuffer fPortBuffer].
      rewrite array_get_nth by lia.
      rewrite nth_error_cleared; [reflexivity |].
      rewrite length_app, repeat_length. cbn [length].
      change (32769 - 1) with 32768. lia.
  - eexists. eexists.
    split; [vm_compute; reflexivity |].
    split; vm_compute; reflexivity.
Qed.

(** C5 (amended). For a list of at most 32768 ports of which fewer than
    512 are active, [ActivePortsToNetwork] followed by
    [ActivePortsFromNetwork] on a host of the same byte order and a list
    of the same port count completes without a message and marks a port
    as active if and only if it is active in the sender. *)
Theorem active_ports_round_trip :
  forall (be : bool) (l r : JackPortList) (net : list Z),
    let active := JackOptimizedPortList.count_active (fPortBuffer l) in
    active < 512 ->
    fNPorts l <= 32768 ->
    2 * active <= len net ->
    fNPorts r = fNPorts l ->
    exists net' r',
      JackOptimizedPortList.ActivePortsToNetwork be l net
        = Ok (net', active) /\
      JackOptimizedPortList.ActivePortsFromNetwork be r net' active
        = Ok (r', []) /\
      fPortBuffer r' = map (fun p => marked (is_set p)) (fPortBuffer l) /\
      (forall i p, GetBuffer l i = Ok p ->
                   GetBuffer r' i = Ok (marked (is_set p))).
Proof.
  intros be l r net active Hlim Hshort Hroom Hsame.
  pose proof (len_active_indices (fPortBuffer l) 0) as Hcount.
  fold active in Hcount.
  assert (Hpos : 0 <= active) by apply count_active_nonneg.
  destruct (write_active_ports_Ok be (fPortBuffer l) 0 net 0 0)
    as (net' & Hrun & Hl' & _ & Hread); try (rewrite Hcount); try lia.
  rewrite Hcount in Hrun. cbn [Z.add] in Hrun.
  assert (Hentries : read_shorts be net' 0 (Z.to_nat active)
                     = active_indices (fPortBuffer l) 0).
  { replace (Z.to_nat active)
      with (length (active_indices (fPortBuffer l) 0))
      by (unfold len in Hcount; lia).
    rewrite Hread.
    rewrite <- (map_id (active_indices (fPortBuffer l) 0)) at 2.
    apply map_ext_in. intros x Hin.
    apply active_indices_bounds in Hin. unfold fNPorts in Hshort.
    apply i16_id. lia. }
  assert (Hdec : JackOptimizedPortList.ActivePortsFromNetwork be r net' active
                 = Ok (set_fPortBuffer r
                         (map (fun p => marked (is_set p)) (fPortBuffer l)),
                       [])).
  { unfold JackOptimizedPortList.ActivePortsFromNetwork.
    set (cleared := repeat NullPtr (length (fPortBuffer r))).
    assert (Hcl : cleared = repeat NullPtr (length (fPortBuffer l))).
    { unfold cleared. f_equal. unfold fNPorts, len in Hsame. lia. }
    assert (Hlc : len cleared = fNPorts r).
    { unfold len, cleared, fNPorts. rewrite repeat_length. reflexivity. }
    rewrite <- Hlc. rewrite read_active_ports_Ok
      by (unfold len in *; try rewrite Hl'; lia).
    rewrite Hentries.
    rewrite (mark_active_indices (fPortBuffer l) cleared Hcl).
    reflexivity. }
  exists net'.
  exists (set_fPortBuffer r (map (fun p => marked (is_set p)) (fPortBuffer l))).
  split; [exact Hrun |]. split; [exact Hdec |].
  cbn [set_fPortBuffer fPortBuffer]. split; [reflexivity |].
  intros i p. unfold GetBuffer, array_get.
  cbn [set_fPortBuffer fPortBuffer].
  destruct (i <? 0); try discriminate.
  rewrite nth_error_map.
  destruct (nth_error (fPortBuffer l) (Z.to_nat i)); try discriminate.
  intros H. injection H as ->. reflexivity.
Qed.

Lemma active_ports_round_trip_witness :
  exists net' r',
    JackOptimizedPortList.ActivePortsToNetwork false (last_active 4)
      [0; 0] = Ok (net', 1) /\
    JackOptimizedPortList.ActivePortsFromNetwork false (all_active 4) net' 1
      = Ok (r', []) /\
    fPortBuffer r' = [NullPtr; NullPtr; NullPtr; MarkPtr].
Proof.
  destruct (active_ports_round_trip false (last_active 4) (all_active 4)
              [0; 0])
    as (net' & r' & Henc & Hdec & Hports & _).
  - vm_compute. reflexivity.
  - vm_compute. discriminate.
  - vm_compute. discriminate.
  - reflexivity.
  - exists net', r'. split; [exact Henc |]. split; [exact Hdec |].
    exact Hports.
Defined.

End ActivePortsRoundTrip.

(** ** Byte order of the wire records *)

Section WireRecords.

Lemma bytes_u32_bytes (x : Z) : 0 <= x < 2 ^ 32 -> bytes_u32 (u32_bytes x) = x.
Proof.
  intros H. unfold u32_bytes, bytes_u32.
  change (2 ^ 32) with 4294967296 in H.
  Z.to_euclidean_division_equations. lia.
Qed.

Lemma u32_bytes_bytes (b0 b1 b2 b3 : Z) :
  0 <= b0 < 256 -> 0 <= b1 < 256 -> 0 <= b2 < 256 -> 0 <= b3 < 256 ->
  u32_bytes (bytes_u32 [b0; b1; b2; b3]) = [b0; b1; b2; b3].
Proof.
  intros H0 H1 H2 H3. unfold u32_bytes, bytes_u32.
  repeat f_equal; Z.to_euclidean_division_equations; lia.
Qed.

Lemma bswap32_range (x : Z) : 0 <= bswap32 x < 2 ^ 32.
Proof.
  unfold bswap32, u32_bytes. cbn [rev app bytes_u32].
  change (2 ^ 32) with 4294967296.
  Z.to_euclidean_division_equations. lia.
Qed.

(** Reversing the bytes twice gives the value back. *)
Lemma bswap32_involutive (x : Z) :
  0 <= x < 2 ^ 32 -> bswap32 (bswap32 x) = x.
Proof.
  intros H. unfold bswap32 at 2. unfold u32_bytes at 1.
  cbn [rev app]. unfold bswap32.
  rewrite u32_bytes_bytes; try (apply Z.mod_pos_bound; lia).
  cbn [rev app].
  change (bytes_u32 (u32_bytes x) = x).
  apply bytes_u32_bytes. exact H.
Qed.

Lemma htonl_range (be : bool) (x : Z) : 0 <= htonl be x < 2 ^ 32.
Proof.
  unfold htonl. destruct be; [apply u32_range | apply bswap32_range].
Qed.

Lemma ntohl_htonl (be : bool) (x : Z) :
  is_u32 x -> ntohl be (htonl be x) = x.
Proof.
  unfold is_u32. intros H. unfold ntohl, htonl. destruct be.
  - rewrite (u32_id x) by lia. apply u32_id. lia.
  - rewrite (u32_id x) by lia.
    rewrite u32_id by apply bswap32_range.
    apply bswap32_involutive. exact H.
Qed.

(** A signed field goes through [uint32_t] and back. *)
Lemma ntohl_htonl_signed (be : bool) (x : Z) :
  is_i32 x -> i32 (ntohl be (i32 (htonl be x))) = x.
Proof.
  unfold is_i32. intros H.
  assert (Hu : ntohl be (i32 (htonl be x)) = u32 x).
  { unfold ntohl. unfold htonl at 1.
    rewrite u32_i32 by apply htonl_range.
    pose proof (u32_range x) as Hr.
    assert (Hx : htonl be x = htonl be (u32 x)).
    { unfold htonl. rewrite (u32_id (u32 x)) by exact Hr. reflexivity. }
    rewrite Hx.
    destruct be.
    - unfold htonl. apply u32_id. exact Hr.
    - unfold htonl. rewrite (u32_id (u32 x)) by exact Hr.
      apply bswap32_involutive. exact Hr. }
  rewrite Hu. apply i32_u32. exact H.
Qed.

(** C4. Converting a session parameter record, or a packet header,
    whose integer fields hold values of their types to network order
    and back to host order gives the record back, field by field; both
    conversions are functions of the record alone. *)
Theorem wire_records_round_trip :
  forall be : bool,
    (forall p : session_params.t,
        session_params_valid p ->
        SessionParamsNToH be (SessionParamsHToN be p) = p) /\
    (forall h : packet_header.t,
        packet_header_valid h ->
        PacketHeaderNToH be (PacketHeaderHToN be h) = h).
Proof.
  intros be. split.
  - intros p Hv. destruct p.
    unfold session_params_valid in Hv. cbn in Hv.
    destruct Hv as (? & ? & ? & ? & ? & ? & ? & ? & ? & ? & ? & ? & ? & ?).
    unfold SessionParamsNToH, SessionParamsHToN, session_params_convert.
    cbn.
    rewrite !ntohl_htonl by assumption.
    rewrite !ntohl_htonl_signed by assumption.
    reflexivity.
  - intros h Hv. destruct h.
    unfold packet_header_valid in Hv. cbn in Hv.
    destruct Hv as (? & ? & ? & ? & ? & ? & ?).
    unfold PacketHeaderNToH, PacketHeaderHToN, packet_header_convert.
    cbn.
    rewrite !ntohl_htonl by assumption.
    reflexivity.
Qed.

Lemma wire_records_round_trip_witness :
  SessionParamsNToH false
    (SessionParamsHToN false (audio_session 1500 2 2 48000 1024))
  = audio_session 1500 2 2 48000 1024.
Proof.
  apply (proj1 (wire_records_round_trip false)).
  unfold session_params_valid, is_u32, is_i32, audio_session.
  cbn [session_params.fPacketID session_params.fMtu session_params.fID
       session_params.fTransportSync session_params.fSendAudioChannels
       session_params.fReturnAudioChannels session_params.fSendMidiChannels
       session_params.fReturnMidiChannels session_params.fSampleRate
       session_params.fPeriodSize session_params.fSampleEncoder
       session_params.fKBps session_params.fSlaveSyncMode
       session_params.fNetworkLatency].
  lia.
Defined.

End WireRecords.

(** ** Further properties: buffers of the list *)

Section PortBuffers.

Lemma array_set_inv {A : Type} (a : list A) (i : Z) (x : A) (a' : list A) :
  array_set a i x = Ok a' ->
  0 <= i < len a /\ a' = update a (Z.to_nat i) x.
Proof.
  unfold array_set.
  destruct ((0 <=? i) && (i <? len a)) eqn:Hc; try discriminate.
  apply andb_true_iff in Hc. destruct Hc as [H0 H1].
  apply Z.leb_le in H0. apply Z.ltb_lt in H1.
  intros H. injection H as <-. split; [lia | reflexivity].
Qed.

Lemma array_get_update {A : Type} (a : list A) (i j : Z) (x : A) :
  0 <= i < len a ->
  array_get (update a (Z.to_nat i) x) j
  = if j =? i then Ok x else array_get a j.
Proof.
  intros Hi. unfold array_get. destruct (j <? 0) eqn:Hj.
  - apply Z.ltb_lt in Hj.
    replace (j =? i) with false by (symmetry; apply Z.eqb_neq; lia).
    reflexivity.
  - apply Z.ltb_ge in Hj. unfold len in Hi.
    rewrite nth_error_update by lia.
    destruct (j =? i) eqn:He.
    + apply Z.eqb_eq in He. subst j. rewrite Nat.eqb_refl. reflexivity.
    + apply Z.eqb_neq in He.
      replace (Z.to_nat j =? Z.to_nat i)%nat with false
        by (symmetry; apply Nat.eqb_neq; lia).
      reflexivity.
Qed.

(** X1. [SetBuffer] with an index inside the array completes, and then
    [GetBuffer] returns the buffer set at that index and what it returned
    before at any other index; the number of ports is unchanged.  With an
    index outside the array both calls have undefined behaviour. *)
Theorem get_buffer_after_set_buffer :
  forall (l : JackPortList) (index : Z) (buffer : sample_ptr),
    (0 <= index < fNPorts l ->
     exists l',
       SetBuffer l index buffer = Ok l' /\
       fNPorts l' = fNPorts l /\
       GetBuffer l' index = Ok buffer /\
       (forall j, j <> index -> GetBuffer l' j = GetBuffer l j)) /\
    (index < 0 \/ fNPorts l <= index ->
     SetBuffer l index buffer = Undefined /\
     GetBuffer l index = Undefined).
Proof.
  intros l index buffer. unfold fNPorts, SetBuffer, GetBuffer. split.
  - intros Hi. rewrite array_set_Ok by exact Hi. cbn [bind].
    eexists. split; [reflexivity |]. cbn [set_fPortBuffer fPortBuffer].
    split; [| split].
    + unfold len. rewrite length_update. reflexivity.
    + rewrite array_get_update by exact Hi. rewrite Z.eqb_refl. reflexivity.
    + intros j Hj. rewrite array_get_update by exact Hi.
      replace (j =? index) with false by (symmetry; apply Z.eqb_neq; lia).
      reflexivity.
  - intros Hi. split.
    + unfold array_set.
      replace ((0 <=? index) && (index <? len (fPortBuffer l))) with false;
        [reflexivity |].
      symmetry. apply andb_false_iff.
      destruct Hi as [Hi | Hi];
        [left; apply Z.leb_gt | right; apply Z.ltb_ge]; lia.
    + unfold array_get. destruct (index <? 0) eqn:Hneg; [reflexivity |].
      apply Z.ltb_ge in Hneg.
      replace (nth_error (fPortBuffer l) (Z.to_nat index))
        with (@None sample_ptr); [reflexivity |].
      symmetry. apply nth_error_None. unfold len in Hi. lia.
Qed.

Lemma get_buffer_after_set_buffer_witness :
  exists l',
    SetBuffer (last_active 4) 1 MarkPtr = Ok l' /\
    fNPorts l' = fNPorts (last_active 4) /\
    GetBuffer l' 1 = Ok MarkPtr /\
    (forall j, j <> 1 -> GetBuffer l' j = GetBuffer (last_active 4) j).
Proof.
  apply (proj1 (get_buffer_after_set_buffer (last_active 4) 1 MarkPtr)).
  vm_compute. split; [discriminate | reflexivity].
Defined.

End PortBuffers.

(** ** Further properties: sizing for any period *)

Section Sizing.

Lemma sub_period_le (packet_size den period_size sub : Z) :
  0 <= period_size ->
  sub_period packet_size den period_size = Ok sub ->
  0 <= sub <= period_size.
Proof.
  intros Hp H. unfold sub_period in H.
  apply bind_Ok in H. destruct H as [e [_ H]].
  apply bind_Ok in H. destruct H as [p [_ H]].
  injection H as <-. pose proof (u32_range p) as Hr.
  destruct (u32 p >? period_size) eqn:Hc; [lia |].
  rewrite Z.gtb_ltb in Hc. apply Z.ltb_ge in Hc. lia.
Qed.

(** The packets of a period cut in sub-periods between 1 and the period:
    at least one, and together they leave out less than a sub-period. *)
Lemma packets_bounds (period_size sub : Z) :
  0 <= period_size < 2 ^ 31 -> 1 <= sub <= period_size ->
  let n := i32 (period_size / sub) in
  1 <= n /\ n * sub <= period_size < (n + 1) * sub.
Proof.
  intros Hp Hs n. subst n.
  assert (Hq : 1 <= period_size / sub <= period_size).
  { split.
    - apply Z.div_le_lower_bound; lia.
    - apply Z.div_le_upper_bound; nia. }
  rewrite i32_id by lia.
  pose proof (Z.mul_div_le period_size sub ltac:(lia)).
  pose proof (Z.mul_succ_div_gt period_size sub ltac:(lia)).
  lia.
Qed.

Lemma JackPortList_new_sub_period (params : session_params.t) (nports : Z)
    (l : JackPortList) :
  0 <= session_params.fPeriodSize params ->
  JackPortList_new params nports = Ok l ->
  1 <= fSubPeriodSize l <= session_params.fPeriodSize params.
Proof.
  intros Hp H.
  pose proof (JackPortList_new_fields _ _ _ H) as (_ & _ & _ & _ & _ & _ & _ & Hnz).
  unfold JackPortList_new in H.
  apply bind_Ok in H. destruct H as [sub [Hsub H]].
  destruct (i32 nports <? 0); try discriminate.
  destruct (sub =? 0); try discriminate.
  injection H as <-. cbn [fSubPeriodSize] in *.
  destruct ((session_params.fSendAudioChannels params =? 0)
            && (session_params.fReturnAudioChannels params =? 0)).
  - injection Hsub as <-. lia.
  - apply sub_period_le in Hsub; lia.
Qed.

(** X2. For any period size below [2 ^ 31], power of two or not: the
    list the constructor returns has a sub-period between 1 and the period
    size and [GetNumPackets] returns there a count [n >= 1] with
    [n * fSubPeriodSize <= fPeriodSize < (n + 1) * fSubPeriodSize]; the same
    holds for the sub-period and the count of every completed
    [JackOptimizedPortList::GetNumPackets].  The frames of a period beyond
    [n * fSubPeriodSize] belong to no packet. *)
Theorem packets_cover_period :
  (forall (params : session_params.t) (nports : Z) (l : JackPortList),
      0 <= session_params.fPeriodSize params < 2 ^ 31 ->
      JackPortList_new params nports = Ok l ->
      exists n,
        GetNumPackets l = Ok n /\
        1 <= fSubPeriodSize l <= fPeriodSize l /\
        1 <= n /\
        n * fSubPeriodSize l <= fPeriodSize l < (n + 1) * fSubPeriodSize l) /\
  (forall (l l' : JackPortList) (n : Z),
      0 <= fPeriodSize l < 2 ^ 31 ->
      JackOptimizedPortList.GetNumPackets l = Ok (l', n) ->
      1 <= fSubPeriodSize l' <= fPeriodSize l' /\
      1 <= n /\
      n * fSubPeriodSize l' <= fPeriodSize l' < (n + 1) * fSubPeriodSize l').
Proof.
  split.
  - intros params nports l Hp H.
    pose proof (JackPortList_new_sub_period _ _ _ (proj1 Hp) H) as Hs.
    pose proof (JackPortList_new_fields _ _ _ H) as (HP & _).
    rewrite <- HP in Hs, Hp.
    unfold GetNumPackets.
    replace (fSubPeriodSize l =? 0) with false
      by (symmetry; apply Z.eqb_neq; lia).
    eexists. split; [reflexivity |]. split; [exact Hs |].
    exact (packets_bounds _ _ Hp Hs).
  - intros l l' n Hp H.
    unfold JackOptimizedPortList.GetNumPackets in H.
    apply bind_Ok in H. destruct H as [sub [Hsub H]].
    destruct (sub =? 0) eqn:Hnz; try discriminate.
    apply Z.eqb_neq in Hnz. injection H as <- <-.
    cbn [set_fSubPeriod fSubPeriodSize fPeriodSize].
    assert (Hs : 1 <= sub <= fPeriodSize l).
    { destruct (JackOptimizedPortList.count_active (fPortBuffer l) =? 0).
      - injection Hsub as <-. lia.
      - apply sub_period_le in Hsub; lia. }
    split; [exact Hs |]. exact (packets_bounds _ _ Hp Hs).
Qed.

Lemma packets_cover_period_witness :
  exists l,
    JackPortList_new (audio_session 1500 2 2 48000 1000) 2 = Ok l /\
    exists n,
      GetNumPackets l = Ok n /\
      1 <= fSubPeriodSize l <= fPeriodSize l /\
      1 <= n /\
      n * fSubPeriodSize l <= fPeriodSize l < (n + 1) * fSubPeriodSize l.
Proof.
  eexists. split; [vm_compute; reflexivity |].
  apply (proj1 packets_cover_period (audio_session 1500 2 2 48000 1000) 2).
  - simpl. lia.
  - vm_compute. reflexivity.
Defined.

Lemma i32_u64 (x : Z) : - 2 ^ 31 <= x < 2 ^ 31 -> i32 (u64 x) = x.
Proof.
  intros H. unfold i32, u64.
  change (2 ^ 64) with 18446744073709551616.
  change (2 ^ 32) with 4294967296. change (2 ^ 31) with 2147483648 in *.
  Z.to_euclidean_division_equations. lia.
Qed.

(** X3. When the session has an audio channel and its MTU is not larger
    than the packet header, the constructor takes the logarithm of a
    payload size that is not positive and converts the result to [int]:
    its behaviour is undefined, and no error is reported. *)
Theorem mtu_within_header_undefined :
  forall (params : session_params.t) (nports : Z),
    0 <= session_params.fMtu params <= HEADER_SIZE ->
    session_params.fSendAudioChannels params <> 0 \/
    session_params.fReturnAudioChannels params <> 0 ->
    JackPortList_new params nports = Undefined.
Proof.
  intros params nports Hmtu Hch. unfold JackPortList_new.
  replace ((session_params.fSendAudioChannels params =? 0)
           && (session_params.fReturnAudioChannels params =? 0)) with false.
  - rewrite HEADER_SIZE_value in *. rewrite i32_u64 by lia.
    unfold sub_period.
    rewrite trunc_log2_quot_nonpositive; [reflexivity | lia |].
    unfold u64. apply Z.mod_pos_bound. reflexivity.
  - symmetry. apply andb_false_iff.
    destruct Hch as [H | H]; [left | right]; apply Z.eqb_neq; exact H.
Qed.

Lemma mtu_within_header_undefined_witness :
  JackPortList_new (audio_session 40 2 2 48000 1024) 2 = Undefined.
Proof.
  apply mtu_within_header_undefined.
  - vm_compute. split; discriminate.
  - left. vm_compute. discriminate.
Defined.

End Sizing.

(** ** Further properties: a list just constructed *)

Section FreshList.

Lemma sub_period_no_assert (packet_size den period_size : Z) :
  sub_period packet_size den period_size <> AssertFailed.
Proof.
  unfold sub_period.
  pose proof (trunc_log2_quot_no_assert packet_size den) as Hlog.
  destruct (trunc_log2_quot packet_size den) as [e | |]; cbn [bind];
    [| contradiction | discriminate].
  unfold pow2_int. destruct (e <? 0); [discriminate |].
  destruct (e <? 31); discriminate.
Qed.

(** X4. A list just constructed for [nports] ports has that many slots,
    all of them [NULL], and the last sub-cycle at -1; the per-cycle sizing
    of the optimized list, called before any buffer is set, makes the whole
    period one packet whatever the channel counts of the session.  A port
    count that is negative as an [int] has no list. *)
Theorem fresh_list_has_no_active_port :
  (forall (params : session_params.t) (nports : Z) (l : JackPortList),
      0 <= nports < 2 ^ 31 ->
      0 <= session_params.fPeriodSize params < 2 ^ 31 ->
      JackPortList_new params nports = Ok l ->
      fNPorts l = nports /\
      (forall i, 0 <= i < nports -> GetBuffer l i = Ok NullPtr) /\
      JackOptimizedPortList.count_active (fPortBuffer l) = 0 /\
      fLastSubCycle l = -1 /\
      exists l',
        JackOptimizedPortList.GetNumPackets l = Ok (l', 1) /\
        fSubPeriodSize l' = fPeriodSize l) /\
  (forall (params : session_params.t) (nports : Z),
      2 ^ 31 <= nports < 2 ^ 32 ->
      JackPortList_new params nports = Undefined).
Proof.
  split.
  - intros params nports l Hn Hp H.
    pose proof (JackPortList_new_sub_period _ _ _ (proj1 Hp) H) as Hs.
    pose proof (JackPortList_new_fields _ _ _ H)
      as (HP & _ & _ & Hports & _ & _ & Hlast & _).
    rewrite i32_id in Hports by lia.
    assert (Hcount : forall k,
               JackOptimizedPortList.count_active (repeat NullPtr k) = 0).
    { induction k as [| k IH]; [reflexivity |].
      cbn [repeat JackOptimizedPortList.count_active is_set]. rewrite IH.
      reflexivity. }
    split; [| split; [| split; [| split]]].
    + unfold fNPorts, len. rewrite Hports, repeat_length. lia.
    + intros i Hi. unfold GetBuffer. rewrite array_get_nth by lia.
      rewrite Hports, nth_error_cleared by lia. reflexivity.
    + rewrite Hports. apply Hcount.
    + exact Hlast.
    + unfold JackOptimizedPortList.GetNumPackets.
      rewrite Hports, Hcount. cbn [Z.eqb bind].
      replace (fPeriodSize l =? 0) with false
        by (symmetry; apply Z.eqb_neq; lia).
      rewrite Z.div_same by lia.
      eexists. split; reflexivity.
  - intros params nports Hn. unfold JackPortList_new.
    assert (Hneg : (i32 nports <? 0) = true).
    { apply Z.ltb_lt. unfold i32.
      replace ((nports + 2 ^ 31) mod 2 ^ 32) with (nports - 2 ^ 31)
        by (apply Z.mod_unique with (q := 1); lia).
      lia. }
    rewrite Hneg.
    destruct ((session_params.fSendAudioChannels params =? 0)
              && (session_params.fReturnAudioChannels params =? 0));
      [reflexivity |].
    match goal with
    | |- bind ?c _ = _ =>
        pose proof (sub_period_no_assert
                      (i32 (u64 (session_params.fMtu params - HEADER_SIZE)))
                      (u64 (Z.max (session_params.fReturnAudioChannels params)
                              (session_params.fSendAudioChannels params)
                            * sizeof_sample_t))
                      (session_params.fPeriodSize params)) as Hna;
        destruct c as [sub | |]; [reflexivity | contradiction | reflexivity]
    end.
Qed.

Lemma fresh_list_has_no_active_port_witness :
  exists l,
    JackPortList_new (audio_session 1500 2 2 48000 1024) 2 = Ok l /\
    fNPorts l = 2 /\
    JackOptimizedPortList.count_active (fPortBuffer l) = 0.
Proof.
  eexists. split; [vm_compute; reflexivity |].
  match goal with
  | |- fNPorts ?l = _ /\ _ =>
      assert (Hnew : JackPortList_new (audio_session 1500 2 2 48000 1024) 2
                     = Ok l) by (vm_compute; reflexivity)
  end.
  destruct (proj1 fresh_list_has_no_active_port
              (audio_session 1500 2 2 48000 1024) 2 _
              ltac:(lia) ltac:(simpl; lia) Hnew)
    as (Hn & _ & Hc & _).
  split; [exact Hn | exact Hc].
Defined.

End FreshList.

(** ** Further properties: cycles received in order *)

Section InOrder.

Lemma in_order_statuses (nets : list (list Z)) :
  forall k,
    expected_statuses (k - 1) (map snd (in_order_from k nets))
    = repeat 0 (length nets) /\
    last (map snd (in_order_from k nets)) (k - 1) = k - 1 + len nets.
Proof.
  induction nets as [| net rest IH]; intros k.
  - cbn. unfold len. cbn. split; [reflexivity | lia].
  - cbn [in_order_from map snd expected_statuses length repeat].
    replace (k =? k - 1 + 1) with true by (symmetry; apply Z.eqb_eq; lia).
    destruct (IH (k + 1)) as [Hst Hlast].
    replace (k + 1 - 1) with k in Hst, Hlast by lia.
    split.
    + rewrite Hst. reflexivity.
    + rewrite last_cons_default, Hlast, len_cons. lia.
Qed.

(** X5. The packets of a cycle received in order, with the sub-cycles 0,
    1, 2, ... after a cycle start, are all accepted with status 0 by both
    lists (the optimized one with [port_num > 0]), and leave the last
    sub-cycle at their count minus one; on a little-endian build the
    packets of the next cycle, received in order after
    [RenderToJackPorts], are all accepted as well. *)
Theorem in_order_cycles_accepted :
  (forall (be : bool) (l : JackPortList) (nets : list (list Z))
          (cycle copy_size port_num : Z)
          (l' : JackPortList) (statuses : list Z),
      fLastSubCycle l = -1 ->
      feed (fun l net s => RenderFromNetwork be l net cycle s copy_size port_num)
        l (in_order_from 0 nets) = Ok (l', statuses) ->
      statuses = repeat 0 (length nets) /\
      fLastSubCycle l' = len nets - 1) /\
  (forall (l : JackPortList) (nets : list (list Z))
          (cycle copy_size port_num : Z)
          (l' : JackPortList) (statuses : list Z),
      0 < port_num ->
      fLastSubCycle l = -1 ->
      feed (fun l net s =>
              JackOptimizedPortList.RenderFromNetwork l net cycle s copy_size
                port_num)
        l (in_order_from 0 nets) = Ok (l', statuses) ->
      statuses = repeat 0 (length nets) /\
      fLastSubCycle l' = len nets - 1) /\
  (forall (l : JackPortList) (nets : list (list Z))
          (cycle copy_size port_num : Z)
          (l' : JackPortList) (statuses : list Z),
      feed (fun l net s =>
              RenderFromNetwork false l net cycle s copy_size port_num)
        (RenderToJackPorts false l) (in_order_from 0 nets)
        = Ok (l', statuses) ->
      statuses = repeat 0 (length nets)).
Proof.
  assert (Hgen : forall render, detects render ->
            forall l nets l' statuses,
              fLastSubCycle l = -1 ->
              feed render l (in_order_from 0 nets) = Ok (l', statuses) ->
              statuses = repeat 0 (length nets) /\
              fLastSubCycle l' = len nets - 1).
  { intros render Hd l nets l' statuses Hfresh H.
    apply (feed_statuses render Hd) in H. rewrite Hfresh in H.
    destruct (in_order_statuses nets 0) as [Hst Hlast].
    change (0 - 1) with (-1) in Hst, Hlast.
    destruct H as [-> ->]. rewrite Hst, Hlast. split; [reflexivity | lia]. }
  split; [| split].
  - intros be l nets cycle copy_size port_num l' statuses Hfresh H.
    exact (Hgen _ (RenderFromNetwork_detects be cycle copy_size port_num)
             _ _ _ _ Hfresh H).
  - intros l nets cycle copy_size port_num l' statuses Hpn Hfresh H.
    exact (Hgen _ (Opt_RenderFromNetwork_detects cycle copy_size port_num Hpn)
             _ _ _ _ Hfresh H).
  - intros l nets cycle copy_size port_num l' statuses H.
    apply (Hgen _ (RenderFromNetwork_detects false cycle copy_size port_num)
             (RenderToJackPorts false l) nets l' statuses); [reflexivity |].
    exact H.
Qed.

Lemma in_order_cycles_accepted_witness :
  exists l' statuses,
    feed (fun l net s => RenderFromNetwork false l net 0 s 8 1)
      (mono_list 0) (in_order_from 0 [repeat 1 8; repeat 2 8; repeat 3 8])
      = Ok (l', statuses) /\
    statuses = repeat 0 3 /\ fLastSubCycle l' = 2.
Proof.
  eexists. eexists. split.
  - vm_compute. reflexivity.
  - apply (proj1 in_order_cycles_accepted false (mono_list 0)
             [repeat 1 8; repeat 2 8; repeat 3 8] 0 8 1).
    + reflexivity.
    + vm_compute. reflexivity.
Defined.

End InOrder.

(** ** Further properties: 64-bit byte order *)

Section LongLong.

Lemma htonll_halves (x : Z) :
  0 <= x < 2 ^ 64 ->
  htonll false x = bswap32 (x mod 2 ^ 32) * 2 ^ 32 + bswap32 (x / 2 ^ 32).
Proof.
  intros H. unfold htonll, htonl.
  rewrite Z.shiftl_mul_pow2, Z.shiftr_div_pow2 by lia.
  assert (Hhi : 0 <= x / 2 ^ 32 < 2 ^ 32).
  { split; [apply Z.div_pos; lia |].
    apply Z.div_lt_upper_bound; [lia |].
    change (2 ^ 32 * 2 ^ 32) with (2 ^ 64). lia. }
  rewrite (u32_id (x / 2 ^ 32)) by exact Hhi.
  change (u32 x) with (x mod 2 ^ 32).
  pose proof (bswap32_range (x mod 2 ^ 32)) as Hlo'.
  pose proof (bswap32_range (x / 2 ^ 32)) as Hhi'.
  rewrite (u64_id (bswap32 (x mod 2 ^ 32))) by lia.
  apply u64_id.
  change (2 ^ 64) with (2 ^ 32 * 2 ^ 32). nia.
Qed.

Lemma halves_of_sum (hi lo : Z) :
  0 <= hi < 2 ^ 32 -> 0 <= lo < 2 ^ 32 ->
  (hi * 2 ^ 32 + lo) mod 2 ^ 32 = lo /\ (hi * 2 ^ 32 + lo) / 2 ^ 32 = hi.
Proof.
  intros Hh Hl. split.
  - rewrite Z.add_comm, Z.mod_add by lia. apply Z.mod_small. exact Hl.
  - rewrite Z.add_comm, Z.div_add by lia. rewrite Z.div_small by exact Hl.
    reflexivity.
Qed.

(** X6. For a [uint64_t] value, [htonll] on a little-endian host
    exchanges the two 32-bit halves and reverses the four bytes of each,
    and is the identity on a big-endian host; on either host its result is
    a [uint64_t] value and [ntohll] gives the value back. *)
Theorem htonll_round_trip :
  forall (be : bool) (x : Z),
    0 <= x < 2 ^ 64 ->
    ntohll be (htonll be x) = x /\
    0 <= htonll be x < 2 ^ 64 /\
    htonll be x
    = if be then x
      else bswap32 (x mod 2 ^ 32) * 2 ^ 32 + bswap32 (x / 2 ^ 32).
Proof.
  intros be x H. destruct be.
  - cbn. repeat split; lia.
  - assert (Hn : forall y, ntohll false y = htonll false y) by reflexivity.
    pose proof (htonll_halves x H) as Hx.
    pose proof (bswap32_range (x mod 2 ^ 32)) as Hlo'.
    pose proof (bswap32_range (x / 2 ^ 32)) as Hhi'.
    assert (Hr : 0 <= htonll false x < 2 ^ 64).
    { rewrite Hx. change (2 ^ 64) with (2 ^ 32 * 2 ^ 32). nia. }
    split; [| split; [exact Hr | exact Hx]].
    rewrite Hn, (htonll_halves _ Hr), Hx.
    destruct (halves_of_sum _ _ Hlo' Hhi') as [-> ->].
    assert (Hlo : 0 <= x mod 2 ^ 32 < 2 ^ 32) by (apply Z.mod_pos_bound; lia).
    assert (Hhi : 0 <= x / 2 ^ 32 < 2 ^ 32).
    { split; [apply Z.div_pos; lia |].
      apply Z.div_lt_upper_bound; [lia |].
      change (2 ^ 32 * 2 ^ 32) with (2 ^ 64). lia. }
    rewrite !bswap32_involutive by assumption.
    pose proof (Z.div_mod x (2 ^ 32) ltac:(lia)). lia.
Qed.

Lemma htonll_round_trip_witness :
  ntohll false (htonll false 72623859790382856) = 72623859790382856 /\
  htonll false 72623859790382856 = 578437695752307201.
Proof.
  destruct (htonll_round_trip false 72623859790382856 ltac:(lia))
    as (Hrt & _ & Hval).
  split; [exact Hrt |]. rewrite Hval. vm_compute. reflexivity.
Defined.

End LongLong.

(** ** Further properties: framed memory accesses *)

Section Framed.

Lemma firstn_app_exact {A : Type} (pre rest : list A) (n : nat) :
  firstn (length pre + n) (pre ++ rest) = pre ++ firstn n rest.
Proof. apply firstn_app_2. Qed.

Lemma skipn_app_exact {A : Type} (pre rest : list A) (n : nat) :
  skipn (length pre + n) (pre ++ rest) = skipn n rest.
Proof.
  rewrite skipn_app. rewrite skipn_all2 by lia.
  replace (length pre + n - length pre)%nat with n by lia. reflexivity.
Qed.

Lemma len_app {A : Type} (l1 l2 : list A) : len (l1 ++ l2) = len l1 + len l2.
Proof. unfold len. rewrite length_app. lia. Qed.

(** A write just after a prefix replaces the first bytes of the rest. *)
Lemma mem_write_framed (pre rest data : list Z) (off : Z) :
  off = len pre -> len data <= len rest ->
  mem_write (pre ++ rest) off data
  = Ok (pre ++ data ++ skipn (length data) rest).
Proof.
  intros -> Hd. pose proof (len_nonneg pre). pose proof (len_nonneg data).
  rewrite mem_write_Ok; try lia.
  - f_equal. unfold len.
    rewrite Nat2Z.id.
    replace (Z.to_nat (Z.of_nat (length pre) + Z.of_nat (length data)))
      with (length pre + length data)%nat by lia.
    rewrite <- (Nat.add_0_r (length pre)) at 1.
    rewrite firstn_app_exact, skipn_app_exact. cbn [firstn].
    rewrite app_nil_r. reflexivity.
  - rewrite len_app. lia.
Qed.

(** A read just after a prefix returns the first bytes of the rest. *)
Lemma mem_read_framed (pre rest : list Z) (off n : Z) :
  off = len pre -> 0 <= n <= len rest ->
  mem_read (pre ++ rest) off n = Ok (firstn (Z.to_nat n) rest).
Proof.
  intros -> Hn. pose proof (len_nonneg pre).
  rewrite mem_read_Ok; try lia.
  - f_equal. unfold len. rewrite Nat2Z.id.
    rewrite <- (Nat.add_0_r (length pre)).
    rewrite skipn_app_exact. reflexivity.
  - rewrite len_app. lia.
Qed.

Lemma ptr_write_Ok (mem : list Z) (off : Z) (data : list Z) :
  0 <= off -> off + len data <= len mem ->
  ptr_write (BufPtr mem) off data = Ok (BufPtr (with_bytes off data mem)).
Proof.
  intros H0 H1. unfold ptr_write. rewrite mem_write_Ok by assumption.
  reflexivity.
Qed.

Lemma length_sub_cycle_bytes (sub_size n sub_cycle : Z) (mem : list Z) :
  0 <= n -> 4 * u32 (sub_cycle * sub_size) + n <= len mem ->
  len (sub_cycle_bytes sub_size n sub_cycle mem) = n.
Proof.
  intros Hn H. pose proof (u32_range (sub_cycle * sub_size)).
  unfold sub_cycle_bytes, len in *.
  rewrite length_firstn, length_skipn. lia.
Qed.

(** Swapping the floats of a whole number of floats keeps the length and
    is undone by swapping again. *)
Lemma swap_floats_twice (n : nat) :
  forall bs : list Z,
    length bs = (4 * n)%nat ->
    length (swap_floats bs) = (4 * n)%nat /\
    swap_floats (swap_floats bs) = bs.
Proof.
  induction n as [| n IH]; intros bs Hl.
  - destruct bs; [split; reflexivity | discriminate].
  - destruct bs as [| b0 [| b1 [| b2 [| b3 rest]]]]; cbn [length] in Hl;
      try lia.
    destruct (IH rest ltac:(lia)) as [Hlen Hinv].
    cbn [swap_floats length]. split; [lia |]. rewrite Hinv. reflexivity.
Qed.

Lemma len_wire_order (be : bool) (data : list Z) (k : Z) :
  0 <= k -> len data = 4 * k -> len (wire_order be data) = 4 * k.
Proof.
  intros Hk Hl. destruct be; [| exact Hl]. unfold wire_order, len in *.
  destruct (swap_floats_twice (Z.to_nat k) data ltac:(lia)) as [H _]. lia.
Qed.

Lemma wire_order_twice (be_s be_r : bool) (data : list Z) (k : Z) :
  0 <= k -> len data = 4 * k ->
  wire_order be_r (wire_order be_s data)
  = if xorb be_s be_r then swap_floats data else data.
Proof.
  intros Hk Hl. destruct be_s, be_r; cbn [wire_order xorb]; try reflexivity.
  unfold len in Hl.
  destruct (swap_floats_twice (Z.to_nat k) data ltac:(lia)) as [_ H].
  exact H.
Qed.

End Framed.

(** ** Further properties: the fixed layout on the wire *)

Section FixedLayout.

Variables (sub bytes sub_cycle : Z).
Hypothesis Hsub : 1 <= sub.
Hypothesis Hbytes : bytes = 4 * sub.

Let off : Z := 4 * u32 (sub_cycle * sub).

Lemma bytes_floats : bytes / 4 = sub /\ 4 * (bytes / 4) = bytes.
Proof.
  assert (H : bytes / 4 = sub).
  { rewrite Hbytes, Z.mul_comm. apply Z.div_mul. lia. }
  rewrite H. split; [reflexivity | lia].
Qed.

(** What a build reads from a port buffer for the wire. *)
Lemma read_for_wire (be : bool) (mem : list Z) :
  off + bytes <= len mem ->
  (if be then
     if bytes / 4 =? 0 then Ok [] 
     else data <- ptr_read (BufPtr mem) off (4 * (bytes / 4)) ;;
          Ok (swap_floats data)
   else data <- ptr_read (BufPtr mem) off bytes ;; Ok data)
  = Ok (wire_order be (sub_cycle_bytes sub bytes sub_cycle mem)).
Proof.
  intros Hm. destruct bytes_floats as [Hf H4].
  pose proof (u32_range (sub_cycle * sub)) as Hr. subst off.
  rewrite H4, Hf.
  replace (sub =? 0) with false by (symmetry; apply Z.eqb_neq; lia).
  unfold ptr_read. rewrite mem_read_Ok by lia.
  destruct be; reflexivity.
Qed.

(** The sender writes the data of its ports one after the other. *)
Lemma render_ports_to_network_Ok (be : bool) (smems : list (list Z)) :
  forall (port_index : Z) (pre rest : list Z),
    0 <= port_index ->
    len pre = port_index * bytes ->
    (forall m, In m smems -> off + bytes <= len m) ->
    len smems * bytes <= len rest ->
    (port_index + len smems) * bytes < 2 ^ 64 ->
    render_ports_to_network be sub bytes sub_cycle (map BufPtr smems)
      port_index (pre ++ rest)
    = Ok (pre
          ++ concat (map (fun m => wire_order be
                                     (sub_cycle_bytes sub bytes sub_cycle m))
                       smems)
          ++ skipn (Z.to_nat (len smems * bytes)) rest).
Proof.
  induction smems as [| m ms IH]; intros port_index pre rest Hi Hpre Hm Hroom Hlim.
  - cbn. reflexivity.
  - cbn [map render_ports_to_network concat].
    rewrite len_cons in Hroom, Hlim. pose proof (len_nonneg ms) as Hms.
    assert (Hmm : off + bytes <= len m) by (apply Hm; left; reflexivity).
    set (chunk := wire_order be (sub_cycle_bytes sub bytes sub_cycle m)).
    assert (Hchunk : len chunk = bytes).
    { unfold chunk. rewrite Hbytes. apply len_wire_order; [lia |].
      rewrite <- Hbytes. apply length_sub_cycle_bytes; [lia | exact Hmm]. }
    assert (Hnet : (if be then
                      if bytes / 4 =? 0 then Ok (pre ++ rest)
                      else data <- ptr_read (BufPtr m) off (4 * (bytes / 4)) ;;
                           mem_write (pre ++ rest) (u64 (port_index * bytes))
                             (swap_floats data)
                    else data <- ptr_read (BufPtr m) off bytes ;;
                         mem_write (pre ++ rest) (u64 (port_index * bytes)) data)
                   = Ok (pre ++ chunk ++ skipn (length chunk) rest)).
    { pose proof (read_for_wire be m Hmm) as Hread. fold chunk in Hread.
      destruct bytes_floats as [Hf H4].
      rewrite u64_id by nia.
      destruct be.
      - rewrite Hf in *.
        replace (sub =? 0) with false in *
          by (symmetry; apply Z.eqb_neq; lia).
        apply bind_Ok in Hread. destruct Hread as [data [-> Hd]].
        injection Hd as Hd. cbn [bind]. rewrite Hd.
        apply mem_write_framed; lia.
      - apply bind_Ok in Hread. destruct Hread as [data [-> Hd]].
        injection Hd as Hd. cbn [bind]. rewrite Hd.
        apply mem_write_framed; lia. }
    fold off. rewrite Hnet. cbn [bind].
    rewrite app_assoc.
    rewrite IH; try lia.
    + f_equal. rewrite <- !app_assoc. f_equal. f_equal. f_equal.
      rewrite skipn_skipn. f_equal.
      assert (Hprod : 0 <= len ms * bytes) by nia.
      rewrite len_cons.
      replace ((1 + len ms) * bytes) with (bytes + len ms * bytes) by ring.
      unfold len in Hchunk. lia.
    + rewrite len_app. lia.
    + intros m' Hin. apply Hm. right. exact Hin.
    + unfold len in *. rewrite length_skipn. lia.
Qed.

(** The receiver copies the data of the wire port by port. *)
Lemma render_ports_from_network_Ok (be : bool) (rmems : list (list Z)) :
  forall (chunks : list (list Z)) (port_index : Z) (pre post : list Z),
    0 <= port_index ->
    len pre = port_index * bytes ->
    length chunks = length rmems ->
    (forall c, In c chunks -> len c = bytes) ->
    (forall m, In m rmems -> off + bytes <= len m) ->
    (port_index + len chunks) * bytes < 2 ^ 64 ->
    render_ports_from_network be sub bytes (pre ++ concat chunks ++ post)
      sub_cycle (map BufPtr rmems) port_index
    = Ok (map (fun cm => BufPtr (with_bytes off (wire_order be (fst cm))
                                   (snd cm)))
            (combine chunks rmems)).
Proof.
  induction rmems as [| m ms IH];
    intros chunks port_index pre post Hi Hpre Hlen Hc Hm Hlim.
  - destruct chunks; [reflexivity | discriminate].
  - destruct chunks as [| c cs]; [discriminate |].
    cbn [map render_ports_from_network concat combine fst snd].
    rewrite len_cons in Hlim. pose proof (len_nonneg cs) as Hcs.
    assert (Hcc : len c = bytes) by (apply Hc; left; reflexivity).
    assert (Hmm : off + bytes <= len m) by (apply Hm; left; reflexivity).
    pose proof (u32_range (sub_cycle * sub)) as Hr.
    assert (Hw : len (wire_order be c) = bytes).
    { rewrite Hbytes. apply len_wire_order; lia. }
    destruct bytes_floats as [Hf H4].
    assert (Hread : mem_read (pre ++ (c ++ concat cs) ++ post)
                      (u64 (port_index * bytes)) bytes = Ok c).
    { rewrite u64_id by nia. rewrite <- app_assoc.
      rewrite mem_read_framed; try lia.
      - f_equal. unfold len in Hcc.
        replace (Z.to_nat bytes) with (length c + 0)%nat by lia.
        rewrite firstn_app_exact. cbn [firstn]. apply app_nil_r.
      - rewrite len_app. pose proof (len_nonneg (concat cs ++ post)). lia. }
    assert (Hport : (if be then
                       if bytes / 4 =? 0 then Ok (BufPtr m)
                       else data <- mem_read (pre ++ (c ++ concat cs) ++ post)
                                      (u64 (port_index * bytes))
                                      (4 * (bytes / 4)) ;;
                            ptr_write (BufPtr m) off (swap_floats data)
                     else data <- mem_read (pre ++ (c ++ concat cs) ++ post)
                                    (u64 (port_index * bytes)) bytes ;;
                          ptr_write (BufPtr m) off data)
                    = Ok (BufPtr (with_bytes off (wire_order be c) m))).
    { destruct be.
      - rewrite H4, Hf.
        replace (sub =? 0) with false by (symmetry; apply Z.eqb_neq; lia).
        rewrite Hread. cbn [bind]. apply ptr_write_Ok; [subst off; lia |].
        lia.
      - rewrite Hread. cbn [bind]. apply ptr_write_Ok; [subst off; lia |].
        lia. }
    fold off. rewrite Hport. cbn [bind].
    replace (pre ++ (c ++ concat cs) ++ post)
      with ((pre ++ c) ++ concat cs ++ post)
      by (rewrite <- !app_assoc; reflexivity).
    rewrite IH; try lia.
    + reflexivity.
    + rewrite len_app. lia.
    + cbn [length] in Hlen. lia.
    + intros c' Hin. apply Hc. right. exact Hin.
    + intros m' Hin. apply Hm. right. exact Hin.
Qed.

End FixedLayout.

Section FixedRoundTrip.

Lemma combine_map_fst {A B C : Type} (f : A -> C) (l : list A) (l' : list B) :
  combine (map f l) l' = map (fun p => (f (fst p), snd p)) (combine l l').
Proof.
  revert l'. induction l as [| a rest IH]; intros l'; [reflexivity |].
  destruct l' as [| b rest']; [reflexivity |].
  cbn [map combine fst snd]. rewrite IH. reflexivity.
Qed.

(** X7. Fixed layout, sender and receiver with buffers on all their
    ports, the same number of ports and the same sub-period: after
    [RenderToNetwork] on the sender and [RenderFromNetwork] on the
    receiver for a sub-cycle, every port of the receiver holds, at the
    frames of that sub-cycle, the bytes the same port of the sender holds
    there when both builds have the same byte order, and these bytes with
    each float reversed when one build is big-endian and the other is
    not; the other frames of the receiver are as before.  The sender
    reports all its ports as active and [fNPorts * fSubPeriodBytesSize]
    bytes. *)
Theorem fixed_layout_round_trip :
  forall (be_s be_r : bool) (s r : JackPortList) (smems rmems : list (list Z))
         (net : list Z) (cycle sub_cycle copy_size port_num : Z),
    let sub := fSubPeriodSize s in
    let bytes := 4 * sub in
    let off := 4 * u32 (sub_cycle * sub) in
    fPortBuffer s = map BufPtr smems ->
    fPortBuffer r = map BufPtr rmems ->
    length smems = length rmems ->
    1 <= sub ->
    fSubPeriodSize r = sub ->
    fSubPeriodBytesSize s = bytes ->
    fSubPeriodBytesSize r = bytes ->
    (forall m, In m smems -> off + bytes <= len m) ->
    (forall m, In m rmems -> off + bytes <= len m) ->
    len smems * bytes <= len net ->
    len net < 2 ^ 64 ->
    INT_MIN <= fLastSubCycle r + 1 <= INT_MAX ->
    exists net' r' res log,
      RenderToNetwork be_s s net sub_cycle
        = Ok (net', u32 (len smems), i32 (u64 (len smems * bytes))) /\
      RenderFromNetwork be_r r net' cycle sub_cycle copy_size port_num
        = Ok (r', res, log) /\
      fPortBuffer r'
      = map (fun sr =>
               let data := sub_cycle_bytes sub bytes sub_cycle (fst sr) in
               BufPtr (with_bytes off
                         (if xorb be_s be_r then swap_floats data else data)
                         (snd sr)))
          (combine smems rmems).
Proof.
  intros be_s be_r s r smems rmems net cycle sub_cycle copy_size port_num
    sub bytes off Hs Hr Hlen Hsub Hrsub Hsb Hrb Hsm Hrm Hroom Hnet Hlast.
  assert (Hbytes : bytes = 4 * sub) by reflexivity.
  pose proof (len_nonneg smems) as Hn.
  set (chunks := map (fun m => wire_order be_s
                                 (sub_cycle_bytes sub bytes sub_cycle m)) smems).
  set (post := skipn (Z.to_nat (len smems * bytes)) net).
  assert (Hsend : render_ports_to_network be_s sub bytes sub_cycle
                    (map BufPtr smems) 0 ([] ++ net)
                  = Ok ([] ++ concat chunks ++ post)).
  { apply (render_ports_to_network_Ok sub bytes sub_cycle Hsub Hbytes be_s
             smems 0 [] net); try lia; try assumption. reflexivity. }
  assert (Hchunks : forall c, In c chunks -> len c = bytes).
  { intros c Hin. unfold chunks in Hin. apply in_map_iff in Hin.
    destruct Hin as [m [<- Hin]]. rewrite Hbytes.
    apply len_wire_order; [lia |]. rewrite <- Hbytes.
    apply length_sub_cycle_bytes; [lia |]. apply Hsm. exact Hin. }
  assert (Hcl : len chunks = len smems)
    by (unfold len, chunks; rewrite length_map; reflexivity).
  assert (Hrecv : render_ports_from_network be_r sub bytes
                    ([] ++ concat chunks ++ post) sub_cycle
                    (map BufPtr rmems) 0
                  = Ok (map (fun cm =>
                               BufPtr (with_bytes off
                                         (wire_order be_r (fst cm)) (snd cm)))
                          (combine chunks rmems))).
  { apply (render_ports_from_network_Ok sub bytes sub_cycle Hsub Hbytes be_r
             rmems chunks 0 [] post); try lia; try assumption.
    - reflexivity.
    - unfold chunks. rewrite length_map. exact Hlen. }
  destruct (check_sub_cycle_total (fLastSubCycle r) sub_cycle Hlast)
    as [res [log Hcheck]].
  cbn [app] in Hsend, Hrecv.
  exists (concat chunks ++ post). eexists. exists res, log.
  split; [| split].
  - unfold RenderToNetwork. fold sub. rewrite Hsb, Hs, Hsend. cbn [bind].
    unfold fNPorts. rewrite Hs.
    replace (len (map BufPtr smems)) with (len smems)
      by (unfold len; rewrite length_map; reflexivity).
    reflexivity.
  - unfold RenderFromNetwork. rewrite Hrsub, Hrb, Hr, Hrecv, Hcheck.
    cbn [bind]. reflexivity.
  - cbn [set_fLastSubCycle set_fPortBuffer fPortBuffer].
    unfold chunks. rewrite combine_map_fst, map_map.
    apply map_ext_in. intros [sm rm] Hin. cbn [fst snd].
    apply in_combine_l in Hin.
    rewrite (wire_order_twice be_s be_r _ sub); try lia.
    + reflexivity.
    + rewrite <- Hbytes. apply length_sub_cycle_bytes; [lia |].
      apply Hsm. exact Hin.
Qed.

Lemma fixed_layout_round_trip_witness :
  exists net' r' res log,
    RenderToNetwork false (mono_list 7) (repeat 0 8) 1
      = Ok (net', 1, 8) /\
    RenderFromNetwork false (mono_list 0) net' 0 1 8 1 = Ok (r', res, log) /\
    fPortBuffer r'
    = [BufPtr (repeat 0 8 ++ repeat 7 8 ++ repeat 0 48)].
Proof.
  destruct (fixed_layout_round_trip false false (mono_list 7) (mono_list 0)
              [repeat 7 64] [repeat 0 64] (repeat 0 8) 0 1 8 1)
    as (net' & r' & res & log & Hsend & Hrecv & Hports);
    try reflexivity; try (vm_compute; discriminate).
  - intros m [<- | []]. vm_compute. discriminate.
  - intros m [<- | []]. vm_compute. discriminate.
  - vm_compute. split; discriminate.
  - exists net', r', res, log.
    split; [exact Hsend |]. split; [exact Hrecv |].
    rewrite Hports. vm_compute. reflexivity.
Defined.

End FixedRoundTrip.

(** ** Further properties: the receive call of the optimized list *)

Section OptimizedReceive.

Lemma len_repeat {A : Type} (x : A) (n : Z) :
  0 <= n -> len (repeat x (Z.to_nat n)) = n.
Proof. intros H. unfold len. rewrite repeat_length. lia. Qed.

Lemma ptr_zero_Ok (mem : list Z) (n : Z) :
  0 <= n <= len mem ->
  ptr_zero (BufPtr mem) n = Ok (zeroed n (BufPtr mem)).
Proof.
  intros H. unfold ptr_zero, mem_zero, zeroed.
  replace (0 <=? n) with true by (symmetry; apply Z.leb_le; lia).
  rewrite mem_write_Ok; [reflexivity | lia |].
  rewrite len_repeat; lia.
Qed.

Lemma cleanup_ports_Ok (n : Z) (ports : list sample_ptr) :
  0 <= n ->
  (forall p, In p ports -> null_or_buffer n p) ->
  JackOptimizedPortList.cleanup_ports n ports = Ok (map (zeroed n) ports).
Proof.
  intros Hn. induction ports as [| p rest IH]; intros Hp; [reflexivity |].
  cbn [JackOptimizedPortList.cleanup_ports map].
  rewrite IH by (intros q Hq; apply Hp; right; exact Hq).
  destruct (Hp p (or_introl eq_refl)) as [-> | [mem [-> Hl]]].
  - reflexivity.
  - cbn [is_set]. rewrite ptr_zero_Ok by lia. reflexivity.
Qed.

Lemma ptr_zero_no_assert (p : sample_ptr) (n : Z) :
  ptr_zero p n <> AssertFailed.
Proof.
  destruct p as [| | mem]; cbn [ptr_zero]; try discriminate.
  unfold mem_zero, mem_write.
  destruct (0 <=? n); [| discriminate].
  destruct ((0 <=? 0) && (0 + len (repeat 0 (Z.to_nat n)) <=? len mem));
    discriminate.
Qed.

Lemma cleanup_ports_mark (n : Z) (ports : list sample_ptr) :
  In MarkPtr ports ->
  JackOptimizedPortList.cleanup_ports n ports = Undefined.
Proof.
  induction ports as [| p rest IH]; intros Hin; [destruct Hin |].
  cbn [JackOptimizedPortList.cleanup_ports].
  destruct Hin as [-> | Hin]; [reflexivity |].
  rewrite (IH Hin).
  destruct (is_set p); [| reflexivity].
  pose proof (ptr_zero_no_assert p n) as Hna.
  destruct (ptr_zero p n); [reflexivity | contradiction | reflexivity].
Qed.

(** X8. A packet without active port received by the optimized list: at
    sub-cycle 0 every port with a buffer of a period gets the bytes of the
    period set to zero, the ports without buffer and all other fields
    stay as they are, and the call returns 0; at another sub-cycle the
    list is unchanged.  At sub-cycle 0 a slot that holds the connection
    mark -1 is written through, whatever the packet: the behaviour is
    undefined. *)
Theorem packet_without_active_port :
  forall (l : JackPortList) (net : list Z) (cycle copy_size : Z),
    (0 <= fPeriodSize l < 2 ^ 32 ->
     (forall p, In p (fPortBuffer l) ->
                null_or_buffer (4 * fPeriodSize l) p) ->
     JackOptimizedPortList.RenderFromNetwork l net cycle 0 copy_size 0
     = Ok (set_fPortBuffer l (map (zeroed (4 * fPeriodSize l)) (fPortBuffer l)),
           0, [])) /\
    (forall sub_cycle,
        sub_cycle <> 0 ->
        JackOptimizedPortList.RenderFromNetwork l net cycle sub_cycle
          copy_size 0
        = Ok (set_fPortBuffer l (fPortBuffer l), 0, [])) /\
    (forall port_num,
        In MarkPtr (fPortBuffer l) ->
        JackOptimizedPortList.RenderFromNetwork l net cycle 0 copy_size port_num
        = Undefined).
Proof.
  intros l net cycle copy_size.
  unfold JackOptimizedPortList.RenderFromNetwork. split; [| split].
  - intros HP Hports. cbn [Z.eqb Z.gtb Z.compare].
    unfold sizeof_sample_t. rewrite u64_id by lia.
    replace (fPeriodSize l * 4) with (4 * fPeriodSize l) by lia.
    rewrite cleanup_ports_Ok by (lia || assumption). reflexivity.
  - intros sub_cycle Hs.
    replace (sub_cycle =? 0) with false by (symmetry; apply Z.eqb_neq; lia).
    reflexivity.
  - intros port_num Hin. cbn [Z.eqb].
    rewrite cleanup_ports_mark by exact Hin. reflexivity.
Qed.

Lemma packet_without_active_port_witness :
  JackOptimizedPortList.RenderFromNetwork (mono_list 7) [] 0 0 0 0
  = Ok (mono_list 0, 0, []).
Proof.
  rewrite (proj1 (packet_without_active_port (mono_list 7) [] 0 0)).
  - vm_compute. reflexivity.
  - vm_compute. split; [discriminate | reflexivity].
  - intros p [<- | []]. right. exists (repeat 7 64).
    split; [reflexivity | vm_compute; discriminate].
Defined.

Lemma array_get_inv {A : Type} (a : list A) (i : Z) (x : A) :
  array_get a i = Ok x -> 0 <= i < len a.
Proof.
  unfold array_get. destruct (i <? 0) eqn:Hneg; try discriminate.
  apply Z.ltb_ge in Hneg.
  destruct (nth_error a (Z.to_nat i)) eqn:Hn; try discriminate.
  intros _. assert (Hlt : (Z.to_nat i < length a)%nat).
  { apply nth_error_Some. rewrite Hn. discriminate. }
  unfold len. lia.
Qed.

Lemma cleanup_ports_length (n : Z) (ports : list sample_ptr) :
  forall ports',
    JackOptimizedPortList.cleanup_ports n ports = Ok ports' ->
    length ports' = length ports.
Proof.
  induction ports as [| p rest IH]; intros ports' H.
  - injection H as <-. reflexivity.
  - cbn [JackOptimizedPortList.cleanup_ports] in H.
    apply bind_Ok in H. destruct H as [p' [_ H]].
    apply bind_Ok in H. destruct H as [rest' [Hrest H]].
    injection H as <-. cbn [length]. rewrite (IH _ Hrest). reflexivity.
Qed.

(** The slots of the packet are looked up in the array of the list: the
    loop completes only if all of them are inside it. *)
Lemma copy_active_ports_inside (net : list Z)
    (sub_cycle sub_period_size sub_period_bytes_size : Z) (n : nat) :
  forall (port_index : Z) (ports ports' : list sample_ptr),
    0 <= port_index ->
    JackOptimizedPortList.copy_active_ports net sub_cycle sub_period_size
      sub_period_bytes_size n port_index ports = Ok ports' ->
    (n <> 0%nat -> port_index + Z.of_nat n <= len ports) /\
    len ports' = len ports.
Proof.
  induction n as [| n IH]; intros port_index ports ports' Hi H.
  - cbn in H. injection H as <-. split; [intros Hn; contradiction |].
    reflexivity.
  - cbn [JackOptimizedPortList.copy_active_ports] in H.
    apply bind_Ok in H. destruct H as [word [_ H]].
    apply bind_Ok in H. destruct H as [slot [Hslot H]].
    apply bind_Ok in H. destruct H as [ports1 [Hports1 H]].
    apply array_get_inv in Hslot.
    assert (Hl1 : len ports1 = len ports).
    { destruct (is_set slot).
      - apply bind_Ok in Hports1. destruct Hports1 as [dst [_ Hports1]].
        apply bind_Ok in Hports1. destruct Hports1 as [frame [_ Hports1]].
        apply bind_Ok in Hports1. destruct Hports1 as [data [_ Hports1]].
        apply bind_Ok in Hports1. destruct Hports1 as [dst' [_ Hports1]].
        apply array_set_inv in Hports1. destruct Hports1 as [_ ->].
        unfold len. rewrite length_update. reflexivity.
      - injection Hports1 as <-. reflexivity. }
    apply IH in H; [| lia]. destruct H as [Hn Hl].
    split; [| lia]. intros _.
    destruct n as [| n']; [lia |].
    specialize (Hn ltac:(discriminate)). lia.
Qed.

(** X9. A receive call of the optimized list that completes had a
    [port_num] not larger than the number of ports, and keeps the number
    of ports: the call looks up one slot of [fPortBuffer] for each of the
    [port_num] slots of the packet and does not compare [port_num] with
    [fNPorts], so a larger [port_num] indexes the array beyond its end. *)
Theorem receive_looks_up_port_num_slots :
  forall (l : JackPortList) (net : list Z)
         (cycle sub_cycle copy_size port_num : Z)
         (l' : JackPortList) (res : Z) (log : list log_entry),
    JackOptimizedPortList.RenderFromNetwork l net cycle sub_cycle copy_size
      port_num = Ok (l', res, log) ->
    port_num <= fNPorts l /\ fNPorts l' = fNPorts l.
Proof.
  intros l net cycle sub_cycle copy_size port_num l' res log H.
  unfold JackOptimizedPortList.RenderFromNetwork in H.
  apply bind_Ok in H. destruct H as [ports0 [Hclean H]].
  assert (Hl0 : len ports0 = fNPorts l).
  { unfold fNPorts, len. destruct (sub_cycle =? 0).
    - rewrite (cleanup_ports_length _ _ _ Hclean). reflexivity.
    - injection Hclean as <-. reflexivity. }
  pose proof (len_nonneg ports0) as Hnn.
  destruct (port_num >? 0) eqn:Hpn.
  - rewrite Z.gtb_ltb in Hpn. apply Z.ltb_lt in Hpn.
    apply bind_Ok in H. destruct H as [sub [_ H]].
    apply bind_Ok in H. destruct H as [ports1 [Hcopy H]].
    apply bind_Ok in H. destruct H as [[res0 log0] [_ H]].
    injection H as <- _ _.
    apply copy_active_ports_inside in Hcopy; [| lia].
    destruct Hcopy as [Hn Hl1].
    unfold fNPorts in *.
    cbn [set_fLastSubCycle set_fPortBuffer fPortBuffer]. split; [| lia].
    assert (Hnz : Z.to_nat port_num <> 0%nat) by lia.
    specialize (Hn Hnz). lia.
  - rewrite Z.gtb_ltb in Hpn. apply Z.ltb_ge in Hpn.
    injection H as <- _ _. unfold fNPorts in *.
    cbn [set_fPortBuffer fPortBuffer]. split; lia.
Qed.

Lemma receive_looks_up_port_num_slots_witness :
  exists l' res log,
    JackOptimizedPortList.RenderFromNetwork (mono_list 0)
      (u32_bytes 0 ++ repeat 5 8) 0 0 12 1 = Ok (l', res, log) /\
    1 <= fNPorts (mono_list 0) /\ fNPorts l' = fNPorts (mono_list 0).
Proof.
  eexists. eexists. eexists. split.
  - vm_compute. reflexivity.
  - apply (receive_looks_up_port_num_slots (mono_list 0)
             (u32_bytes 0 ++ repeat 5 8) 0 0 12 1 _ 0 []).
    vm_compute. reflexivity.
Defined.

End OptimizedReceive.

(** ** Further properties: the list of active ports on the wire *)

Section ActivePortsList.

Lemma skipn_with_bytes (off : Z) (data mem : list Z) (k : nat) :
  0 <= off -> off + len data <= len mem ->
  (Z.to_nat (off + len data) <= k)%nat ->
  skipn k (with_bytes off data mem) = skipn k mem.
Proof.
  intros H0 H1 Hk. unfold with_bytes, len in *.
  assert (Hpre : length (firstn (Z.to_nat off) mem) = Z.to_nat off)
    by (rewrite length_firstn; lia).
  rewrite skipn_app, Hpre. rewrite skipn_all2 by lia. cbn [app].
  rewrite skipn_app. rewrite skipn_all2 by lia. cbn [app].
  rewrite skipn_skipn. f_equal. lia.
Qed.

(** The bytes after the last entry are not written. *)
Lemma write_active_ports_suffix (be : bool) (ports : list sample_ptr) :
  forall (port_index : Z) (net : list Z) (addr port_num : Z)
         (net' : list Z) (port_num' : Z),
    0 <= addr ->
    JackOptimizedPortList.write_active_ports be ports port_index net addr
      port_num = Ok (net', port_num') ->
    skipn (Z.to_nat (addr + 2 * len (active_indices ports port_index))) net'
    = skipn (Z.to_nat (addr + 2 * len (active_indices ports port_index))) net.
Proof.
  induction ports as [| p rest IH];
    intros port_index net addr port_num net' port_num' Ha H.
  - cbn in H. injection H as <- _. reflexivity.
  - cbn [JackOptimizedPortList.write_active_ports active_indices] in *.
    destruct (is_set p).
    + apply bind_Ok in H. destruct H as [net1 [Hw H]].
      destruct (u32 (port_num + 1) <? 512); try discriminate.
      apply mem_write_inv in Hw. destruct Hw as (_ & Hroom & ->).
      apply IH in H; [| lia].
      rewrite len_cons.
      pose proof (len_nonneg (active_indices rest (port_index + 1))) as Hl.
      replace (addr + 2 * (1 + len (active_indices rest (port_index + 1))))
        with (addr + 2 + 2 * len (active_indices rest (port_index + 1)))
        by lia.
      rewrite H.
      apply (skipn_with_bytes addr (short_bytes be (i16 port_index)) net);
        try lia.
      assert (Hb : len (short_bytes be (i16 port_index)) = 2)
        by (unfold len; rewrite length_short_bytes; reflexivity).
      lia.
    + apply IH in H; assumption.
Qed.

(** The active indices are in increasing order. *)
Lemma active_indices_sorted (ports : list sample_ptr) :
  forall port_index, StronglySorted Z.lt (active_indices ports port_index).
Proof.
  induction ports as [| p rest IH]; intros port_index.
  - constructor.
  - cbn [active_indices]. destruct (is_set p); [| apply IH].
    constructor; [apply IH |].
    apply Forall_forall. intros x Hin.
    apply active_indices_bounds in Hin. lia.
Qed.

(** X10. With fewer than 512 active ports among at most 32768 and room
    in the buffer, [ActivePortsToNetwork] writes at the start of the
    buffer, as consecutive [short] entries in strictly increasing order,
    the indices of exactly the ports that have a buffer, counts them in
    [port_num], and leaves the bytes after the last entry as they were. *)
Theorem active_ports_written_in_order :
  forall (be : bool) (l : JackPortList) (net : list Z),
    let active := JackOptimizedPortList.count_active (fPortBuffer l) in
    let indices := active_indices (fPortBuffer l) 0 in
    active < 512 ->
    fNPorts l <= 32768 ->
    2 * active <= len net ->
    exists net',
      JackOptimizedPortList.ActivePortsToNetwork be l net = Ok (net', active) /\
      length net' = length net /\
      read_shorts be net' 0 (Z.to_nat active) = indices /\
      skipn (Z.to_nat (2 * active)) net' = skipn (Z.to_nat (2 * active)) net /\
      StronglySorted Z.lt indices /\
      (forall i, In i indices <->
                 exists p, GetBuffer l i = Ok p /\ is_set p = true).
Proof.
  intros be l net active indices Hlim Hshort Hroom.
  pose proof (len_active_indices (fPortBuffer l) 0) as Hcount.
  fold active indices in Hcount.
  assert (Hpos : 0 <= active) by apply count_active_nonneg.
  destruct (write_active_ports_Ok be (fPortBuffer l) 0 net 0 0)
    as (net' & Hrun & Hl' & _ & Hread); fold indices; try lia.
  fold indices in Hrun, Hread.
  pose proof (write_active_ports_suffix be (fPortBuffer l) 0 net 0 0 net' _
                ltac:(lia) Hrun) as Hsuffix.
  fold indices in Hsuffix. rewrite Hcount in Hrun, Hsuffix.
  exists net'. split; [exact Hrun |]. split; [exact Hl' |].
  split; [| split; [exact Hsuffix | split]].
  - replace (Z.to_nat active) with (length indices)
      by (unfold len in Hcount; lia).
    rewrite Hread. rewrite <- (map_id indices) at 2.
    apply map_ext_in. intros x Hin.
    apply active_indices_bounds in Hin. unfold fNPorts in Hshort.
    apply i16_id. lia.
  - apply active_indices_sorted.
  - intros i. unfold GetBuffer. split.
    + intros Hin. pose proof (active_indices_bounds _ _ _ Hin) as Hb.
      rewrite array_get_nth by lia.
      destruct (nth_error (fPortBuffer l) (Z.to_nat i)) as [p |] eqn:Hp.
      * exists p. split; [reflexivity |].
        pose proof (existsb_active_indices _ 0 _ _ Hp) as He.
        rewrite Z.add_0_l, Z2Nat.id in He by lia. rewrite <- He.
        apply existsb_exists. exists i. split; [exact Hin | apply Z.eqb_refl].
      * apply nth_error_None in Hp. unfold len in Hb. lia.
    + intros [p [Hget Hset]].
      pose proof (array_get_inv _ _ _ Hget) as Hb.
      rewrite array_get_nth in Hget by lia.
      destruct (nth_error (fPortBuffer l) (Z.to_nat i)) as [q |] eqn:Hq;
        try discriminate.
      injection Hget as ->.
      pose proof (existsb_active_indices _ 0 _ _ Hq) as He.
      rewrite Z.add_0_l, Z2Nat.id, Hset in He by lia.
      apply existsb_exists in He. destruct He as [x [Hin Heq]].
      apply Z.eqb_eq in Heq. subst x. exact Hin.
Qed.

Lemma active_ports_written_in_order_witness :
  exists net',
    JackOptimizedPortList.ActivePortsToNetwork false (last_active 4)
      [9; 9; 9; 9] = Ok (net', 1) /\
    read_shorts false net' 0 1 = [3] /\
    skipn 2 net' = [9; 9].
Proof.
  destruct (active_ports_written_in_order false (last_active 4) [9; 9; 9; 9])
    as (net' & Hrun & _ & Hread & Hrest & _).
  - vm_compute. reflexivity.
  - vm_compute. discriminate.
  - vm_compute. discriminate.
  - exists net'. split; [exact Hrun |]. split; [exact Hread | exact Hrest].
Defined.

End ActivePortsList.

(** ** Further properties: [Copy] *)

Section CopyPorts.

Lemma update_framed {A : Type} (pre : list A) (y x : A) (rest : list A) :
  update (pre ++ y :: rest) (length pre) x = pre ++ x :: rest.
Proof.
  induction pre as [| a pre IH]; [reflexivity |].
  cbn [app length update]. rewrite IH. reflexivity.
Qed.

Lemma array_get_framed {A : Type} (pre : list A) (x : A) (rest : list A)
    (i : Z) :
  i = len pre -> array_get (pre ++ x :: rest) i = Ok x.
Proof.
  intros ->. pose proof (len_nonneg pre). rewrite array_get_nth by lia.
  unfold len. rewrite Nat2Z.id.
  rewrite nth_error_app2 by lia. rewrite Nat.sub_diag. reflexivity.
Qed.

Lemma array_set_framed {A : Type} (pre : list A) (y x : A) (rest : list A)
    (i : Z) :
  i = len pre -> array_set (pre ++ y :: rest) i x = Ok (pre ++ x :: rest).
Proof.
  intros ->. pose proof (len_nonneg pre). pose proof (len_nonneg rest).
  rewrite array_set_Ok by (rewrite len_app, len_cons; lia).
  unfold len. rewrite Nat2Z.id, update_framed. reflexivity.
Qed.

Lemma copy_ports_Ok (n : Z) (pmems : list (list Z)) :
  0 <= n ->
  (forall m, In m pmems -> n <= len m) ->
  forall (dmems : list (list Z)) (port_index : Z)
         (done extra : list sample_ptr),
    length dmems = length pmems ->
    port_index = len done ->
    (forall m, In m dmems -> n <= len m) ->
    copy_ports n (map BufPtr pmems) port_index
      (done ++ map BufPtr dmems ++ extra)
    = Ok (done
          ++ map (fun pd => BufPtr (with_bytes 0 (firstn (Z.to_nat n) (fst pd))
                                      (snd pd)))
               (combine pmems dmems)
          ++ extra).
Proof.
  intros Hn. induction pmems as [| m ms IH];
    intros Hp dmems port_index done extra Hlen Hi Hd.
  - destruct dmems; [reflexivity | discriminate].
  - destruct dmems as [| d ds]; [discriminate |].
    cbn [map copy_ports combine app fst snd].
    rewrite array_get_framed by exact Hi. cbn [bind].
    assert (Hm : n <= len m) by (apply Hp; left; reflexivity).
    assert (Hdd : n <= len d) by (apply Hd; left; reflexivity).
    unfold ptr_read. rewrite mem_read_Ok by lia.
    change (Z.to_nat 0) with 0%nat. cbn [skipn bind].
    assert (Hdata : len (firstn (Z.to_nat n) m) = n)
      by (unfold len in *; rewrite length_firstn; lia).
    rewrite ptr_write_Ok by lia. cbn [bind].
    rewrite array_set_framed by exact Hi. cbn [bind].
    set (x := BufPtr (with_bytes 0 (firstn (Z.to_nat n) m) d)).
    change (done ++ x :: map BufPtr ds ++ extra)
      with (done ++ [x] ++ map BufPtr ds ++ extra).
    rewrite app_assoc.
    rewrite IH.
    + rewrite <- app_assoc. reflexivity.
    + intros m' Hin. apply Hp. right. exact Hin.
    + cbn [length] in Hlen. lia.
    + rewrite len_app. subst port_index. unfold len. cbn [length]. lia.
    + intros m' Hin. apply Hd. right. exact Hin.
Qed.

Lemma copy_ports_reads_buffers (n : Z) (ports : list sample_ptr) :
  forall (port_index : Z) (buffers result : list sample_ptr),
    copy_ports n ports port_index buffers = Ok result ->
    forall p, In p ports -> exists mem, p = BufPtr mem.
Proof.
  induction ports as [| q rest IH]; intros port_index buffers result H p Hin.
  - destruct Hin.
  - cbn [copy_ports] in H.
    apply bind_Ok in H. destruct H as [dst [_ H]].
    apply bind_Ok in H. destruct H as [data [Hread H]].
    apply bind_Ok in H. destruct H as [dst' [_ H]].
    apply bind_Ok in H. destruct H as [buffers' [_ H]].
    destruct Hin as [<- | Hin].
    + destruct q as [| | mem]; try discriminate. exists mem. reflexivity.
    + exact (IH _ _ _ H p Hin).
Qed.

(** X11. When every port of the list and every destination has a buffer
    of a period, [Copy] replaces the first period of each destination by
    the first period of the port of the same index and leaves the rest of
    each destination, and the destinations beyond the last port, as they
    were.  [Copy] does not test the ports: it completes only if every port
    of the list has a buffer. *)
Theorem copy_copies_a_period_of_each_port :
  (forall (l : JackPortList) (pmems dmems : list (list Z))
          (extra : list sample_ptr),
      let n := 4 * fPeriodSize l in
      0 <= fPeriodSize l < 2 ^ 32 ->
      fPortBuffer l = map BufPtr pmems ->
      length dmems = length pmems ->
      (forall m, In m pmems -> n <= len m) ->
      (forall m, In m dmems -> n <= len m) ->
      Copy l (map BufPtr dmems ++ extra)
      = Ok (map (fun pd => BufPtr (with_bytes 0 (firstn (Z.to_nat n) (fst pd))
                                     (snd pd)))
              (combine pmems dmems)
            ++ extra)) /\
  (forall (l : JackPortList) (buffers result : list sample_ptr),
      Copy l buffers = Ok result ->
      forall p, In p (fPortBuffer l) -> exists mem, p = BufPtr mem).
Proof.
  split.
  - intros l pmems dmems extra n HP Hports Hlen Hp Hd.
    unfold Copy, sizeof_sample_t. rewrite u64_id by lia.
    replace (fPeriodSize l * 4) with n by (subst n; lia).
    rewrite Hports.
    apply (copy_ports_Ok n pmems ltac:(subst n; lia) Hp dmems 0 [] extra
             Hlen eq_refl Hd).
  - intros l buffers result H. unfold Copy in H.
    exact (copy_ports_reads_buffers _ _ _ _ _ H).
Qed.

Lemma copy_copies_a_period_of_each_port_witness :
  Copy (mono_list 7) (map BufPtr [repeat 0 70] ++ [NullPtr])
  = Ok ([BufPtr (repeat 7 64 ++ repeat 0 6)] ++ [NullPtr]).
Proof.
  rewrite (proj1 copy_copies_a_period_of_each_port (mono_list 7)
             [repeat 7 64] [repeat 0 70] [NullPtr]).
  - vm_compute. reflexivity.
  - vm_compute. split; [discriminate | reflexivity].
  - reflexivity.
  - reflexivity.
  - intros m [<- | []]. vm_compute. discriminate.
  - intros m [<- | []]. vm_compute. discriminate.
Defined.

End CopyPorts.

(** ** Further properties: the packet of the optimized layout *)

Section OptimizedPacket.

Variables (sub bytes sub_cycle : Z).
Hypothesis Hbytes : 4 <= bytes.

Let off : Z := 4 * u32 (sub_cycle * sub).

Lemma len_u32_bytes (x : Z) : len (u32_bytes x) = 4.
Proof. reflexivity. Qed.

(** The sender writes a slot for each port with a buffer. *)
Lemma copy_to_network_Ok (ports : list sample_ptr) :
  forall (port_index : Z) (pre rest : list Z) (port_num : Z),
    let active := JackOptimizedPortList.count_active ports in
    (forall p, In p ports -> null_or_buffer (off + (bytes - 4)) p) ->
    0 <= port_num ->
    len pre = port_num * bytes ->
    active * bytes <= len rest ->
    (port_num + active) * bytes < 2 ^ 64 ->
    port_num + active < 2 ^ 32 ->
    JackOptimizedPortList.copy_to_network sub bytes sub_cycle ports port_index
      (pre ++ rest) port_num
    = Ok (pre ++ concat (packet_slots sub (bytes - 4) sub_cycle ports port_index)
            ++ skipn (Z.to_nat (active * bytes)) rest,
          port_num + active).
Proof.
  induction ports as [| p ps IH];
    intros port_index pre rest port_num active Hp Hn Hpre Hroom Hlim Hcnt.
  - subst active. cbn. rewrite Z.add_0_r. reflexivity.
  - subst active.
    cbn [JackOptimizedPortList.copy_to_network
         JackOptimizedPortList.count_active packet_slots] in *.
    pose proof (count_active_nonneg ps) as Hc.
    assert (Hps : forall q, In q ps -> null_or_buffer (off + (bytes - 4)) q)
      by (intros q Hq; apply Hp; right; exact Hq).
    destruct (Hp p (or_introl eq_refl)) as [-> | [mem [-> Hmem]]].
    + cbn [is_set] in *. rewrite Z.add_0_l in *. apply IH; assumption.
    + cbn [is_set concat] in *.
      pose proof (u32_range (sub_cycle * sub)) as Hr.
      set (word := u32_bytes (u32 port_index)).
      set (chunk := sub_cycle_bytes sub (bytes - 4) sub_cycle mem).
      assert (Hchunk : len chunk = bytes - 4).
      { apply length_sub_cycle_bytes; [lia |]. fold off. lia. }
      assert (Hword : len word = 4) by reflexivity.
      rewrite u64_id by nia.
      rewrite mem_write_framed by nia. cbn [bind].
      unfold ptr_read. fold off. unfold sizeof_uint32_t.
      rewrite (u64_id (bytes - 4)) by lia.
      rewrite mem_read_Ok by (subst off; lia).
      change (firstn (Z.to_nat (bytes - 4)) (skipn (Z.to_nat off) mem))
        with chunk.
      cbn [bind].
      rewrite app_assoc.
      rewrite mem_write_framed.
      * cbn [bind]. rewrite u32_id by lia.
        rewrite app_assoc.
        rewrite IH; try assumption; try lia.
        -- f_equal. f_equal; [| lia].
           rewrite <- !app_assoc. f_equal. f_equal. f_equal. f_equal.
           rewrite !skipn_skipn. f_equal.
           assert (Hprod : 0 <= JackOptimizedPortList.count_active ps * bytes)
             by nia.
           replace ((1 + JackOptimizedPortList.count_active ps) * bytes)
             with (bytes + JackOptimizedPortList.count_active ps * bytes)
             by ring.
           unfold len in Hchunk, Hword. lia.
        -- rewrite !len_app. nia.
        -- unfold len in *. rewrite !length_skipn. nia.
      * rewrite len_app. lia.
      * unfold len in *. rewrite length_skipn. nia.
Qed.

End OptimizedPacket.

Section OptimizedPacketLayout.

Lemma packet_slots_shape (sub n sub_cycle : Z) (ports : list sample_ptr) :
  0 <= n ->
  (forall p, In p ports ->
             null_or_buffer (4 * u32 (sub_cycle * sub) + n) p) ->
  forall port_index,
    len (packet_slots sub n sub_cycle ports port_index)
    = JackOptimizedPortList.count_active ports /\
    (forall slot, In slot (packet_slots sub n sub_cycle ports port_index) ->
                  len slot = 4 + n).
Proof.
  intros Hn. induction ports as [| p ps IH]; intros Hp port_index.
  - split; [reflexivity | intros slot []].
  - assert (Hps : forall q, In q ps ->
                    null_or_buffer (4 * u32 (sub_cycle * sub) + n) q)
      by (intros q Hq; apply Hp; right; exact Hq).
    destruct (IH Hps (port_index + 1)) as [Hlen Hslots].
    cbn [packet_slots JackOptimizedPortList.count_active].
    destruct (Hp p (or_introl eq_refl)) as [-> | [mem [-> Hmem]]].
    + cbn [is_set]. split; [rewrite Hlen; reflexivity | exact Hslots].
    + cbn [is_set]. split.
      * rewrite len_cons, Hlen. reflexivity.
      * intros slot [<- | Hin]; [| apply Hslots; exact Hin].
        rewrite len_app, len_u32_bytes.
        rewrite length_sub_cycle_bytes; lia.
Qed.

(** X12. [JackOptimizedPortList::RenderToNetwork] on a list whose ports
    are [NULL] or hold the frames of the sub-cycle writes, from the start
    of the buffer, one slot of [fSubPeriodBytesSize] bytes for each port
    with a buffer, in the order of the ports: the index of the port as a
    little-endian [uint32_t], then [fSubPeriodBytesSize - 4] bytes of the
    port from the first frame of the sub-cycle on.  It leaves the bytes
    after the last slot as they were, sets [port_num] to the number of
    ports with a buffer and returns [port_num * fSubPeriodBytesSize]. *)
Theorem optimized_packet_layout :
  forall (l : JackPortList) (net : list Z) (sub_cycle : Z),
    let sub := fSubPeriodSize l in
    let bytes := fSubPeriodBytesSize l in
    let active := JackOptimizedPortList.count_active (fPortBuffer l) in
    let slots := packet_slots sub (bytes - 4) sub_cycle (fPortBuffer l) 0 in
    4 <= bytes ->
    (forall p, In p (fPortBuffer l) ->
               null_or_buffer (4 * u32 (sub_cycle * sub) + (bytes - 4)) p) ->
    active * bytes <= len net ->
    len net < 2 ^ 64 ->
    active < 2 ^ 32 ->
    JackOptimizedPortList.RenderToNetwork l net sub_cycle
    = Ok (concat slots ++ skipn (Z.to_nat (active * bytes)) net,
          active, i32 (u64 (active * bytes))) /\
    len slots = active /\
    (forall slot, In slot slots -> len slot = bytes).
Proof.
  intros l net sub_cycle sub bytes active slots Hb Hp Hroom Hnet Hact.
  pose proof (count_active_nonneg (fPortBuffer l)) as Hc. fold active in Hc.
  destruct (packet_slots_shape sub (bytes - 4) sub_cycle (fPortBuffer l)
              ltac:(lia) Hp 0) as [Hlen Hslots].
  fold slots active in Hlen, Hslots.
  split; [| split; [exact Hlen |]].
  - unfold JackOptimizedPortList.RenderToNetwork. fold sub bytes.
    pose proof (copy_to_network_Ok sub bytes sub_cycle Hb (fPortBuffer l)
                  0 [] net 0 Hp ltac:(lia) eq_refl) as Hrun.
    cbn zeta in Hrun. fold active slots in Hrun.
    cbn [app] in Hrun. rewrite Z.add_0_l in Hrun.
    rewrite Hrun by lia. reflexivity.
  - intros slot Hin. rewrite (Hslots slot Hin). lia.
Qed.

Lemma optimized_packet_layout_witness :
  JackOptimizedPortList.RenderToNetwork
    (set_fSubPeriod (mono_list 7) 2 12) (repeat 0 14) 1
  = Ok (u32_bytes 0 ++ repeat 7 8 ++ [0; 0], 1, 12).
Proof.
  destruct (optimized_packet_layout (set_fSubPeriod (mono_list 7) 2 12)
              (repeat 0 14) 1) as [Hrun _].
  - vm_compute. discriminate.
  - intros p [<- | []]. right. exists (repeat 7 64).
    split; [reflexivity | vm_compute; discriminate].
  - vm_compute. discriminate.
  - vm_compute. reflexivity.
  - vm_compute. reflexivity.
  - rewrite Hrun. vm_compute. reflexivity.
Defined.

End OptimizedPacketLayout.

(** ** Further properties: the optimized layout with the first ports active *)

Section DenseReceive.

Variables (sub_cycle sps sbs : Z).
Hypothesis Hsbs : 4 <= sbs.
Hypothesis Hframe : 0 <= sub_cycle * sps <= INT_MAX.

(** The receiver copies the slots that name the ports in the order of the
    ports, when these ports have buffers. *)
Lemma copy_active_ports_dense (rmems : list (list Z)) :
  forall (chunks : list (list Z)) (k : Z) (done tail : list sample_ptr)
         (pre post : list Z),
    length chunks = length rmems ->
    (forall c, In c chunks -> len c = sbs - 4) ->
    (forall m, In m rmems -> 4 * (sub_cycle * sps) + (sbs - 4) <= len m) ->
    k = len done ->
    len pre = k * sbs ->
    (k + len rmems) * sbs < 2 ^ 32 ->
    JackOptimizedPortList.copy_active_ports
      (pre ++ concat (numbered_slots k chunks) ++ post)
      sub_cycle sps sbs (length rmems) k
      (done ++ map BufPtr rmems ++ tail)
    = Ok (done
          ++ map (fun cm => BufPtr (with_bytes (4 * (sub_cycle * sps))
                                      (fst cm) (snd cm)))
               (combine chunks rmems)
          ++ tail).
Proof.
  induction rmems as [| m ms IH];
    intros chunks k done tail pre post Hlen Hc Hm Hk Hpre Hlim.
  - destruct chunks; [reflexivity | discriminate].
  - destruct chunks as [| c cs]; [discriminate |].
    pose proof (len_nonneg done) as Hd. pose proof (len_nonneg ms) as Hms.
    rewrite len_cons in Hlim.
    assert (Hcc : len c = sbs - 4) by (apply Hc; left; reflexivity).
    assert (Hmm : 4 * (sub_cycle * sps) + (sbs - 4) <= len m)
      by (apply Hm; left; reflexivity).
    assert (Hk32 : 0 <= k < 2 ^ 32) by nia.
    cbn [length map combine app fst snd numbered_slots concat
         JackOptimizedPortList.copy_active_ports].
    set (word := u32_bytes (u32 k)).
    set (rest := concat (numbered_slots (k + 1) cs) ++ post).
    replace (pre ++ ((word ++ c) ++ concat (numbered_slots (k + 1) cs)) ++ post)
      with (pre ++ word ++ c ++ rest)
      by (unfold rest; rewrite <- !app_assoc; reflexivity).
    rewrite (u32_id (k * sbs)) by nia.
    rewrite mem_read_framed; [| lia |].
    + replace (Z.to_nat 4) with (length word + 0)%nat by reflexivity.
      rewrite firstn_app_exact. cbn [firstn]. rewrite app_nil_r.
      cbn [bind].
      change (bytes_u32 word) with (bytes_u32 (u32_bytes (u32 k))).
      rewrite bytes_u32_bytes by apply u32_range.
      rewrite (u32_id k) by exact Hk32.
      rewrite array_get_framed by exact Hk. cbn [bind is_set].
      unfold int_op.
      replace ((INT_MIN <=? sub_cycle * sps) && (sub_cycle * sps <=? INT_MAX))
        with true
        by (symmetry; apply andb_true_iff; unfold INT_MIN;
            split; apply Z.leb_le; lia).
      cbn [bind]. unfold sizeof_uint32_t. rewrite u64_id by lia.
      rewrite (app_assoc pre word).
      rewrite mem_read_framed;
        [| rewrite len_app; unfold word; rewrite len_u32_bytes; lia
         | rewrite len_app; pose proof (len_nonneg rest); lia].
      replace (Z.to_nat (sbs - 4)) with (length c + 0)%nat
        by (unfold len in Hcc; lia).
      rewrite firstn_app_exact. cbn [firstn]. rewrite app_nil_r.
      cbn [bind].
      rewrite ptr_write_Ok by lia. cbn [bind].
      rewrite array_set_framed by exact Hk. cbn [bind].
      set (x := BufPtr (with_bytes (4 * (sub_cycle * sps)) c m)).
      change (done ++ x :: map BufPtr ms ++ tail)
        with (done ++ [x] ++ map BufPtr ms ++ tail).
      rewrite (app_assoc done [x]).
      replace ((pre ++ word) ++ c ++ rest)
        with ((pre ++ word ++ c) ++ concat (numbered_slots (k + 1) cs) ++ post)
        by (unfold rest; rewrite <- !app_assoc; reflexivity).
      rewrite IH.
      * rewrite <- app_assoc. reflexivity.
      * cbn [length] in Hlen. lia.
      * intros c' Hin. apply Hc. right. exact Hin.
      * intros m' Hin. apply Hm. right. exact Hin.
      * rewrite len_app. unfold len at 2. cbn [length]. lia.
      * rewrite !len_app. unfold word. rewrite len_u32_bytes. lia.
      * lia.
    + rewrite len_app. unfold word. rewrite len_u32_bytes.
      pose proof (len_nonneg (c ++ rest)). lia.
Qed.

End DenseReceive.

Section DenseRoundTrip.

Lemma packet_slots_null (sub n sub_cycle : Z) (j : nat) :
  forall k, packet_slots sub n sub_cycle (repeat NullPtr j) k = [].
Proof.
  induction j as [| j IH]; intros k; [reflexivity |].
  cbn [repeat packet_slots]. apply IH.
Qed.

Lemma packet_slots_dense (sub n sub_cycle : Z) (smems : list (list Z))
    (j : nat) :
  forall k,
    packet_slots sub n sub_cycle (map BufPtr smems ++ repeat NullPtr j) k
    = numbered_slots k (map (sub_cycle_bytes sub n sub_cycle) smems).
Proof.
  induction smems as [| m ms IH]; intros k.
  - cbn [map app numbered_slots]. apply packet_slots_null.
  - cbn [map app packet_slots numbered_slots]. rewrite IH. reflexivity.
Qed.

Lemma count_active_dense (smems : list (list Z)) (j : nat) :
  JackOptimizedPortList.count_active (map BufPtr smems ++ repeat NullPtr j)
  = len smems.
Proof.
  induction smems as [| m ms IH].
  - cbn [map app]. induction j as [| j IHj]; [reflexivity |].
    cbn [repeat JackOptimizedPortList.count_active is_set]. rewrite IHj.
    reflexivity.
  - cbn [map app JackOptimizedPortList.count_active is_set].
    rewrite IH, len_cons. reflexivity.
Qed.

Lemma null_or_buffer_dense (n : Z) (smems : list (list Z)) (j : nat) :
  (forall m, In m smems -> n <= len m) ->
  forall p, In p (map BufPtr smems ++ repeat NullPtr j) -> null_or_buffer n p.
Proof.
  intros Hm p Hin. apply in_app_or in Hin. destruct Hin as [Hin | Hin].
  - apply in_map_iff in Hin. destruct Hin as [m [<- Hin]].
    right. exists m. split; [reflexivity | apply Hm; exact Hin].
  - left. apply repeat_spec in Hin. exact Hin.
Qed.

(** The packet sent for the first ports and received after the cleanup
    stage has left the slots [map BufPtr rmems ++ rtail]. *)
Lemma dense_send_receive
    (s r : JackPortList) (smems rmems : list (list Z)) (j : nat)
    (rtail : list sample_ptr) (net : list Z)
    (cycle sub_cycle copy_size : Z) :
  let sub := fSubPeriodSize s in
  let bytes := 4 * sub + 4 in
  let k := len smems in
  let frame := sub_cycle * sub in
  fPortBuffer s = map BufPtr smems ++ repeat NullPtr j ->
  (if sub_cycle =? 0
   then JackOptimizedPortList.cleanup_ports
          (u64 (fPeriodSize r * sizeof_sample_t)) (fPortBuffer r)
   else Ok (fPortBuffer r)) = Ok (map BufPtr rmems ++ rtail) ->
  length rmems = length smems ->
  1 <= k ->
  0 <= sub ->
  fSubPeriodBytesSize s = bytes ->
  sub_period (fPacketSize r) (u64 (k * sizeof_sample_t)) (fPeriodSize r)
    = Ok sub ->
  0 <= frame <= INT_MAX ->
  (forall m, In m smems -> 4 * frame + 4 * sub <= len m) ->
  (forall m, In m rmems -> 4 * frame + 4 * sub <= len m) ->
  k * bytes <= len net ->
  len net < 2 ^ 31 ->
  INT_MIN <= fLastSubCycle r + 1 <= INT_MAX ->
  exists net' r' res log,
    JackOptimizedPortList.RenderToNetwork s net sub_cycle
      = Ok (net', k, k * bytes) /\
    JackOptimizedPortList.RenderFromNetwork r net' cycle sub_cycle copy_size k
      = Ok (r', res, log) /\
    fPortBuffer r'
    = map (fun sr => BufPtr (with_bytes (4 * frame)
                               (sub_cycle_bytes sub (4 * sub) sub_cycle (fst sr))
                               (snd sr)))
        (combine smems rmems)
      ++ rtail.
Proof.
  intros sub bytes k frame Hs Hclean Hlen Hk Hsub Hsb Hsize Hframe Hsm Hrm
    Hroom Hnet Hlast.
  assert (Hb4 : 4 <= bytes) by (subst bytes; lia).
  assert (Hsub29 : sub < 2 ^ 29) by (subst bytes; nia).
  assert (Hkb : 0 <= k * bytes < 2 ^ 31) by nia.
  assert (Hu : u32 (sub_cycle * sub) = frame)
    by (apply u32_id; unfold INT_MAX in Hframe; subst frame; lia).
  assert (Hb : bytes - 4 = 4 * sub) by (subst bytes; lia).
  set (chunks := map (sub_cycle_bytes sub (4 * sub) sub_cycle) smems).
  set (post := skipn (Z.to_nat (k * bytes)) net).
  (* the sender *)
  assert (Hsend : JackOptimizedPortList.RenderToNetwork s net sub_cycle
                  = Ok (concat (numbered_slots 0 chunks) ++ post,
                        k, k * bytes)).
  { unfold JackOptimizedPortList.RenderToNetwork. fold sub.
    rewrite Hsb, Hs.
    pose proof (copy_to_network_Ok sub bytes sub_cycle Hb4
                  (map BufPtr smems ++ repeat NullPtr j) 0 [] net 0) as Hrun.
    cbv zeta in Hrun. rewrite count_active_dense in Hrun. fold k in Hrun.
    rewrite Hu, Hb, packet_slots_dense in Hrun. fold chunks post in Hrun.
    cbn [app] in Hrun. rewrite Z.add_0_l in Hrun.
    rewrite Hrun; try lia.
    - cbn [bind]. rewrite u64_id, i32_id by lia. reflexivity.
    - apply null_or_buffer_dense. intros m Hin. fold frame.
      apply Hsm. exact Hin.
    - reflexivity. }
  (* the receiver *)
  assert (Hchunks : forall c, In c chunks -> len c = bytes - 4).
  { intros c Hin. unfold chunks in Hin. apply in_map_iff in Hin.
    destruct Hin as [m [<- Hin]]. rewrite Hb.
    apply length_sub_cycle_bytes; [lia |]. rewrite Hu. apply Hsm. exact Hin. }
  assert (Hloop : JackOptimizedPortList.copy_active_ports
                    (concat (numbered_slots 0 chunks) ++ post)
                    sub_cycle sub bytes (Z.to_nat k) 0
                    (map BufPtr rmems ++ rtail)
                  = Ok (map (fun cm => BufPtr (with_bytes (4 * frame)
                                                 (fst cm) (snd cm)))
                          (combine chunks rmems) ++ rtail)).
  { replace (Z.to_nat k) with (length rmems) by (unfold k, len; lia).
    apply (copy_active_ports_dense sub_cycle sub bytes Hb4 Hframe rmems
             chunks 0 [] rtail [] post).
    - unfold chunks. rewrite length_map. lia.
    - exact Hchunks.
    - intros m Hin. fold frame. rewrite Hb. apply Hrm. exact Hin.
    - reflexivity.
    - reflexivity.
    - unfold k, len in *. rewrite Hlen. lia. }
  destruct (check_sub_cycle_total (fLastSubCycle r) sub_cycle Hlast)
    as [res [log Hcheck]].
  exists (concat (numbered_slots 0 chunks) ++ post). eexists.
  exists res, log. split; [exact Hsend |]. split.
  - unfold JackOptimizedPortList.RenderFromNetwork.
    rewrite Hclean. cbn [bind].
    replace (k >? 0) with true
      by (symmetry; rewrite Z.gtb_ltb; apply Z.ltb_lt; lia).
    replace (k =? 0) with false by (symmetry; apply Z.eqb_neq; lia).
    rewrite Hsize. cbn [bind]. cbv zeta.
    unfold sizeof_sample_t, sizeof_uint32_t.
    rewrite (i32_id sub) by lia. rewrite (u64_id sub) by lia.
    replace (sub * 4 + 4) with bytes by (subst bytes; lia).
    rewrite (u64_id bytes) by lia. rewrite (i32_id bytes) by lia.
    rewrite Hloop, Hcheck. cbn [bind]. reflexivity.
  - cbn [set_fLastSubCycle set_fPortBuffer fPortBuffer].
    unfold chunks. rewrite combine_map_fst, map_map. reflexivity.
Qed.

End DenseRoundTrip.

Section FirstPortsActive.

Lemma combine_map_snd {A B C : Type} (g : B -> C) (l : list A) (l' : list B) :
  combine l (map g l') = map (fun p => (fst p, g (snd p))) (combine l l').
Proof.
  revert l'. induction l as [| a rest IH]; intros l'; [reflexivity |].
  destruct l' as [| b rest']; [reflexivity |].
  cbn [map combine fst snd]. rewrite IH. reflexivity.
Qed.

Lemma len_with_bytes (off : Z) (data mem : list Z) :
  0 <= off -> off + len data <= len mem ->
  len (with_bytes off data mem) = len mem.
Proof.
  intros H0 H1. unfold with_bytes, len in *.
  replace (Z.to_nat (off + Z.of_nat (length data)))
    with (Z.to_nat off + length data)%nat by lia.
  destruct (written_region mem (Z.to_nat off) data ltac:(lia)) as [Hl _].
  rewrite Hl. reflexivity.
Qed.

(** The sizes [JackOptimizedPortList::GetNumPackets] sets on the sender
    are those the receiver computes from the number of active ports. *)
Lemma GetNumPackets_sizes (l l' : JackPortList) (n : Z) :
  JackOptimizedPortList.GetNumPackets l = Ok (l', n) ->
  JackOptimizedPortList.count_active (fPortBuffer l) <> 0 ->
  sub_period (fPacketSize l)
    (u64 (JackOptimizedPortList.count_active (fPortBuffer l) * sizeof_sample_t))
    (fPeriodSize l) = Ok (fSubPeriodSize l') /\
  fSubPeriodBytesSize l' = u64 (fSubPeriodSize l' * 4 + 4) /\
  fPortBuffer l' = fPortBuffer l.
Proof.
  unfold JackOptimizedPortList.GetNumPackets. intros H Hc.
  apply Z.eqb_neq in Hc. rewrite Hc in H.
  apply bind_Ok in H. destruct H as [sub [Hsub H]].
  destruct (sub =? 0); try discriminate.
  injection H as <- _. cbn [set_fSubPeriod fSubPeriodSize fSubPeriodBytesSize
                             fPortBuffer].
  split; [exact Hsub |]. split; reflexivity.
Qed.

(** X13. Optimized layout with the first [k >= 1] ports of the sender
    active and buffers on the first [k] ports of the receiver, the
    sub-period of the sender being the one the receiver computes from
    [port_num = k]: [RenderToNetwork] reports [k] ports and
    [k * fSubPeriodBytesSize] bytes, and [RenderFromNetwork] leaves in
    each of the first [k] ports of the receiver, at the frames of the
    sub-cycle, the bytes the same port of the sender holds there.  At
    sub-cycle 0 the period of every receiver buffer is zeroed before;
    otherwise all other bytes and ports of the receiver are unchanged. *)
Theorem optimized_round_trip_first_ports :
  forall (s r : JackPortList) (smems rmems : list (list Z)) (j : nat)
         (rtail : list sample_ptr) (net : list Z)
         (cycle sub_cycle copy_size : Z),
    let sub := fSubPeriodSize s in
    let bytes := 4 * sub + 4 in
    let k := len smems in
    let frame := sub_cycle * sub in
    let period_bytes := 4 * fPeriodSize r in
    let cleaned := fun m =>
      if sub_cycle =? 0
      then with_bytes 0 (repeat 0 (Z.to_nat period_bytes)) m else m in
    fPortBuffer s = map BufPtr smems ++ repeat NullPtr j ->
    fPortBuffer r = map BufPtr rmems ++ rtail ->
    length rmems = length smems ->
    1 <= k ->
    0 <= sub ->
    fSubPeriodBytesSize s = bytes ->
    sub_period (fPacketSize r) (u64 (k * sizeof_sample_t)) (fPeriodSize r)
      = Ok sub ->
    0 <= frame <= INT_MAX ->
    (forall m, In m smems -> 4 * frame + 4 * sub <= len m) ->
    (forall m, In m rmems -> 4 * frame + 4 * sub <= len m) ->
    (sub_cycle = 0 ->
     0 <= fPeriodSize r < 2 ^ 32 /\
     (forall m, In m rmems -> period_bytes <= len m) /\
     (forall p, In p rtail -> null_or_buffer period_bytes p)) ->
    k * bytes <= len net ->
    len net < 2 ^ 31 ->
    INT_MIN <= fLastSubCycle r + 1 <= INT_MAX ->
    exists net' r' res log,
      JackOptimizedPortList.RenderToNetwork s net sub_cycle
        = Ok (net', k, k * bytes) /\
      JackOptimizedPortList.RenderFromNetwork r net' cycle sub_cycle
        copy_size k = Ok (r', res, log) /\
      fPortBuffer r'
      = map (fun sr =>
               BufPtr (with_bytes (4 * frame)
                         (sub_cycle_bytes sub (4 * sub) sub_cycle (fst sr))
                         (cleaned (snd sr))))
          (combine smems rmems)
        ++ (if sub_cycle =? 0 then map (zeroed period_bytes) rtail else rtail).
Proof.
  intros s r smems rmems j rtail net cycle sub_cycle copy_size
    sub bytes k frame period_bytes cleaned
    Hs Hr Hlen Hk Hsub Hsb Hsize Hframe Hsm Hrm Hzero Hroom Hnet Hlast.
  destruct (sub_cycle =? 0) eqn:Hsc.
  - apply Z.eqb_eq in Hsc. destruct (Hzero Hsc) as (HP & Hrp & Htail).
    assert (Hclean : (if sub_cycle =? 0
                      then JackOptimizedPortList.cleanup_ports
                             (u64 (fPeriodSize r * sizeof_sample_t))
                             (fPortBuffer r)
                      else Ok (fPortBuffer r))
                     = Ok (map BufPtr (map cleaned rmems)
                           ++ map (zeroed period_bytes) rtail)).
    { replace (sub_cycle =? 0) with true by (symmetry; apply Z.eqb_eq; lia).
      unfold sizeof_sample_t. rewrite u64_id by lia.
      replace (fPeriodSize r * 4) with period_bytes by (subst period_bytes; lia).
      rewrite Hr. rewrite cleanup_ports_Ok.
      - rewrite map_app, !map_map. reflexivity.
      - subst period_bytes. lia.
      - intros p Hin. apply in_app_or in Hin. destruct Hin as [Hin | Hin].
        + apply in_map_iff in Hin. destruct Hin as [m [<- Hin]].
          right. exists m. split; [reflexivity | apply Hrp; exact Hin].
        + apply Htail. exact Hin. }
    destruct (dense_send_receive s r smems (map cleaned rmems) j
                (map (zeroed period_bytes) rtail) net cycle sub_cycle copy_size
                Hs Hclean)
      as (net' & r' & res & log & Hsend & Hrecv & Hports); try assumption.
    + rewrite length_map. exact Hlen.
    + intros m0 Hin. apply in_map_iff in Hin. destruct Hin as [m [<- Hin]].
      unfold cleaned.
      replace (sub_cycle =? 0) with true by (symmetry; apply Z.eqb_eq; lia).
      rewrite len_with_bytes.
      * apply Hrm. exact Hin.
      * lia.
      * rewrite len_repeat by (subst period_bytes; lia).
        pose proof (Hrp m Hin). lia.
    + exists net', r', res, log. split; [exact Hsend |].
      split; [exact Hrecv |]. rewrite Hports.
      rewrite combine_map_snd, map_map. reflexivity.
  - assert (Hclean : (if sub_cycle =? 0
                      then JackOptimizedPortList.cleanup_ports
                             (u64 (fPeriodSize r * sizeof_sample_t))
                             (fPortBuffer r)
                      else Ok (fPortBuffer r))
                     = Ok (map BufPtr rmems ++ rtail)).
    { rewrite Hsc, Hr. reflexivity. }
    destruct (dense_send_receive s r smems rmems j rtail net cycle sub_cycle
                copy_size Hs Hclean)
      as (net' & r' & res & log & Hsend & Hrecv & Hports); try assumption.
    exists net', r', res, log. split; [exact Hsend |].
    split; [exact Hrecv |]. rewrite Hports. reflexivity.
Qed.

Lemma optimized_round_trip_first_ports_witness :
  exists s n net' r' res log,
    JackOptimizedPortList.GetNumPackets (mono_list 7) = Ok (s, n) /\
    JackOptimizedPortList.RenderToNetwork s (repeat 0 12) 1
      = Ok (net', 1, 12) /\
    JackOptimizedPortList.RenderFromNetwork (mono_list 0) net' 0 1 12 1
      = Ok (r', res, log) /\
    fPortBuffer r' = [BufPtr (repeat 0 8 ++ repeat 7 8 ++ repeat 0 48)].
Proof.
  exists (set_fSubPeriod (mono_list 7) 2 12), 8.
  destruct (optimized_round_trip_first_ports
              (set_fSubPeriod (mono_list 7) 2 12) (mono_list 0)
              [repeat 7 64] [repeat 0 64] 0 [] (repeat 0 12) 0 1 12)
    as (net' & r' & res & log & Hsend & Hrecv & Hports).
  - reflexivity.
  - reflexivity.
  - reflexivity.
  - vm_compute. discriminate.
  - vm_compute. discriminate.
  - reflexivity.
  - vm_compute. reflexivity.
  - vm_compute. split; discriminate.
  - intros m [<- | []]. vm_compute. discriminate.
  - intros m [<- | []]. vm_compute. discriminate.
  - intros H. discriminate H.
  - vm_compute. discriminate.
  - vm_compute. reflexivity.
  - vm_compute. split; discriminate.
  - exists net', r', res, log.
    split; [vm_compute; reflexivity |].
    split; [exact Hsend |]. split; [exact Hrecv |].
    rewrite Hports. vm_compute. reflexivity.
Defined.

End FirstPortsActive.
